(** * PasteMax dependency resolution: import scanning, path resolution and
      the dependency walker (src/utils/importParser.ts, src/utils/pathResolver.ts)

    JavaScript strings are modelled as [string] (sequences of 8-bit code
    units); arrays as [list]; the [Map] and [Set] of the walker as
    insertion-ordered association lists and lists. Regular expressions are
    kept as syntax trees and run by a backtracking matcher with the
    priorities of the JavaScript one (left alternative first, greedy
    repetition). The functions of src/utils/pathUtils.ts are a parameter of
    the resolver; an implementation after the specification serves for the
    examples. The recursion of the walker is modelled twice: with a bound
    on its depth that is proved never to be reached, and on a call stack of
    a given size, where a call that finds no room throws into the catch
    clause of the calling processFile. *)

From Stdlib Require Import Strings.String Strings.Ascii Lists.List Arith.Arith
  Arith.PeanoNat Bool.Bool micromega.Lia.
Import ListNotations.

Open Scope string_scope.
Open Scope list_scope.

(** ** JavaScript string methods *)

Module JsString.

Definition startsWith (s p : string) : bool := String.prefix p s.

(** [s.endsWith(suf)]: some suffix of [s] is [suf]. *)
Fixpoint endsWith (s suf : string) : bool :=
  if String.eqb s suf then true
  else match s with
       | EmptyString => false
       | String _ s' => endsWith s' suf
       end.

(** [s.includes(sub)]: [sub] is a prefix of some suffix of [s]. *)
Fixpoint includes (s sub : string) : bool :=
  if String.prefix sub s then true
  else match s with
       | EmptyString => false
       | String _ s' => includes s' sub
       end.

(** [s.split(c)] for a one-character separator; never the empty array. *)
Fixpoint split (c : ascii) (s : string) : list string :=
  match s with
  | EmptyString => [EmptyString]
  | String a s' =>
      if Ascii.eqb a c then EmptyString :: split c s'
      else match split c s' with
           | h :: t => String a h :: t
           | [] => [String a EmptyString]
           end
  end.

(** [arr.pop()] as used on a fresh array: the last element, if any. *)
Fixpoint pop (l : list string) : option string :=
  match l with
  | [] => None
  | [x] => Some x
  | _ :: t => pop t
  end.

Definition isUpper (c : ascii) : bool :=
  let n := nat_of_ascii c in
  (((65 <=? n) && (n <=? 90))
   || ((192 <=? n) && (n <=? 222) && negb (n =? 215)))%nat.

Definition lowerChar (c : ascii) : ascii :=
  if isUpper c then ascii_of_nat (nat_of_ascii c + 32) else c.

Fixpoint toLowerCase (s : string) : string :=
  match s with
  | EmptyString => EmptyString
  | String c s' => String (lowerChar c) (toLowerCase s')
  end.

(** [s.replace(/\\/g, '/')] *)
Fixpoint backslashToSlash (s : string) : string :=
  match s with
  | EmptyString => EmptyString
  | String c s' =>
      String (if Ascii.eqb c "\" then "/"%char else c) (backslashToSlash s')
  end.

(** White space of [\s] and of [trim] among 8-bit code units. *)
Definition isSpace (c : ascii) : bool :=
  let n := nat_of_ascii c in
  (((9 <=? n) && (n <=? 13)) || (n =? 32) || (n =? 160))%nat.

Fixpoint trimStart (s : string) : string :=
  match s with
  | String c s' => if isSpace c then trimStart s' else s
  | EmptyString => EmptyString
  end.

Fixpoint trimEnd (s : string) : string :=
  match s with
  | EmptyString => EmptyString
  | String c s' =>
      match trimEnd s' with
      | EmptyString => if isSpace c then EmptyString else String c EmptyString
      | t => String c t
      end
  end.

Definition trim (s : string) : string := trimEnd (trimStart s).

(** [p.split('.').pop()?.toLowerCase()], the expression by which both
    source files read the extension of a path. *)
Definition extensionOf (p : string) : option string :=
  option_map toLowerCase (pop (split "." p)).

End JsString.

(** ** Regular expressions *)

Module Regex.

Inductive regex : Type :=
| Eps : regex
| Chr : (ascii -> bool) -> regex
| Seq : regex -> regex -> regex
| Alt : regex -> regex -> regex
| Star : regex -> regex
| Group : nat -> regex -> regex
| Eos : regex.

Definition captures := list (nat * string).

Definition result := option (string * captures).

(** The backtracking matcher, in continuation-passing style: [k] is what
    remains to be matched after [r]. An iteration of [Star] that consumes
    nothing is rejected, as in the language definition. *)
Fixpoint matchRe (r : regex) (s : string) (caps : captures)
    (k : string -> captures -> result) {struct r} : result :=
  match r with
  | Eps => k s caps
  | Chr p =>
      match s with
      | String c s' => if p c then k s' caps else None
      | EmptyString => None
      end
  | Seq r1 r2 => matchRe r1 s caps (fun s1 c1 => matchRe r2 s1 c1 k)
  | Alt r1 r2 =>
      match matchRe r1 s caps k with
      | Some x => Some x
      | None => matchRe r2 s caps k
      end
  | Star r1 =>
      (fix loop (fuel : nat) (s : string) (caps : captures) {struct fuel}
         : result :=
         match fuel with
         | 0 => k s caps
         | S fuel' =>
             match matchRe r1 s caps
                     (fun s1 c1 =>
                        if (String.length s1 <? String.length s)%nat
                        then loop fuel' s1 c1 else None) with
             | Some x => Some x
             | None => k s caps
             end
         end) (String.length s) s caps
  | Group n r1 =>
      matchRe r1 s caps
        (fun s1 c1 =>
           k s1 ((n, substring 0 (String.length s - String.length s1) s) :: c1))
  | Eos =>
      match s with
      | EmptyString => k s caps
      | String _ _ => None
      end
  end.

(** A match anchored at the start of [s]: its length and its groups. *)
Definition matchAt (r : regex) (s : string) : option (nat * captures) :=
  match matchRe r s [] (fun s' c => Some (s', c)) with
  | Some (s', c) => Some (String.length s - String.length s', c)
  | None => None
  end.

Record reMatch : Type := mkMatch {
  index : nat;
  text : string;
  groups : captures
}.

Fixpoint lookup (n : nat) (c : captures) : option string :=
  match c with
  | [] => None
  | (m, v) :: c' => if Nat.eqb m n then Some v else lookup n c'
  end.

(** [match[n]]; an unset group reads as the empty string, which every
    caller treats like [undefined]. *)
Definition group (n : nat) (m : reMatch) : string :=
  match lookup n (groups m) with
  | Some v => v
  | None => EmptyString
  end.

(** The loop [while ((match = re.exec(line)) !== null)] of a global
    pattern, started with [lastIndex = 0]: the leftmost match from the
    current position, then on from where it ended. [idx] is the position of
    [s] in the line and [skip] the number of characters of [s] that the
    previous match still covers. The patterns of the scanners never match
    the empty string (lemma [scanner_patterns_nonempty]), so every round of
    the source loop moves [lastIndex] forward. *)
Fixpoint execAll (r : regex) (idx skip : nat) (s : string) : list reMatch :=
  match s with
  | EmptyString => []
  | String _ s' =>
      match skip with
      | S skip' => execAll r (S idx) skip' s'
      | 0 =>
          match matchAt r s with
          | Some (len, caps) =>
              mkMatch idx (substring 0 len s) caps
                :: execAll r (S idx) (len - 1) s'
          | None => execAll r (S idx) 0 s'
          end
      end
  end.

(** [s.replace(re, '')] for a pattern without the global flag: the leftmost
    match is removed. *)
Fixpoint removeFirst (r : regex) (s : string) : string :=
  match matchAt r s with
  | Some (len, _) => substring len (String.length s - len) s
  | None =>
      match s with
      | EmptyString => EmptyString
      | String c s' => String c (removeFirst r s')
      end
  end.

(** Pattern syntax *)

Definition chr (c : ascii) : regex := Chr (Ascii.eqb c).
Definition notChr (c : ascii) : regex := Chr (fun x => negb (Ascii.eqb c x)).

Fixpoint lit (s : string) : regex :=
  match s with
  | EmptyString => Eps
  | String c s' => Seq (chr c) (lit s')
  end.

Definition plus (r : regex) : regex := Seq r (Star r).
Definition opt (r : regex) : regex := Alt r Eps.

Fixpoint seqs (l : list regex) : regex :=
  match l with
  | [] => Eps
  | [r] => r
  | r :: l' => Seq r (seqs l')
  end.

Fixpoint alts (r : regex) (l : list regex) : regex :=
  match l with
  | [] => r
  | r' :: l' => Alt r (alts r' l')
  end.

(** [\w] *)
Definition isWord (c : ascii) : bool :=
  let n := nat_of_ascii c in
  (((48 <=? n) && (n <=? 57)) || ((65 <=? n) && (n <=? 90))
   || ((97 <=? n) && (n <=? 122)) || (n =? 95))%nat.

Definition dquote : ascii := ascii_of_nat 34.

Definition isQuote (c : ascii) : bool :=
  Ascii.eqb c "'" || Ascii.eqb c dquote.

Definition ws : regex := Chr JsString.isSpace.
Definition word : regex := Chr isWord.
Definition quote : regex := Chr isQuote.
Definition notQuote : regex := Chr (fun c => negb (isQuote c)).

End Regex.

(** ** src/utils/importParser.ts *)

Module ImportParser.
Import JsString Regex.

Inductive importType : Type :=
| import_ | require_ | from_ | dynamic_ | css_import.

Record ImportInfo : Type := mkImportInfo {
  type : importType;
  path : string;
  originalText : string;
  startLine : nat;
  startColumn : nat;
  endLine : nat;
  endColumn : nat
}.

Definition newline : ascii := ascii_of_nat 10.

(** [for (lineIndex = 0; lineIndex < lines.length; lineIndex++)], the
    records of each line appended in turn. *)
Fixpoint forLines (scan : nat -> string -> list ImportInfo) (lineIndex : nat)
    (lines : list string) : list ImportInfo :=
  match lines with
  | [] => []
  | line :: rest => scan lineIndex line ++ forLines scan (S lineIndex) rest
  end.

Definition record (t : importType) (lineIndex : nat) (m : reMatch) : ImportInfo :=
  mkImportInfo t (group 1 m) (text m) (lineIndex + 1) (index m)
    (lineIndex + 1) (index m + String.length (text m)).

Definition braces : regex := seqs [chr "{"; Star (notChr "}"); chr "}"].

Module Js.

(** The static import pattern, flag g; below Q stands for the class of the
    two quote characters, and blanks are added for reading:
    import \s+ (?: {[^}]*} | \* \s+ as \s+ \w+ | \w+ (?: \s* , \s* {[^}]*} )* | \w+ )
    \s+ from \s+ Q ([^Q]+) Q *)
Definition importRegex : regex :=
  seqs [lit "import"; plus ws;
        alts braces
          [seqs [chr "*"; plus ws; lit "as"; plus ws; plus word];
           seqs [plus word; Star (seqs [Star ws; chr ","; Star ws; braces])];
           plus word];
        plus ws; lit "from"; plus ws;
        quote; Group 1 (plus notQuote); quote].

(** import \s* \( \s* Q ([^Q]+) Q \s* \) with flag g *)
Definition dynamicImportRegex : regex :=
  seqs [lit "import"; Star ws; chr "("; Star ws;
        quote; Group 1 (plus notQuote); quote; Star ws; chr ")"].

(** require \s* \( \s* Q ([^Q]+) Q \s* \) with flag g *)
Definition requireRegex : regex :=
  seqs [lit "require"; Star ws; chr "("; Star ws;
        quote; Group 1 (plus notQuote); quote; Star ws; chr ")"].

(** The body of the loop over lines: the three patterns in turn. A static
    import whose captured path is empty is skipped ([continue]). *)
Definition scanLine (lineIndex : nat) (line : string) : list ImportInfo :=
  map (record import_ lineIndex)
      (filter (fun m => negb (String.eqb (group 1 m) EmptyString))
              (execAll importRegex 0 0 line))
  ++ map (record dynamic_ lineIndex) (execAll dynamicImportRegex 0 0 line)
  ++ map (record require_ lineIndex) (execAll requireRegex 0 0 line).

End Js.

Definition parseJavaScriptImports (content : string) : list ImportInfo :=
  forLines Js.scanLine 0 (split newline content).

Module Py.

(** import \s+ ( \w+ (?: \s* , \s* \w+ )* ) with flag g *)
Definition importRegex : regex :=
  seqs [lit "import"; plus ws;
        Group 1 (seqs [plus word;
                       Star (seqs [Star ws; chr ","; Star ws; plus word])])].

(** from \s+ ( \w+ (?: \. \w+ )* ) \s+ import \s+ ([^;]+) with flag g *)
Definition fromRegex : regex :=
  seqs [lit "from"; plus ws;
        Group 1 (seqs [plus word; Star (seqs [chr "."; plus word])]);
        plus ws; lit "import"; plus ws; Group 2 (plus (notChr ";"))].

(** One record per module of [import a, b, c], all at the column of the
    statement. *)
Definition moduleRecords (lineIndex : nat) (m : reMatch) : list ImportInfo :=
  map (fun module =>
         let originalText := ("import " ++ module)%string in
         mkImportInfo import_ module originalText (lineIndex + 1) (index m)
           (lineIndex + 1) (index m + String.length originalText))
      (map trim (split "," (group 1 m))).

Definition scanLine (lineIndex : nat) (line : string) : list ImportInfo :=
  flat_map (moduleRecords lineIndex) (execAll importRegex 0 0 line)
  ++ map (record from_ lineIndex) (execAll fromRegex 0 0 line).

End Py.

Definition parsePythonImports (content : string) : list ImportInfo :=
  forLines Py.scanLine 0 (split newline content).

Module Css.

(** @import \s+ (?: url\( )? Q? ([^Q\s)]+) Q? \s* \)? with flag g *)
Definition importRegex : regex :=
  seqs [lit "@import"; plus ws; opt (lit "url("); opt quote;
        Group 1 (plus (Chr (fun c => negb (isQuote c || isSpace c
                                           || Ascii.eqb c ")"))));
        opt quote; Star ws; opt (chr ")")].

Definition scanLine (lineIndex : nat) (line : string) : list ImportInfo :=
  map (record css_import lineIndex) (execAll importRegex 0 0 line).

End Css.

Definition parseCSSImports (content : string) : list ImportInfo :=
  forLines Css.scanLine 0 (split newline content).

(** [importPath] is falsy when it is [undefined] or empty. *)
Definition isLocalImport (importPath : string) : bool :=
  if String.eqb importPath EmptyString then false
  else if startsWith importPath "http://" || startsWith importPath "https://"
  then false
  else if startsWith importPath "./" || startsWith importPath "../"
          || startsWith importPath "/"
  then true
  else if includes importPath ".js" || includes importPath ".ts"
          || includes importPath ".jsx" || includes importPath ".tsx"
          || includes importPath ".py" || includes importPath ".css"
          || includes importPath ".scss" || includes importPath ".sass"
  then true
  else if negb (includes importPath "/") then false
  else true.

Definition isJsExtension (e : string) : bool :=
  String.eqb e "js" || String.eqb e "jsx" || String.eqb e "ts"
  || String.eqb e "tsx".

Definition isCssExtension (e : string) : bool :=
  String.eqb e "css" || String.eqb e "scss" || String.eqb e "sass".

Definition parseFileImports (content filePath : string) : list ImportInfo :=
  match extensionOf filePath with
  | Some e =>
      if isJsExtension e then parseJavaScriptImports content
      else if String.eqb e "py" then parsePythonImports content
      else if isCssExtension e then parseCSSImports content
      else []
  | None => []
  end.

(** The patterns \.(js|ts|jsx|tsx)$ and \.py$ of the two replacements *)
Definition jsSuffixRegex : regex :=
  seqs [chr "."; alts (lit "js") [lit "ts"; lit "jsx"; lit "tsx"]; Eos].

Definition pySuffixRegex : regex := seqs [chr "."; lit "py"; Eos].

Definition stripSourceExtension (path : string) : string :=
  if endsWith path ".js" || endsWith path ".ts" || endsWith path ".jsx"
     || endsWith path ".tsx"
  then removeFirst jsSuffixRegex path
  else if endsWith path ".py" then removeFirst pySuffixRegex path
  else path.

Definition extractLocalImportPaths (content filePath : string) : list string :=
  map stripSourceExtension
      (filter isLocalImport (map path (parseFileImports content filePath))).

(** A side-effect import as one line: the keyword, one blank, the path
    between two quote characters [q], and what follows on the line. *)
Definition sideEffectImport (q : ascii) (p tail : string) : string :=
  ("import " ++ String q (p ++ String q tail))%string.

Fixpoint hasChar (c : ascii) (s : string) : bool :=
  match s with
  | EmptyString => false
  | String a s' => Ascii.eqb a c || hasChar c s'
  end.

(** The content of the test of extractLocalImportPaths. *)
Definition twoImports : string :=
  ("import helper from './utils/helper';" ++ String newline
   "import React from 'react';")%string.

End ImportParser.

(** ** src/utils/pathUtils.ts and src/types/FileTypes.ts *)

(** Modelled from the spec: FileTypes.ts is not among the sources; the
    fields are those of the FileRecord of the specification and of the
    fixtures of the test file. *)
Record FileData : Type := mkFileData {
  name : string;
  path : string;
  content : string;
  tokenCount : nat;
  size : nat;
  isBinary : bool;
  isSkipped : bool
}.

(** The four functions that pathResolver.ts imports from pathUtils.ts. The
    resolver is stated over any implementation of them. *)
Class PathUtils : Type := {
  normalizePath : string -> string;
  dirname : string -> string;
  join : string -> string -> string;
  resolvePath : string -> string -> string
}.

Module SpecPathUtils.
Import JsString.

Definition slash : ascii := "/"%char.

(** Modelled from the spec: pathUtils.ts is not among the sources. The
    three helpers below build a path from its segments, in the
    forward-slash form that the specification asks for. *)
Fixpoint joinSegments (l : list string) : string :=
  match l with
  | [] => EmptyString
  | [x] => x
  | x :: l' => (x ++ String slash (joinSegments l'))%string
  end.

(** Modelled from the spec: pathUtils.ts is not among the sources. The
    segments are pushed on a stack, last one first in [acc]: an empty
    segment and [.] are dropped, [..] removes the segment before it. *)
Fixpoint walkSegments (acc : list string) (l : list string) : list string :=
  match l with
  | [] => rev acc
  | x :: l' =>
      if String.eqb x EmptyString || String.eqb x "." then walkSegments acc l'
      else if String.eqb x ".." then walkSegments (tl acc) l'
      else walkSegments (x :: acc) l'
  end.

(** Modelled from the spec: pathUtils.ts is not among the sources. A path
    that starts at the root keeps its leading separator. *)
Definition fromSegments (p : string) (segs : list string) : string :=
  ((if startsWith p "/" then "/" else "") ++ joinSegments segs)%string.

(** Modelled from the spec: pathUtils.ts is not among the sources. The
    specification asks of it absolute-path normalization to forward
    slashes. *)
Definition normalizePath (p : string) : string := backslashToSlash p.

(** Modelled from the spec: pathUtils.ts is not among the sources. The
    directory of a path: what stands before its last separator. *)
Definition dirname (p : string) : string :=
  let segs := split slash (normalizePath p) in
  match removelast segs with
  | [] => "."
  | [EmptyString] => "/"
  | d => joinSegments d
  end.

(** Modelled from the spec: pathUtils.ts is not among the sources. Joining
    puts one separator between the two parts. *)
Definition join (a b : string) : string :=
  fromSegments (normalizePath a)
    (walkSegments [] (split slash (normalizePath a)
                      ++ split slash (normalizePath b))).

(** Modelled from the spec: pathUtils.ts is not among the sources. A
    relative path is resolved against a directory into an absolute path:
    the segments [.] are dropped and each [..] goes one directory up. *)
Definition resolvePath (dir rel : string) : string :=
  fromSegments (normalizePath dir)
    (walkSegments [] (split slash (normalizePath dir)
                      ++ split slash (normalizePath rel))).

#[export] Instance specPathUtils : PathUtils := {
  normalizePath := normalizePath;
  dirname := dirname;
  join := join;
  resolvePath := resolvePath
}.

End SpecPathUtils.

(** ** src/utils/pathResolver.ts *)

Module PathResolver.
Import JsString.

Record FileExtensions : Type := mkFileExtensions {
  javascript : list string;
  python : list string;
  css : list string;
  default : list string
}.

Definition FILE_EXTENSIONS : FileExtensions := {|
  javascript := [".js"; ".jsx"; ".ts"; ".tsx"; ".mjs"; ".cjs"];
  python := [".py"];
  css := [".css"; ".scss"; ".sass"];
  default := [".js"; ".ts"; ".jsx"; ".tsx"; ".py"; ".css"; ".scss"; ".sass"]
|}.

(** The cases of the switch that answer with the import as written. *)
Definition hasKnownExtension (e : string) : bool :=
  (String.eqb e "js" || String.eqb e "jsx" || String.eqb e "ts"
   || String.eqb e "tsx" || String.eqb e "mjs" || String.eqb e "cjs")
  || String.eqb e "py"
  || (String.eqb e "css" || String.eqb e "scss" || String.eqb e "sass").

Definition getFileExtensions (importPath : string) : list string :=
  match extensionOf importPath with
  | Some extension =>
      if hasKnownExtension extension then [EmptyString]
      else default FILE_EXTENSIONS
  | None => default FILE_EXTENSIONS
  end.

(** An import string whose final segment is one of the extensions of the
    switch. *)
Definition hasRecognizedExtension (importPath : string) : bool :=
  match extensionOf importPath with
  | Some extension => hasKnownExtension extension
  | None => false
  end.

(** The ten words of the switch of getFileExtensions. *)
Definition recognizedExtensions : list string :=
  ["js"; "jsx"; "ts"; "tsx"; "mjs"; "cjs"; "py"; "css"; "scss"; "sass"].

(** After the words of the specification: the import string ends with a
    dot followed by one of the ten words, the case of letters ignored. *)
Definition endsWithRecognizedExtension (importPath : string) : bool :=
  existsb (fun e => endsWith (toLowerCase importPath) ("." ++ e))
          recognizedExtensions.

(** The import string is itself one of the ten words, the case of letters
    ignored: it has no dot, and its only segment is read as an extension. *)
Definition isExtensionWord (importPath : string) : bool :=
  existsb (String.eqb (toLowerCase importPath)) recognizedExtensions.

Section Resolver.
Context {PU : PathUtils}.

Definition canonical (p : string) : string :=
  backslashToSlash (normalizePath p).

Definition arePathsEquivalent (path1 path2 : string) : bool :=
  String.eqb (toLowerCase (canonical path1)) (toLowerCase (canonical path2)).

(** The second test of the loop body of findMatchingFiles. *)
Definition partialMatch (normalizedFile normalizedTarget : string) : bool :=
  endsWith normalizedFile ("/" ++ normalizedTarget)
  || String.eqb normalizedFile normalizedTarget
  || endsWith normalizedFile ("/" ++ normalizedTarget ++ "/index.js")
  || endsWith normalizedFile ("/" ++ normalizedTarget ++ "/index.ts")
  || endsWith normalizedFile ("/" ++ normalizedTarget ++ "/index.jsx")
  || endsWith normalizedFile ("/" ++ normalizedTarget ++ "/index.tsx").

Definition fileMatches (targetPath : string) (file : FileData) : bool :=
  if arePathsEquivalent (path file) targetPath then true
  else partialMatch (canonical (path file)) (canonical targetPath).

Definition findMatchingFiles (targetPath : string) (allFiles : list FileData)
  : list string :=
  map path (filter (fileMatches targetPath) allFiles).

(** Both loops over the extensions: the matches of every extension are
    appended, and the path without extension is tried when none was
    found. *)
Definition probe (base : string) (extensions : list string)
    (allFiles : list FileData) : list string :=
  let resolvedPaths :=
    flat_map (fun ext => findMatchingFiles (base ++ ext) allFiles) extensions in
  if Nat.eqb (List.length resolvedPaths) 0
  then resolvedPaths ++ findMatchingFiles base allFiles
  else resolvedPaths.

Definition resolveImportPath (importPath currentFilePath : string)
    (allFiles : list FileData) (projectRoot : string) : list string :=
  if startsWith importPath "/" then
    let absolutePath := join projectRoot importPath in
    findMatchingFiles absolutePath allFiles
  else if startsWith importPath "./" || startsWith importPath "../" then
    let currentDir := dirname currentFilePath in
    let resolvedRelativePath := resolvePath currentDir importPath in
    probe resolvedRelativePath (getFileExtensions importPath) allFiles
  else
    probe importPath (getFileExtensions importPath) allFiles.

End Resolver.
(** What a call made inside a try block does: it returns a value or it
    throws. *)
Inductive completion (A : Type) : Type :=
| Returned : A -> completion A
| Thrown : completion A.

Arguments Returned {A} _.
Arguments Thrown {A}.

(** The two containers of one call of getDependencyFiles, and two logs kept
    for the statements below: the paths handed to the extractor, and the
    paths named by the warnings of the catch clause. *)
Record walkState : Type := mkWalkState {
  processedFiles : list string;
  dependencyFiles : list (string * FileData);
  scanned : list string;
  warnings : list string
}.

Definition emptyState : walkState := mkWalkState [] [] [] [].

(** [Set.prototype.has] and [Set.prototype.add] *)
Definition setHas (k : string) (s : list string) : bool :=
  existsb (String.eqb k) s.

Definition setAdd (k : string) (s : list string) : list string :=
  if setHas k s then s else s ++ [k].

(** [Map.prototype.set]: a known key keeps its place, a new one goes last. *)
Fixpoint mapSet (k : string) (v : FileData) (m : list (string * FileData))
  : list (string * FileData) :=
  match m with
  | [] => [(k, v)]
  | (k', v') :: m' =>
      if String.eqb k' k then (k, v) :: m' else (k', v') :: mapSet k v m'
  end.

Definition markProcessed (file : FileData) (st : walkState) : walkState :=
  mkWalkState (setAdd (path file) (processedFiles st)) (dependencyFiles st)
    (scanned st) (warnings st).

Definition logScan (file : FileData) (st : walkState) : walkState :=
  mkWalkState (processedFiles st) (dependencyFiles st)
    (scanned st ++ [path file]) (warnings st).

Definition setDependency (file : FileData) (st : walkState) : walkState :=
  mkWalkState (processedFiles st) (mapSet (path file) file (dependencyFiles st))
    (scanned st) (warnings st).

Definition warn (file : FileData) (st : walkState) : walkState :=
  mkWalkState (processedFiles st) (dependencyFiles st) (scanned st)
    (warnings st ++ [path file]).

Section Walker.
Context {PU : PathUtils}.

(** The two calls of the try block, taken as calls that may throw. *)
Variable extract : string -> string -> completion (list string).
Variable resolve :
  string -> string -> list FileData -> string -> completion (list string).

Variables (selectedFiles allFiles : list FileData) (projectRoot : string).

Definition isSelected (dependencyFile : FileData) : bool :=
  existsb (fun f => arePathsEquivalent (path f) (path dependencyFile))
          selectedFiles.

(** The body of the loop over the resolved paths; [processFile] is the
    recursive call. *)
Definition visit (processFile : FileData -> walkState -> option walkState)
    (resolvedPath : string) (st : walkState) : option walkState :=
  match find (fun f => arePathsEquivalent (path f) resolvedPath) allFiles with
  | Some dependencyFile =>
      if negb (isSelected dependencyFile)
      then processFile dependencyFile (setDependency dependencyFile st)
      else Some st
  | None => Some st
  end.

Fixpoint forResolved (processFile : FileData -> walkState -> option walkState)
    (resolvedPaths : list string) (st : walkState) : option walkState :=
  match resolvedPaths with
  | [] => Some st
  | resolvedPath :: rest =>
      match visit processFile resolvedPath st with
      | Some st' => forResolved processFile rest st'
      | None => None
      end
  end.

(** The loop over the import paths; a throw of the resolver leaves the
    loop for the catch clause. *)
Fixpoint forImports (processFile : FileData -> walkState -> option walkState)
    (file : FileData) (importPaths : list string) (st : walkState)
  : option walkState :=
  match importPaths with
  | [] => Some st
  | importPath :: rest =>
      match resolve importPath (path file) allFiles projectRoot with
      | Thrown => Some (warn file st)
      | Returned resolvedPaths =>
          match forResolved processFile resolvedPaths st with
          | Some st' => forImports processFile file rest st'
          | None => None
          end
      end
  end.

Definition processBody (processFile : FileData -> walkState -> option walkState)
    (file : FileData) (st : walkState) : option walkState :=
  if setHas (path file) (processedFiles st) then Some st
  else
    let st1 := logScan file (markProcessed file st) in
    match extract (content file) (path file) with
    | Thrown => Some (warn file st1)
    | Returned importPaths => forImports processFile file importPaths st1
    end.

(** [processFile], with a bound on the depth of the recursion; [None] when
    the bound is reached. With [depthBound] this is the walk on a call
    stack that is never exhausted; [processFileOnStack] below is the walk
    on a stack of a given size. *)
Fixpoint processFile (depth : nat) (file : FileData) (st : walkState)
  : option walkState :=
  match depth with
  | 0 => None
  | S depth' => processBody (processFile depth') file st
  end.

(** [selectedFiles.forEach(processFile)] *)
Fixpoint forEach (depth : nat) (files : list FileData) (st : walkState)
  : option walkState :=
  match files with
  | [] => Some st
  | file :: rest =>
      match processFile depth file st with
      | Some st' => forEach depth rest st'
      | None => None
      end
  end.

Definition walk (depth : nat) : option walkState :=
  forEach depth selectedFiles emptyState.

(** No chain of nested calls is longer than the number of files at hand
    plus one (theorem [walk_terminates]). *)
Definition depthBound : nat :=
  S (List.length selectedFiles + List.length allFiles).

Definition finalState : walkState :=
  match walk depthBound with
  | Some st => st
  | None => emptyState
  end.

(** [Array.from(dependencyFiles.values())] *)
Definition getDependencyFilesWith : list FileData :=
  map snd (dependencyFiles finalState).

End Walker.

(** *** The walker on a call stack of a given size

    processFile calls itself inside its own try block. When the call stack
    has no room for one more call of processFile, the call throws a
    RangeError, and the catch clause of the calling processFile takes it as
    it takes any other exception: it warns, and the rest of the imports of
    that file is not looked at. [stack] is the number of nested calls of
    processFile that the stack admits; the catch clause is taken to have
    the room it needs. The state kept by a throw is the state of the two
    containers, which are shared by all the calls. *)
Inductive stackOutcome : Type :=
| Finished : walkState -> stackOutcome
| RangeError : walkState -> stackOutcome.

Definition stateOf (o : stackOutcome) : walkState :=
  match o with
  | Finished st => st
  | RangeError st => st
  end.

Section WalkerOnStack.
Context {PU : PathUtils}.

Variable extract : string -> string -> completion (list string).
Variable resolve :
  string -> string -> list FileData -> string -> completion (list string).

Variables (selectedFiles allFiles : list FileData) (projectRoot : string).

Definition visitOnStack
    (processFile : FileData -> walkState -> stackOutcome)
    (resolvedPath : string) (st : walkState) : stackOutcome :=
  match find (fun f => arePathsEquivalent (path f) resolvedPath) allFiles with
  | Some dependencyFile =>
      if negb (isSelected selectedFiles dependencyFile)
      then processFile dependencyFile (setDependency dependencyFile st)
      else Finished st
  | None => Finished st
  end.

Fixpoint forResolvedOnStack
    (processFile : FileData -> walkState -> stackOutcome)
    (resolvedPaths : list string) (st : walkState) : stackOutcome :=
  match resolvedPaths with
  | [] => Finished st
  | resolvedPath :: rest =>
      match visitOnStack processFile resolvedPath st with
      | Finished st' => forResolvedOnStack processFile rest st'
      | RangeError st' => RangeError st'
      end
  end.

(** The loop over the import paths together with the catch clause: a
    throw of the resolver and a RangeError of a nested call both end the
    loop with a warning. *)
Fixpoint forImportsOnStack
    (processFile : FileData -> walkState -> stackOutcome)
    (file : FileData) (importPaths : list string) (st : walkState)
  : walkState :=
  match importPaths with
  | [] => st
  | importPath :: rest =>
      match resolve importPath (path file) allFiles projectRoot with
      | Thrown => warn file st
      | Returned resolvedPaths =>
          match forResolvedOnStack processFile resolvedPaths st with
          | Finished st' => forImportsOnStack processFile file rest st'
          | RangeError st' => warn file st'
          end
      end
  end.

Definition processBodyOnStack
    (processFile : FileData -> walkState -> stackOutcome)
    (file : FileData) (st : walkState) : walkState :=
  if setHas (path file) (processedFiles st) then st
  else
    let st1 := logScan file (markProcessed file st) in
    match extract (content file) (path file) with
    | Thrown => warn file st1
    | Returned importPaths => forImportsOnStack processFile file importPaths st1
    end.

Fixpoint processFileOnStack (stack : nat) (file : FileData) (st : walkState)
  : stackOutcome :=
  match stack with
  | 0 => RangeError st
  | S stack' =>
      Finished (processBodyOnStack (processFileOnStack stack') file st)
  end.

(** [selectedFiles.forEach(processFile)]: nothing catches a RangeError of
    these calls. *)
Fixpoint forEachOnStack (stack : nat) (files : list FileData) (st : walkState)
  : stackOutcome :=
  match files with
  | [] => Finished st
  | file :: rest =>
      match processFileOnStack stack file st with
      | Finished st' => forEachOnStack stack rest st'
      | RangeError st' => RangeError st'
      end
  end.

Definition walkOnStack (stack : nat) : stackOutcome :=
  forEachOnStack stack selectedFiles emptyState.

Definition getDependencyFilesOnStackWith (stack : nat)
  : completion (list FileData) :=
  match walkOnStack stack with
  | Finished st => Returned (map snd (dependencyFiles st))
  | RangeError _ => Thrown
  end.

End WalkerOnStack.

Section GetDependencyFiles.
Context {PU : PathUtils}.

(** The two calls as the source makes them: on strings both functions of
    this repository return. *)
Definition extractCall (content filePath : string) : completion (list string) :=
  Returned (ImportParser.extractLocalImportPaths content filePath).

Definition resolveCall (importPath currentFilePath : string)
    (allFiles : list FileData) (projectRoot : string)
  : completion (list string) :=
  Returned (resolveImportPath importPath currentFilePath allFiles projectRoot).

Definition getDependencyFiles (selectedFiles allFiles : list FileData)
    (projectRoot : string) : list FileData :=
  getDependencyFilesWith extractCall resolveCall selectedFiles allFiles
    projectRoot.

(** getDependencyFiles on a call stack that admits [stack] nested calls of
    processFile. *)
Definition getDependencyFilesOnStack (stack : nat)
    (selectedFiles allFiles : list FileData) (projectRoot : string)
  : completion (list FileData) :=
  getDependencyFilesOnStackWith extractCall resolveCall selectedFiles allFiles
    projectRoot stack.

End GetDependencyFiles.

(** The imports of a file that the loop of processFile resolves before
    a resolution throws: a throw ends the loop. *)
Section Recovery.
Context {PU : PathUtils}.

Variable resolve :
  string -> string -> list FileData -> string -> completion (list string).

Variables (allFiles : list FileData) (projectRoot : string).

Fixpoint beforeThrow (filePath : string) (importPaths : list string)
  : list string :=
  match importPaths with
  | [] => []
  | importPath :: rest =>
      match resolve importPath filePath allFiles projectRoot with
      | Thrown => []
      | Returned _ => importPath :: beforeThrow filePath rest
      end
  end.

End Recovery.

(** The paths a call of getDependencyFiles can meet, and how many of them
    are not yet in processedFiles. *)
Definition knownPaths (selectedFiles allFiles : list FileData) : list string :=
  map path selectedFiles ++ map path allFiles.

Definition unprocessed (selectedFiles allFiles : list FileData)
    (st : walkState) : nat :=
  List.length
    (filter (fun p => negb (setHas p (processedFiles st)))
            (knownPaths selectedFiles allFiles)).

(** Equality of two results as sets of paths, up to path equivalence. *)
Definition samePathSet {PU : PathUtils} (l1 l2 : list FileData) : Prop :=
  forall p,
    existsb (fun f => arePathsEquivalent (path f) p) l1
    = existsb (fun f => arePathsEquivalent (path f) p) l2.

(** File [a] has a local import that resolves to the path of file [b]. *)
Definition importsFile {PU : PathUtils} (a b : FileData)
    (allFiles : list FileData) (projectRoot : string) : Prop :=
  exists importPath,
    In importPath
       (ImportParser.extractLocalImportPaths (content a) (path a))
    /\ In (path b)
          (resolveImportPath importPath (path a) allFiles projectRoot).

End PathResolver.

(** ** The rest of the two source files *)

Module ImportParserRest.
Import ImportParser.

(** [Array.from] of the [Set] filled by [allImports.add]: the first
    occurrence of every element, in the order of arrival. *)
Fixpoint setAddAll (l : list string) (s : list string) : list string :=
  match l with
  | [] => s
  | x :: l' => setAddAll l' (PathResolver.setAdd x s)
  end.

(** The argument of getAllLocalImports is an array of objects with a
    path and a content. *)
Record SourceFile : Type := mkSourceFile {
  path : string;
  content : string
}.

(** [files.forEach], each file adding its imports to the set. *)
Fixpoint collectImports (files : list SourceFile) (allImports : list string)
  : list string :=
  match files with
  | [] => allImports
  | file :: rest =>
      collectImports rest
        (setAddAll (extractLocalImportPaths (content file) (path file))
           allImports)
  end.

Definition getAllLocalImports (files : list SourceFile) : list string :=
  collectImports files [].

End ImportParserRest.

Module PathResolverRest.
Import PathResolver.

Record ResolvedImport : Type := mkResolvedImport {
  importPath : string;
  resolvedPaths : list string;
  foundFiles : list FileData
}.

(** [resolvedPaths.includes(file.path)] *)
Definition includesPath (resolvedPaths : list string) (file : FileData) : bool :=
  existsb (String.eqb (path file)) resolvedPaths.

Section ResolveFileImports.
Context {PU : PathUtils}.

Definition resolveFileImports (content filePath : string)
    (allFiles : list FileData) (projectRoot : string)
    (parser : string -> string -> list string) : list ResolvedImport :=
  map (fun importPath =>
         let resolvedPaths :=
           resolveImportPath importPath filePath allFiles projectRoot in
         let foundFiles := filter (includesPath resolvedPaths) allFiles in
         mkResolvedImport importPath resolvedPaths foundFiles)
      (parser content filePath).

End ResolveFileImports.
End PathResolverRest.

(** ** What the walker is expected to find *)

Module WalkerSpec.
Import PathResolver.

Definition keys (st : walkState) : list string :=
  map fst (dependencyFiles st).

Section Reach.
Context {PU : PathUtils}.

Variables (selectedFiles allFiles : list FileData) (projectRoot : string).

(** The lookup of a resolved path among the candidate files, as in the
    loop body of the walker. *)
Definition lookupFile (resolvedPath : string) : option FileData :=
  find (fun f => arePathsEquivalent (path f) resolvedPath) allFiles.

(** One step of the walker: an import of [g] resolves to a path whose
    candidate file is [dep], and [dep] is not selected. *)
Definition dependsOn (g dep : FileData) : Prop :=
  exists importPath resolvedPath,
    In importPath (ImportParser.extractLocalImportPaths (content g) (path g))
    /\ In resolvedPath
          (resolveImportPath importPath (path g) allFiles projectRoot)
    /\ lookupFile resolvedPath = Some dep
    /\ isSelected selectedFiles dep = false.

(** The files reached from the selection by such steps. *)
Inductive Reachable : FileData -> Prop :=
| reach_selected s dep :
    In s selectedFiles -> dependsOn s dep -> Reachable dep
| reach_dependency g dep :
    Reachable g -> dependsOn g dep -> Reachable dep.

(** All the dependencies of [h] are keys of the map of [st]. *)
Definition closedIn (h : FileData) (st : walkState) : Prop :=
  forall dep, dependsOn h dep -> In (path dep) (keys st).

(** The files that processFile is called with: a selected file, or the
    candidate file found for its own path, not selected. *)
Definition mayOwn (h : FileData) : Prop :=
  In h selectedFiles
  \/ (lookupFile (path h) = Some h /\ isSelected selectedFiles h = false).

(** What a call of processFile does to the state. *)
Definition extends (st st' : walkState) : Prop :=
  incl (keys st) (keys st')
  /\ incl (processedFiles st) (processedFiles st')
  /\ (forall k, In k (keys st') ->
                In k (keys st) \/ In k (processedFiles st'))
  /\ (forall p, In p (processedFiles st') ->
                In p (processedFiles st)
                \/ exists h, path h = p /\ mayOwn h /\ closedIn h st')
  /\ (forall p, In p (processedFiles st') ->
                In p (processedFiles st) \/ In p (keys st')
                \/ In p (map path selectedFiles)).

(** Selected files with the same path have the same content. *)
Definition coherent : Prop :=
  forall s1 s2,
    In s1 selectedFiles -> In s2 selectedFiles ->
    path s1 = path s2 -> content s1 = content s2.

End Reach.

(** The same notions for a walk whose two calls may throw. *)
Section ReachWith.
Context {PU : PathUtils}.

Variable extract : string -> string -> completion (list string).
Variable resolve :
  string -> string -> list FileData -> string -> completion (list string).

Variables (selectedFiles allFiles : list FileData) (projectRoot : string).

(** One step of the walker: the extraction from [g] returns, the import is
    one of those that are resolved before a resolution throws, it resolves
    to a path whose candidate file is [dep], and [dep] is not selected. *)
Definition dependsOnWith (g dep : FileData) : Prop :=
  exists importPaths importPath resolvedPaths resolvedPath,
    extract (content g) (path g) = Returned importPaths
    /\ In importPath
          (beforeThrow resolve allFiles projectRoot (path g) importPaths)
    /\ resolve importPath (path g) allFiles projectRoot
       = Returned resolvedPaths
    /\ In resolvedPath resolvedPaths
    /\ lookupFile allFiles resolvedPath = Some dep
    /\ isSelected selectedFiles dep = false.

Inductive ReachableWith : FileData -> Prop :=
| reachWith_selected s dep :
    In s selectedFiles -> dependsOnWith s dep -> ReachableWith dep
| reachWith_dependency g dep :
    ReachableWith g -> dependsOnWith g dep -> ReachableWith dep.

(** Something is thrown while [g] is processed: by the extraction, or by
    the resolution of one of its imports. *)
Definition throwsIn (g : FileData) : Prop :=
  extract (content g) (path g) = Thrown
  \/ exists importPaths importPath,
       extract (content g) (path g) = Returned importPaths
       /\ In importPath importPaths
       /\ resolve importPath (path g) allFiles projectRoot = Thrown.

Definition closedInWith (h : FileData) (st : walkState) : Prop :=
  forall dep, dependsOnWith h dep -> In (path dep) (keys st).

(** What a call of processFile does to the state; the file processed
    under a path is warned about when something is thrown in it. *)
Definition extendsWith (st st' : walkState) : Prop :=
  incl (keys st) (keys st')
  /\ incl (processedFiles st) (processedFiles st')
  /\ incl (warnings st) (warnings st')
  /\ (forall k, In k (keys st') ->
                In k (keys st) \/ In k (processedFiles st'))
  /\ (forall p, In p (processedFiles st') ->
                In p (processedFiles st)
                \/ exists h, path h = p /\ mayOwn selectedFiles allFiles h
                             /\ closedInWith h st'
                             /\ (throwsIn h -> In p (warnings st')))
  /\ (forall p, In p (processedFiles st') ->
                In p (processedFiles st) \/ In p (keys st')
                \/ In p (map path selectedFiles)).

End ReachWith.
End WalkerSpec.

(** ** What a pattern allows *)

Module RegexSpec.
Import JsString Regex.

(** [Matches r s s']: [r] can consume a prefix of [s] and leave [s']. *)
Inductive Matches : regex -> string -> string -> Prop :=
| MEps s : Matches Eps s s
| MChr (p : ascii -> bool) c s : p c = true -> Matches (Chr p) (String c s) s
| MSeq r1 r2 s s1 s2 :
    Matches r1 s s1 -> Matches r2 s1 s2 -> Matches (Seq r1 r2) s s2
| MAltL r1 r2 s s' : Matches r1 s s' -> Matches (Alt r1 r2) s s'
| MAltR r1 r2 s s' : Matches r2 s s' -> Matches (Alt r1 r2) s s'
| MStarStop r s : Matches (Star r) s s
| MStarStep r s s1 s2 :
    Matches r s s1 -> Matches (Star r) s1 s2 -> Matches (Star r) s s2
| MGroup n r s s' : Matches r s s' -> Matches (Group n r) s s'
| MEos : Matches Eos "" "".

(** The least number of characters a pattern consumes. *)
Fixpoint minLen (r : regex) : nat :=
  match r with
  | Eps | Eos | Star _ => 0
  | Chr _ => 1
  | Seq r1 r2 => minLen r1 + minLen r2
  | Alt r1 r2 => Nat.min (minLen r1) (minLen r2)
  | Group _ r1 => minLen r1
  end.

(** Counting the quote characters of a string, and the least number of
    them in what a pattern consumes. A character class counts when it
    holds quote characters only, which is checked on all 256 code units. *)
Fixpoint countQuotes (s : string) : nat :=
  match s with
  | EmptyString => 0
  | String c s' => (if isQuote c then 1 else 0) + countQuotes s'
  end.

Definition allChars : list ascii := map ascii_of_nat (seq 0 256).

Definition onlyQuotes (p : ascii -> bool) : bool :=
  forallb (fun c => implb (p c) (isQuote c)) allChars.

Fixpoint minQuotes (r : regex) : nat :=
  match r with
  | Eps | Eos | Star _ => 0
  | Chr p => if onlyQuotes p then 1 else 0
  | Seq r1 r2 => minQuotes r1 + minQuotes r2
  | Alt r1 r2 => Nat.min (minQuotes r1) (minQuotes r2)
  | Group _ r1 => minQuotes r1
  end.

End RegexSpec.

(** ** What the groups of a pattern hold *)

Module CaptureSpec.
Import JsString Regex RegexSpec.

(** The patterns that stand inside a group numbered [n]. *)
Fixpoint groupsOf (n : nat) (r : regex) : list regex :=
  match r with
  | Group m r1 => (if Nat.eqb m n then [r1] else []) ++ groupsOf n r1
  | Seq r1 r2 | Alt r1 r2 => groupsOf n r1 ++ groupsOf n r2
  | Star r1 => groupsOf n r1
  | Eps | Chr _ | Eos => []
  end.

(** Every match of [r] goes through a group numbered [n]. *)
Fixpoint sets (n : nat) (r : regex) : bool :=
  match r with
  | Group m r1 => Nat.eqb m n || sets n r1
  | Seq r1 r2 => sets n r1 || sets n r2
  | Alt r1 r2 => sets n r1 && sets n r2
  | Star _ | Eps | Chr _ | Eos => false
  end.

(** The text between the input [s] and what is left of it, [s']. *)
Definition captured (s s' : string) : string :=
  substring 0 (String.length s - String.length s') s.

(** [v] is the text that a group numbered [n] of [r] has matched. *)
Definition capturedBy (r : regex) (n : nat) (v : string) : Prop :=
  exists g s1 s2,
    In g (groupsOf n r) /\ Matches g s1 s2 /\ v = captured s1 s2.

(** How the groups after a match of [r] relate to the groups before. *)
Definition capturesAfter (r : regex) (caps caps' : captures) : Prop :=
  (forall n v, lookup n caps' = Some v ->
               lookup n caps = Some v \/ capturedBy r n v)
  /\ (forall n v, lookup n caps = Some v -> exists v', lookup n caps' = Some v')
  /\ (forall n, sets n r = true ->
                exists v, lookup n caps' = Some v /\ capturedBy r n v).

Fixpoint forallChars (P : ascii -> bool) (s : string) : bool :=
  match s with
  | EmptyString => true
  | String c s' => P c && forallChars P s'
  end.

(** Every character class of [r] lies within [P], which is checked on all
    256 code units. *)
Definition classWithin (P p : ascii -> bool) : bool :=
  forallb (fun c => implb (p c) (P c)) allChars.

Fixpoint classesWithin (P : ascii -> bool) (r : regex) : bool :=
  match r with
  | Chr p => classWithin P p
  | Seq r1 r2 | Alt r1 r2 => classesWithin P r1 && classesWithin P r2
  | Star r1 | Group _ r1 => classesWithin P r1
  | Eps | Eos => true
  end.

(** A character that is neither the separator of paths nor the dot. *)
Definition notSlashNorDot (c : ascii) : bool :=
  negb (Ascii.eqb c "/" || Ascii.eqb c ".").

Definition notSlash (c : ascii) : bool := negb (Ascii.eqb c "/").

(** The class of the path of the pattern for style sheets. *)
Definition cssPathChar (c : ascii) : bool :=
  negb (isQuote c || isSpace c || Ascii.eqb c ")").

End CaptureSpec.

(** ** Files used as examples *)

Module Fixtures.
Import PathResolver.

Definition file (p c : string) : FileData := mkFileData "" p c 0 0 false false.

Definition helperTs : FileData :=
  mkFileData "helper.ts" "/project/src/utils/helper.ts" "" 0 0 false false.

Definition helperJs : FileData :=
  mkFileData "helper.js" "/project/src/utils/helper.js" "" 0 0 false false.

Definition helperMjs : FileData :=
  mkFileData "helper.mjs" "/project/src/utils/helper.mjs" "" 0 0 false false.

Definition componentsIndex : FileData :=
  mkFileData "index.ts" "/project/src/components/index.ts" "" 0 0 false false.

(** Two files that import each other. *)
Definition cycleA : FileData := file "/p/a.ts" "import b from './b';".
Definition cycleB : FileData := file "/p/b.ts" "import a from './a';".

(** A file that imports two others. *)
Definition app : FileData :=
  file "/p/app.ts"
    ("import b from './b';" ++ String ImportParser.newline
     "import c from './c';")%string.
Definition leafB : FileData := file "/p/b.ts" "import d from './d';".
Definition leafC : FileData := file "/p/c.ts" "".
Definition leafD : FileData := file "/p/d.ts" "".

(** A chain of imports, entered at its head by one file and further down
    by another. *)
Definition chainX : FileData := file "/q/x.ts" "import b from './b';".
Definition chainY : FileData := file "/q/y.ts" "import c from './c';".
Definition chainB : FileData := file "/q/b.ts" "import c from './c';".
Definition chainC : FileData := file "/q/c.ts" "import d from './d';".
Definition chainD : FileData := file "/q/d.ts" "import e from './e';".
Definition chainE : FileData := file "/q/e.ts" "".
Definition chainFiles : list FileData :=
  [chainX; chainY; chainB; chainC; chainD; chainE].

(** An extractor that throws on one file. *)
Definition throwingExtract (content filePath : string)
  : completion (list string) :=
  if String.eqb filePath "/p/b.ts" then Thrown
  else extractCall content filePath.

End Fixtures.

(** ** Tactics *)

Module RegexTactics.
Import Regex RegexSpec.

(** Inversion of [Matches] along the syntax of a pattern. *)
Ltac inv_matches :=
  repeat match goal with
    | H : Matches (Seq _ _) _ _ |- _ => inversion H; clear H; subst
    | H : Matches (Alt _ _) _ _ |- _ => inversion H; clear H; subst
    | H : Matches (Chr _) _ _ |- _ => inversion H; clear H; subst
    | H : Matches (Group _ _) _ _ |- _ => inversion H; clear H; subst
    | H : Matches Eps _ _ |- _ => inversion H; clear H; subst
    | H : Matches Eos _ _ |- _ => inversion H; clear H; subst
    | H : Ascii.eqb _ _ = true |- _ => apply Ascii.eqb_eq in H; subst
    end.

(** Inversion of [Matches] at the head of a string whose first characters
    are known. *)
Ltac inv_head :=
  repeat match goal with
    | H : Matches (Seq _ _) _ _ |- _ => inversion H; clear H; subst
    | H : Matches Eps _ _ |- _ => inversion H; clear H; subst
    | H : Matches (Chr _) (String _ _) _ |- _ => inversion H; clear H; subst
    | H : Matches (Star _) (String _ _) _ |- _ => inversion H; clear H; subst
    | H : _ = true |- _ => vm_compute in H; discriminate H
    end.

End RegexTactics.

(** * Properties *)

(** ** Strings *)

Module JsStringFacts.
Import JsString.

Lemma length_append (a b : string) :
  String.length (a ++ b) = String.length a + String.length b.
Proof. induction a as [|c a IH]; simpl; [reflexivity | now rewrite IH]. Qed.

Lemma append_assoc (a b c : string) : ((a ++ b) ++ c = a ++ (b ++ c))%string.
Proof. induction a as [|x a IH]; simpl; [reflexivity | now rewrite IH]. Qed.

Lemma eqb_length (a b : string) :
  String.eqb a b = true -> String.length a = String.length b.
Proof. intros H. apply String.eqb_eq in H. now subst. Qed.

Lemma endsWith_cons (c : ascii) (s suf : string) :
  endsWith (String c s) suf
  = if String.eqb (String c s) suf then true else endsWith s suf.
Proof. reflexivity. Qed.

(** A string ends only with strings that are no longer than itself. *)
Lemma endsWith_length (s suf : string) :
  endsWith s suf = true -> String.length suf <= String.length s.
Proof.
  induction s as [|c s IH].
  - destruct suf; simpl; [lia | discriminate].
  - rewrite endsWith_cons.
    destruct (String.eqb (String c s) suf) eqn:E.
    + intros _. apply eqb_length in E. simpl in E. simpl. lia.
    + intros H. apply IH in H. simpl. lia.
Qed.

Lemma endsWith_refl (s : string) : endsWith s s = true.
Proof.
  destruct s; [reflexivity|].
  rewrite endsWith_cons. now rewrite String.eqb_refl.
Qed.

Lemma endsWith_append (p suf : string) : endsWith (p ++ suf) suf = true.
Proof.
  induction p as [|c p IH].
  - apply endsWith_refl.
  - change (String c p ++ suf)%string with (String c (p ++ suf)).
    rewrite endsWith_cons, IH. now destruct (String.eqb _ _).
Qed.

End JsStringFacts.

(** ** The matcher against a declarative reading of the patterns *)

Module RegexFacts.
Import JsString JsStringFacts Regex RegexSpec.

(** Whatever the matcher accepts, the pattern allows. *)
Lemma matchRe_sound (r : regex) :
  forall s caps k x,
    matchRe r s caps k = Some x ->
    exists s' caps', Matches r s s' /\ k s' caps' = Some x.
Proof.
  induction r as [|p|r1 IH1 r2 IH2|r1 IH1 r2 IH2|r1 IH1|n r1 IH1|];
    intros s caps k x H; simpl in H.
  - exists s, caps. split; [constructor | assumption].
  - destruct s as [|c s]; [discriminate|].
    destruct (p c) eqn:E; [|discriminate].
    exists s, caps. split; [now constructor | assumption].
  - apply IH1 in H. destruct H as (s1 & c1 & M1 & H).
    apply IH2 in H. destruct H as (s2 & c2 & M2 & H).
    exists s2, c2. split; [econstructor; eassumption | assumption].
  - destruct (matchRe r1 s caps k) eqn:E.
    + inversion H; subst. apply IH1 in E. destruct E as (s' & c' & M & E).
      exists s', c'. split; [now apply MAltL | assumption].
    + apply IH2 in H. destruct H as (s' & c' & M & H).
      exists s', c'. split; [now apply MAltR | assumption].
  - remember (String.length s) as fuel eqn:F. clear F.
    revert s caps H. induction fuel as [|fuel IHf]; intros s caps H.
    + exists s, caps. split; [constructor | assumption].
    + match type of H with
      | match ?m with _ => _ end = _ => destruct m eqn:E
      end.
      * inversion H; subst. apply IH1 in E.
        destruct E as (s1 & c1 & M1 & E).
        destruct (String.length s1 <? String.length s)%nat; [|discriminate].
        apply IHf in E. destruct E as (s2 & c2 & M2 & E).
        exists s2, c2. split; [econstructor; eassumption | assumption].
      * exists s, caps. split; [constructor | assumption].
  - apply IH1 in H. destruct H as (s' & c' & M & H).
    eexists s', _. split; [now constructor | eassumption].
  - destruct s; [|discriminate].
    exists "", caps. split; [constructor | assumption].
Qed.

Lemma matchAt_sound (r : regex) (s : string) (n : nat) (c : captures) :
  matchAt r s = Some (n, c) ->
  exists s', Matches r s s' /\ n = String.length s - String.length s'.
Proof.
  unfold matchAt. intros H.
  destruct (matchRe r s [] (fun s' c0 => Some (s', c0))) as [[s' c']|] eqn:E;
    [|discriminate].
  inversion H; subst.
  apply matchRe_sound in E. destruct E as (s'' & c'' & M & E).
  inversion E; subst. now exists s'.
Qed.

(** What is left is a suffix of the input. *)
Lemma Matches_suffix r s s' :
  Matches r s s' -> exists w, s = (w ++ s')%string.
Proof.
  induction 1.
  - now exists "".
  - now exists (String c "").
  - destruct IHMatches1 as [w1 ->]. destruct IHMatches2 as [w2 ->].
    exists (w1 ++ w2)%string. now rewrite append_assoc.
  - assumption.
  - assumption.
  - now exists "".
  - destruct IHMatches1 as [w1 ->]. destruct IHMatches2 as [w2 ->].
    exists (w1 ++ w2)%string. now rewrite append_assoc.
  - assumption.
  - now exists "".
Qed.

Lemma Matches_minLen r s s' :
  Matches r s s' -> String.length s' + minLen r <= String.length s.
Proof. induction 1; simpl in *; lia. Qed.

Lemma matchAt_minLen r s n c : matchAt r s = Some (n, c) -> minLen r <= n.
Proof.
  intros H. apply matchAt_sound in H. destruct H as (s' & M & ->).
  apply Matches_minLen in M. lia.
Qed.

Lemma allChars_complete (c : ascii) : In c allChars.
Proof.
  unfold allChars. rewrite <- (ascii_nat_embedding c).
  apply in_map, in_seq. pose proof (nat_ascii_bounded c). lia.
Qed.

Lemma onlyQuotes_spec p c : onlyQuotes p = true -> p c = true -> isQuote c = true.
Proof.
  unfold onlyQuotes. rewrite forallb_forall. intros H E.
  specialize (H c (allChars_complete c)). now rewrite E in H.
Qed.

Lemma countQuotes_append (a b : string) :
  countQuotes (a ++ b) = countQuotes a + countQuotes b.
Proof. induction a as [|c a IH]; simpl; [reflexivity | rewrite IH; lia]. Qed.

Lemma Matches_minQuotes r s s' :
  Matches r s s' -> countQuotes s' + minQuotes r <= countQuotes s.
Proof.
  induction 1; simpl in *; try lia.
  destruct (onlyQuotes p) eqn:E; [|lia].
  rewrite (onlyQuotes_spec _ _ E H). lia.
Qed.

(** A pattern that needs more quote characters than a line holds matches
    nowhere in it. *)
Lemma matchAt_few_quotes r s :
  countQuotes s < minQuotes r -> matchAt r s = None.
Proof.
  intros H. destruct (matchAt r s) as [[n c]|] eqn:E; [|reflexivity].
  apply matchAt_sound in E. destruct E as (s' & M & _).
  apply Matches_minQuotes in M. lia.
Qed.

Lemma execAll_few_quotes r s :
  forall idx, countQuotes s < minQuotes r -> execAll r idx 0 s = [].
Proof.
  induction s as [|c s IH]; intros idx H; simpl; [reflexivity|].
  rewrite (matchAt_few_quotes r (String c s) H).
  apply IH. simpl in H. lia.
Qed.

End RegexFacts.

(** ** Import extraction *)

Module ImportParserFacts.
Import JsString JsStringFacts Regex RegexSpec RegexTactics RegexFacts ImportParser.

(** No pattern run by [execAll] matches the empty string, so that every
    round of the source loops moves [lastIndex] forward. *)
Lemma scanner_patterns_nonempty (r : regex) (s : string) n c :
  In r [Js.importRegex; Js.dynamicImportRegex; Js.requireRegex;
        Py.importRegex; Py.fromRegex; Css.importRegex] ->
  matchAt r s = Some (n, c) -> 0 < n.
Proof.
  intros HI H. apply matchAt_minLen in H.
  assert (0 < minLen r); [|lia].
  simpl in HI.
  repeat (destruct HI as [<-|HI]; [vm_compute; lia|]).
  contradiction.
Qed.

Lemma append_inj_r (a c b d : string) :
  (a ++ b = c ++ d)%string -> String.length b = String.length d ->
  a = c /\ b = d.
Proof.
  revert c. induction a as [|x a IH]; intros [|y c] E L; simpl in E.
  - now split.
  - subst b. simpl in L. rewrite length_append in L. lia.
  - subst d. simpl in L. rewrite length_append in L. lia.
  - inversion E; subst. destruct (IH c H1 L) as [-> ->]. now split.
Qed.

Lemma endsWith_spec (s b : string) :
  endsWith s b = true -> exists w, s = (w ++ b)%string.
Proof.
  induction s as [|c s IH].
  - simpl. destruct b; [now exists "" | discriminate].
  - rewrite endsWith_cons.
    destruct (String.eqb (String c s) b) eqn:E.
    + apply String.eqb_eq in E. intros _. now exists "".
    + intros H. destruct (IH H) as [w ->]. now exists (String c w).
Qed.

(** A prefix does not change whether a string ends with a shorter one. *)
Lemma endsWith_append_short (p a b : string) :
  String.length b <= String.length a ->
  endsWith (p ++ a) b = endsWith a b.
Proof.
  intros L. induction p as [|c p IH]; [reflexivity|].
  change (String c p ++ a)%string with (String c (p ++ a)).
  rewrite endsWith_cons.
  destruct (String.eqb (String c (p ++ a)) b) eqn:E; [|exact IH].
  apply eqb_length in E. simpl in E. rewrite length_append in E. lia.
Qed.

Lemma endsWith_append_longer (p a b1 b2 : string) :
  String.length a = String.length b2 -> a <> b2 ->
  endsWith (p ++ a) (b1 ++ b2) = false.
Proof.
  intros L N. destruct (endsWith (p ++ a) (b1 ++ b2)) eqn:E; [|reflexivity].
  apply endsWith_spec in E. destruct E as [w E].
  rewrite <- append_assoc in E.
  apply append_inj_r in E; [|assumption]. now destruct E.
Qed.

(** The two suffix patterns match the written extensions and nothing
    else. *)
Lemma jsSuffix_matches (s : string) n c :
  matchAt jsSuffixRegex s = Some (n, c) ->
  s = ".js" \/ s = ".ts" \/ s = ".jsx" \/ s = ".tsx".
Proof.
  intros H. apply matchAt_sound in H. destruct H as (s' & M & _).
  cbv [jsSuffixRegex seqs alts lit chr] in M.
  inv_matches; auto.
Qed.

Lemma pySuffix_matches (s : string) n c :
  matchAt pySuffixRegex s = Some (n, c) -> s = ".py".
Proof.
  intros H. apply matchAt_sound in H. destruct H as (s' & M & _).
  cbv [pySuffixRegex seqs alts lit chr] in M.
  inv_matches; auto.
Qed.

Lemma removeFirst_unfold r s :
  removeFirst r s =
  match matchAt r s with
  | Some (len, _) => substring len (String.length s - len) s
  | None =>
      match s with
      | EmptyString => EmptyString
      | String c s' => String c (removeFirst r s')
      end
  end.
Proof. destruct s; reflexivity. Qed.

Lemma removeFirst_jsSuffix (p ext : string) :
  In ext [".js"; ".ts"; ".jsx"; ".tsx"] ->
  removeFirst jsSuffixRegex (p ++ ext) = p.
Proof.
  intros HI. induction p as [|x p IH].
  - simpl in HI.
    repeat (destruct HI as [<-|HI]; [reflexivity|]). contradiction.
  - change (String x p ++ ext)%string with (String x (p ++ ext)).
    rewrite removeFirst_unfold.
    destruct (matchAt jsSuffixRegex (String x (p ++ ext))) as [[n c]|] eqn:E.
    + exfalso. apply jsSuffix_matches in E.
      assert (L : String.length (String x (p ++ ext)) <= 4)
        by (destruct E as [E|[E|[E|E]]]; rewrite E; simpl; lia).
      simpl in L. rewrite length_append in L. simpl in HI.
      repeat (destruct HI as [<-|HI]; [
        destruct p; simpl in L; [simpl in E; intuition discriminate | lia] |]).
      contradiction.
    + now rewrite IH.
Qed.

Lemma removeFirst_pySuffix (p : string) :
  removeFirst pySuffixRegex (p ++ ".py") = p.
Proof.
  induction p as [|x p IH]; [reflexivity|].
  change (String x p ++ ".py")%string with (String x (p ++ ".py")).
  rewrite removeFirst_unfold.
  destruct (matchAt pySuffixRegex (String x (p ++ ".py"))) as [[n c]|] eqn:E.
  - exfalso. apply pySuffix_matches in E.
    assert (L : String.length (String x (p ++ ".py")) = 3) by now rewrite E.
    simpl in L. rewrite length_append in L. simpl in L. lia.
  - now rewrite IH.
Qed.

Lemma strip_js (p ext : string) :
  In ext [".js"; ".ts"; ".jsx"; ".tsx"] -> stripSourceExtension (p ++ ext) = p.
Proof.
  intros HI. unfold stripSourceExtension.
  assert (E : endsWith (p ++ ext) ".js" || endsWith (p ++ ext) ".ts"
              || endsWith (p ++ ext) ".jsx" || endsWith (p ++ ext) ".tsx"
              = true).
  { simpl in HI.
    repeat (destruct HI as [<-|HI]; [
      rewrite !endsWith_append_short by (simpl; lia); reflexivity |]).
    contradiction. }
  rewrite E. now apply removeFirst_jsSuffix.
Qed.

Lemma strip_py (p : string) : stripSourceExtension (p ++ ".py") = p.
Proof.
  unfold stripSourceExtension.
  assert (J : endsWith (p ++ ".py") ".jsx" = false)
    by (apply (endsWith_append_longer p ".py" "." "jsx"); [reflexivity | discriminate]).
  assert (T : endsWith (p ++ ".py") ".tsx" = false)
    by (apply (endsWith_append_longer p ".py" "." "tsx"); [reflexivity | discriminate]).
  rewrite J, T.
  rewrite !endsWith_append_short by (simpl; lia).
  simpl. apply removeFirst_pySuffix.
Qed.

Lemma strip_css (p ext : string) :
  In ext [".css"; ".scss"; ".sass"] ->
  stripSourceExtension (p ++ ext) = (p ++ ext)%string.
Proof.
  intros HI. unfold stripSourceExtension. simpl in HI.
  repeat (destruct HI as [<-|HI]; [
    rewrite !endsWith_append_short by (simpl; lia); reflexivity |]).
  contradiction.
Qed.

Lemma isQuote_inv q : isQuote q = true -> q = "'"%char \/ q = dquote.
Proof.
  unfold isQuote. intros H. apply Bool.orb_true_iff in H.
  destruct H as [H|H]; apply Ascii.eqb_eq in H; auto.
Qed.

Lemma execAll_cons r idx c s :
  execAll r idx 0 (String c s) =
  match matchAt r (String c s) with
  | Some (len, caps) =>
      mkMatch idx (substring 0 len (String c s)) caps
        :: execAll r (S idx) (len - 1) s
  | None => execAll r (S idx) 0 s
  end.
Proof. reflexivity. Qed.

Lemma js_patterns_minQuotes :
  minQuotes Js.importRegex = 2 /\ minQuotes Js.dynamicImportRegex = 2
  /\ minQuotes Js.requireRegex = 2.
Proof. vm_compute. auto. Qed.

(** The three patterns find nothing in the keyword and the opening quote
    character; the search goes on behind them. *)
Lemma importRegex_skips_keyword q rest :
  isQuote q = true ->
  execAll Js.importRegex 0 0 ("import " ++ String q rest)
  = execAll Js.importRegex 8 0 rest.
Proof. intros H. destruct (isQuote_inv _ H) as [-> | ->]; reflexivity. Qed.

Lemma dynamicImportRegex_at_keyword q rest :
  isQuote q = true ->
  matchAt Js.dynamicImportRegex ("import " ++ String q rest) = None.
Proof.
  intros Q.
  destruct (matchAt _ _) as [[n c]|] eqn:E; [|reflexivity].
  exfalso. apply matchAt_sound in E. destruct E as (s' & M & _).
  cbv [Js.dynamicImportRegex seqs lit chr ws append] in M.
  destruct (isQuote_inv _ Q) as [-> | ->]; inv_head.
Qed.

Lemma dynamicImportRegex_skips_keyword q rest :
  isQuote q = true ->
  execAll Js.dynamicImportRegex 0 0 ("import " ++ String q rest)
  = execAll Js.dynamicImportRegex 8 0 rest.
Proof.
  intros H.
  change ("import " ++ String q rest)%string
    with (String "i" ("mport " ++ String q rest)).
  rewrite execAll_cons.
  change (String "i" ("mport " ++ String q rest))
    with ("import " ++ String q rest)%string.
  rewrite dynamicImportRegex_at_keyword by assumption.
  destruct (isQuote_inv _ H) as [-> | ->]; reflexivity.
Qed.

Lemma requireRegex_skips_keyword q rest :
  isQuote q = true ->
  execAll Js.requireRegex 0 0 ("import " ++ String q rest)
  = execAll Js.requireRegex 8 0 rest.
Proof. intros H. destruct (isQuote_inv _ H) as [-> | ->]; reflexivity. Qed.

Lemma scanLine_sideEffectImport q p tail lineIndex :
  isQuote q = true -> countQuotes p = 0 -> countQuotes tail = 0 ->
  Js.scanLine lineIndex (sideEffectImport q p tail) = [].
Proof.
  intros Q P T. unfold Js.scanLine, sideEffectImport.
  destruct js_patterns_minQuotes as (M1 & M2 & M3).
  assert (C : countQuotes (p ++ String q tail) = 1)
    by (rewrite countQuotes_append; simpl; rewrite Q; lia).
  rewrite importRegex_skips_keyword, dynamicImportRegex_skips_keyword,
    requireRegex_skips_keyword by assumption.
  rewrite !execAll_few_quotes by lia. reflexivity.
Qed.

Lemma hasChar_append c a b :
  hasChar c (a ++ b) = hasChar c a || hasChar c b.
Proof.
  induction a as [|x a IH]; simpl; [reflexivity|].
  now rewrite IH, Bool.orb_assoc.
Qed.

Lemma split_no_separator c s : hasChar c s = false -> split c s = [s].
Proof.
  induction s as [|a s IH]; simpl; [reflexivity|].
  intros H. apply Bool.orb_false_iff in H. destruct H as [H1 H2].
  rewrite H1, (IH H2). reflexivity.
Qed.

End ImportParserFacts.

(** ** Claims on the import extractor *)

Module ExtractorClaims.
Import JsString JsStringFacts Regex RegexSpec RegexFacts ImportParser ImportParserFacts.

(** C5: the locality filter takes ./x, ../x, /x and lodash/debounce for
    local and react, axios and https://cdn/x.js for not local;
    extractLocalImportPaths maps the paths that pass the filter through the
    extension stripping, which removes a final .js, .ts, .jsx, .tsx or .py
    and leaves a path ending in .css, .scss or .sass as it is. *)
Theorem C5_locality_filter_and_stripping :
  map isLocalImport ["./x"; "../x"; "/x"; "lodash/debounce"]
    = [true; true; true; true]
  /\ map isLocalImport ["react"; "axios"; "https://cdn/x.js"]
    = [false; false; false]
  /\ (forall content filePath,
        extractLocalImportPaths content filePath
        = map stripSourceExtension
            (filter isLocalImport
               (map path (parseFileImports content filePath))))
  /\ (forall p, stripSourceExtension (p ++ ".js") = p)
  /\ (forall p, stripSourceExtension (p ++ ".ts") = p)
  /\ (forall p, stripSourceExtension (p ++ ".jsx") = p)
  /\ (forall p, stripSourceExtension (p ++ ".tsx") = p)
  /\ (forall p, stripSourceExtension (p ++ ".py") = p)
  /\ (forall p, stripSourceExtension (p ++ ".css") = (p ++ ".css")%string)
  /\ (forall p, stripSourceExtension (p ++ ".scss") = (p ++ ".scss")%string)
  /\ (forall p, stripSourceExtension (p ++ ".sass") = (p ++ ".sass")%string).
Proof.
  repeat split; try reflexivity; intros p;
    first [ apply strip_py
          | apply strip_js; simpl; tauto
          | apply strip_css; simpl; tauto ].
Qed.

(** C6, as the source has it: for the two-line content of the test and
    every file path whose extension reads js, jsx, ts or tsx,
    extractLocalImportPaths returns the one path ./utils/helper. *)
Theorem C6_two_imports_in_script_file (filePath e : string) :
  extensionOf filePath = Some e -> isJsExtension e = true ->
  extractLocalImportPaths twoImports filePath = ["./utils/helper"].
Proof.
  intros E J. unfold extractLocalImportPaths, parseFileImports.
  rewrite E, J. reflexivity.
Qed.

Lemma C6_two_imports_in_script_file_witness :
  extractLocalImportPaths twoImports "C:/project/src/App.ts"
  = ["./utils/helper"].
Proof.
  apply (C6_two_imports_in_script_file "C:/project/src/App.ts" "ts");
    reflexivity.
Defined.

(** C6 as stated fails: with a file path that is not a script file the
    same content gives no path at all. *)
Lemma C6_counterexample_other_file_path :
  ~ (forall filePath,
       extractLocalImportPaths twoImports filePath = ["./utils/helper"]).
Proof.
  intros H. specialize (H "C:/project/README.md"). vm_compute in H.
  discriminate H.
Qed.

(** C10: a line made of the keyword import, one blank and a path between
    quote characters, followed by text without quote characters (the
    semicolon, say), gives no record in the scanner for script files; and a
    script file whose content is that line has no local import path. *)
Theorem C10_side_effect_import_not_scanned
    (q : ascii) (p tail : string) (lineIndex : nat) :
  isQuote q = true -> countQuotes p = 0 -> countQuotes tail = 0 ->
  Js.scanLine lineIndex (sideEffectImport q p tail) = []
  /\ (hasChar newline p = false -> hasChar newline tail = false ->
      forall filePath e,
        extensionOf filePath = Some e -> isJsExtension e = true ->
        extractLocalImportPaths (sideEffectImport q p tail) filePath = []).
Proof.
  intros Q P T. split; [now apply scanLine_sideEffectImport|].
  intros NP NT filePath e E J.
  unfold extractLocalImportPaths, parseFileImports. rewrite E, J.
  unfold parseJavaScriptImports. rewrite split_no_separator.
  - simpl. now rewrite scanLine_sideEffectImport.
  - unfold sideEffectImport. rewrite hasChar_append. simpl.
    rewrite hasChar_append. simpl. rewrite NP, NT.
    destruct (isQuote_inv _ Q) as [-> | ->]; reflexivity.
Qed.

Lemma C10_side_effect_import_not_scanned_witness :
  Js.scanLine 0 "import './App.css';" = []
  /\ extractLocalImportPaths "import './App.css';" "src/App.tsx" = [].
Proof.
  destruct (C10_side_effect_import_not_scanned "'" "./App.css" ";" 0
              eq_refl eq_refl eq_refl) as [H1 H2].
  split; [exact H1|].
  exact (H2 eq_refl eq_refl "src/App.tsx" "tsx" eq_refl eq_refl).
Defined.

End ExtractorClaims.

(** ** The extension of an import string *)

Module ExtensionFacts.
Import JsString JsStringFacts PathResolver.

Lemma lowerChar_dot (c : ascii) :
  Ascii.eqb (lowerChar c) "." = Ascii.eqb c ".".
Proof. destruct c as [[] [] [] [] [] [] [] []]; reflexivity. Qed.

Lemma split_cons_dot (c : ascii) (s : string) :
  Ascii.eqb c "." = true ->
  split "." (String c s) = EmptyString :: split "." s.
Proof. intros E. simpl. now rewrite E. Qed.

Lemma split_cons_other (c : ascii) (s : string) :
  Ascii.eqb c "." = false ->
  split "." (String c s)
  = match split "." s with
    | h :: t => String c h :: t
    | [] => [String c EmptyString]
    end.
Proof. intros E. simpl. now rewrite E. Qed.

Lemma split_toLowerCase (s : string) :
  split "." (toLowerCase s) = map toLowerCase (split "." s).
Proof.
  induction s as [|c s IH]; [reflexivity|].
  change (toLowerCase (String c s)) with (String (lowerChar c) (toLowerCase s)).
  destruct (Ascii.eqb c ".") eqn:E.
  - rewrite split_cons_dot by (now rewrite lowerChar_dot).
    rewrite (split_cons_dot c) by exact E. simpl. now rewrite IH.
  - rewrite split_cons_other by (now rewrite lowerChar_dot).
    rewrite (split_cons_other c) by exact E. rewrite IH.
    destruct (split "." s); reflexivity.
Qed.

Lemma pop_map (f : string -> string) (l : list string) :
  pop (map f l) = option_map f (pop l).
Proof.
  induction l as [|x [|y l] IH]; [reflexivity | reflexivity|].
  change (pop (map f (x :: y :: l))) with (pop (map f (y :: l))).
  exact IH.
Qed.

(** The extension is read off the lower-cased string as well. *)
Lemma extensionOf_toLowerCase (p : string) :
  extensionOf p = pop (split "." (toLowerCase p)).
Proof.
  unfold extensionOf. now rewrite split_toLowerCase, pop_map.
Qed.

(** The last segment of a string: the string itself when it is the only
    one, and else what follows the last dot. *)
Lemma split_last_segment (q : string) :
  match split "." q with
  | [] => False
  | [h] => q = h
  | _ :: t => exists e w, pop t = Some e /\ q = (w ++ "." ++ e)%string
  end.
Proof.
  induction q as [|a q IH]; [reflexivity|].
  destruct (Ascii.eqb a ".") eqn:E.
  - rewrite split_cons_dot by exact E. apply Ascii.eqb_eq in E. subst a.
    destruct (split "." q) as [|h [|h' t]]; [contradiction | |].
    + subst q. now exists h, EmptyString.
    + destruct IH as (e & w & P & ->). exists e, (String "." w).
      split; [exact P | reflexivity].
  - rewrite split_cons_other by exact E.
    destruct (split "." q) as [|h [|h' t]]; [contradiction | |].
    + now subst q.
    + destruct IH as (e & w & P & ->). exists e, (String a w).
      split; [exact P | reflexivity].
Qed.

Lemma pop_split_cases (q e : string) :
  pop (split "." q) = Some e ->
  q = e \/ exists w, q = (w ++ "." ++ e)%string.
Proof.
  pose proof (split_last_segment q) as H.
  destruct (split "." q) as [|h [|h' t]]; [contradiction | |].
  - intros P. inversion P; subst. now left.
  - destruct H as (e' & w & P' & ->). intros P.
    change (pop (h :: h' :: t)) with (pop (h' :: t)) in P.
    rewrite P' in P. inversion P; subst. right. now exists w.
Qed.

Lemma pop_split_after_dot (w e : string) :
  pop (split "." e) = Some e ->
  pop (split "." (w ++ "." ++ e)) = Some e.
Proof.
  intros He. induction w as [|a w IH].
  - change ("" ++ "." ++ e)%string with (String "." e).
    rewrite split_cons_dot by reflexivity.
    destruct (split "." e) as [|h t]; [discriminate | exact He].
  - change (String a w ++ "." ++ e)%string with (String a (w ++ "." ++ e)).
    pose proof (split_last_segment (w ++ "." ++ e)) as L.
    destruct (Ascii.eqb a ".") eqn:E.
    + rewrite split_cons_dot by exact E.
      destruct (split "." (w ++ "." ++ e)) as [|h t]; [contradiction | exact IH].
    + rewrite split_cons_other by exact E.
      destruct (split "." (w ++ "." ++ e)) as [|h [|h' t]];
        [contradiction | | exact IH].
      exfalso. assert (Eh : h = e) by (simpl in IH; congruence).
      rewrite Eh in L. apply (f_equal String.length) in L.
      rewrite !length_append in L. simpl in L. lia.
Qed.

Lemma hasKnownExtension_In (e : string) :
  hasKnownExtension e = true <-> In e recognizedExtensions.
Proof.
  unfold hasKnownExtension, recognizedExtensions. simpl.
  rewrite !Bool.orb_true_iff, !String.eqb_eq.
  intuition (subst; auto).
Qed.

(** The test of the switch in the words of the specification: an import
    string has a recognized extension exactly when it ends with a dot and
    one of the ten words, or is one of the ten words. *)
Lemma hasRecognizedExtension_spec (importPath : string) :
  hasRecognizedExtension importPath
  = endsWithRecognizedExtension importPath || isExtensionWord importPath.
Proof.
  apply Bool.eq_iff_eq_true.
  unfold hasRecognizedExtension, endsWithRecognizedExtension, isExtensionWord.
  rewrite extensionOf_toLowerCase, Bool.orb_true_iff, !existsb_exists.
  split.
  - destruct (pop (split "." (toLowerCase importPath))) as [e|] eqn:P;
      [|discriminate].
    intros K. apply hasKnownExtension_In in K.
    destruct (pop_split_cases _ _ P) as [Q|[w Q]].
    + right. exists e. split; [exact K|]. rewrite Q. apply String.eqb_refl.
    + left. exists e. split; [exact K|]. rewrite Q.
      apply (endsWith_append w ("." ++ e)).
  - assert (Own : forall e, In e recognizedExtensions ->
                            pop (split "." e) = Some e).
    { intros e I. simpl in I.
      repeat (destruct I as [<-|I]; [reflexivity|]). contradiction. }
    intros [(e & I & E)|(e & I & E)].
    + apply ImportParserFacts.endsWith_spec in E. destruct E as [w E].
      rewrite E, (pop_split_after_dot w e (Own e I)).
      now apply hasKnownExtension_In.
    + apply String.eqb_eq in E. rewrite E, (Own e I).
      now apply hasKnownExtension_In.
Qed.

End ExtensionFacts.

(** ** Claims on the path resolver *)

Module ResolverClaims.
Import JsString JsStringFacts PathResolver ExtensionFacts.

Section AnyPathUtils.
Context {PU : PathUtils}.

Lemma arePathsEquivalent_refl (p : string) : arePathsEquivalent p p = true.
Proof. unfold arePathsEquivalent. apply String.eqb_refl. Qed.

Lemma arePathsEquivalent_sym (p q : string) :
  arePathsEquivalent p q = arePathsEquivalent q p.
Proof. unfold arePathsEquivalent. apply String.eqb_sym. Qed.

Lemma arePathsEquivalent_trans (p q r : string) :
  arePathsEquivalent p q = true -> arePathsEquivalent q r = true ->
  arePathsEquivalent p r = true.
Proof.
  unfold arePathsEquivalent. rewrite !String.eqb_eq. congruence.
Qed.

Lemma findMatchingFiles_exact (file : FileData) (allFiles : list FileData) :
  In file allFiles -> In (path file) (findMatchingFiles (path file) allFiles).
Proof.
  intros H. unfold findMatchingFiles. apply in_map, filter_In.
  split; [assumption|]. unfold fileMatches.
  now rewrite arePathsEquivalent_refl.
Qed.

(** Every path that findMatchingFiles returns is the path of a candidate
    file. *)
Lemma findMatchingFiles_paths target allFiles p :
  In p (findMatchingFiles target allFiles) ->
  exists file, In file allFiles /\ path file = p.
Proof.
  unfold findMatchingFiles. rewrite in_map_iff.
  intros (file & E & H). apply filter_In in H. now exists file.
Qed.

(** The loop over the extensions keeps what every extension finds. *)
Lemma probe_keeps_every_extension base extensions allFiles ext found :
  In ext extensions ->
  In found (findMatchingFiles (base ++ ext) allFiles) ->
  In found (probe base extensions allFiles).
Proof.
  intros HE HF. unfold probe.
  assert (I : In found
                (flat_map (fun ext => findMatchingFiles (base ++ ext) allFiles)
                   extensions))
    by (apply in_flat_map; now exists ext).
  destruct (Nat.eqb _ 0); [apply in_or_app; now left | assumption].
Qed.

Lemma probe_paths base extensions allFiles p :
  In p (probe base extensions allFiles) ->
  exists file, In file allFiles /\ path file = p.
Proof.
  unfold probe. intros H.
  assert (I : In p (flat_map (fun ext => findMatchingFiles (base ++ ext) allFiles)
                      extensions)
              \/ In p (findMatchingFiles base allFiles)).
  { destruct (Nat.eqb _ 0); [apply in_app_or in H; tauto | tauto]. }
  destruct I as [I|I].
  - apply in_flat_map in I. destruct I as (ext & _ & I).
    eapply findMatchingFiles_paths; eassumption.
  - eapply findMatchingFiles_paths; eassumption.
Qed.

Lemma resolveImportPath_paths importPath currentFilePath allFiles projectRoot p :
  In p (resolveImportPath importPath currentFilePath allFiles projectRoot) ->
  exists file, In file allFiles /\ path file = p.
Proof.
  unfold resolveImportPath.
  destruct (startsWith importPath "/");
    [apply findMatchingFiles_paths|].
  destruct (startsWith importPath "./" || startsWith importPath "../");
    apply probe_paths.
Qed.

Lemma getFileExtensions_default (importPath : string) :
  hasRecognizedExtension importPath = false ->
  getFileExtensions importPath
  = [".js"; ".ts"; ".jsx"; ".tsx"; ".py"; ".css"; ".scss"; ".sass"].
Proof.
  unfold getFileExtensions, hasRecognizedExtension. intros R.
  destruct (extensionOf importPath) as [e|]; [now rewrite R | reflexivity].
Qed.

Lemma resolveImportPath_relative_keeps
    importPath currentFilePath allFiles projectRoot ext found :
  startsWith importPath "/" = false ->
  startsWith importPath "./" || startsWith importPath "../" = true ->
  In ext (getFileExtensions importPath) ->
  In found (findMatchingFiles
              (resolvePath (dirname currentFilePath) importPath ++ ext)
              allFiles) ->
  In found (resolveImportPath importPath currentFilePath allFiles projectRoot).
Proof.
  intros A Rel HE HF. unfold resolveImportPath. rewrite A, Rel.
  eapply probe_keeps_every_extension; eassumption.
Qed.

Lemma resolveImportPath_module_keeps
    importPath currentFilePath allFiles projectRoot ext found :
  startsWith importPath "/" = false ->
  startsWith importPath "./" || startsWith importPath "../" = false ->
  In ext (getFileExtensions importPath) ->
  In found (findMatchingFiles (importPath ++ ext) allFiles) ->
  In found (resolveImportPath importPath currentFilePath allFiles projectRoot).
Proof.
  intros A Rel HE HF. unfold resolveImportPath. rewrite A, Rel.
  eapply probe_keeps_every_extension; eassumption.
Qed.

(** C1, as the source has it. An import string that neither ends with a
    dot and one of the ten recognized words nor is one of these words gets
    the eight default extensions, in this order, and for a relative import
    and for a module-style import the matches of every one of them are in
    the result of resolveImportPath. For an import that starts with the
    separator no extension is tried: the result is what findMatchingFiles
    gives for the import joined to the project root. An import string that
    is itself one of the ten words gets the empty extension only. *)
Theorem C1_default_extensions_all_probed (importPath : string) :
  (endsWithRecognizedExtension importPath = false ->
   isExtensionWord importPath = false ->
   getFileExtensions importPath
     = [".js"; ".ts"; ".jsx"; ".tsx"; ".py"; ".css"; ".scss"; ".sass"]
   /\ forall currentFilePath allFiles projectRoot ext found,
        startsWith importPath "/" = false ->
        In ext [".js"; ".ts"; ".jsx"; ".tsx"; ".py"; ".css"; ".scss"; ".sass"] ->
        (startsWith importPath "./" || startsWith importPath "../" = true ->
         In found (findMatchingFiles
                     (resolvePath (dirname currentFilePath) importPath ++ ext)
                     allFiles) ->
         In found (resolveImportPath importPath currentFilePath allFiles
                     projectRoot))
        /\ (startsWith importPath "./" || startsWith importPath "../" = false ->
            In found (findMatchingFiles (importPath ++ ext) allFiles) ->
            In found (resolveImportPath importPath currentFilePath allFiles
                        projectRoot)))
  /\ (startsWith importPath "/" = true ->
      forall currentFilePath allFiles projectRoot,
        resolveImportPath importPath currentFilePath allFiles projectRoot
        = findMatchingFiles (join projectRoot importPath) allFiles)
  /\ (isExtensionWord importPath = true ->
      getFileExtensions importPath = [EmptyString]).
Proof.
  split; [|split].
  - intros E W.
    assert (R : hasRecognizedExtension importPath = false)
      by (now rewrite hasRecognizedExtension_spec, E, W).
    pose proof (getFileExtensions_default importPath R) as G.
    split; [exact G|].
    intros currentFilePath allFiles projectRoot ext found A HE.
    rewrite <- G in HE. split; intros Rel HF.
    + now apply resolveImportPath_relative_keeps with (ext := ext).
    + now apply resolveImportPath_module_keeps with (ext := ext).
  - intros A currentFilePath allFiles projectRoot.
    unfold resolveImportPath. now rewrite A.
  - intros W.
    assert (R : hasRecognizedExtension importPath = true)
      by (rewrite hasRecognizedExtension_spec, W; apply Bool.orb_true_r).
    unfold getFileExtensions, hasRecognizedExtension in *.
    destruct (extensionOf importPath) as [e|]; [now rewrite R | discriminate].
Qed.

(** C7: when the candidate files hold both the .ts and the .js file that
    the import ./utils/helper names from the current file, the result of
    resolveImportPath has the paths of both. *)
Theorem C7_both_extensions_returned
    (currentFilePath projectRoot : string) (allFiles : list FileData)
    (ts js : FileData) :
  In ts allFiles -> In js allFiles ->
  path ts = (resolvePath (dirname currentFilePath) "./utils/helper" ++ ".ts")%string ->
  path js = (resolvePath (dirname currentFilePath) "./utils/helper" ++ ".js")%string ->
  In (path ts)
     (resolveImportPath "./utils/helper" currentFilePath allFiles projectRoot)
  /\ In (path js)
       (resolveImportPath "./utils/helper" currentFilePath allFiles projectRoot).
Proof.
  intros Its Ijs Ets Ejs. split.
  - apply resolveImportPath_relative_keeps with (ext := ".ts");
      [reflexivity | reflexivity | simpl; tauto |].
    rewrite <- Ets. now apply findMatchingFiles_exact.
  - apply resolveImportPath_relative_keeps with (ext := ".js");
      [reflexivity | reflexivity | simpl; tauto |].
    rewrite <- Ejs. now apply findMatchingFiles_exact.
Qed.

End AnyPathUtils.

Import SpecPathUtils Fixtures.

Lemma C1_default_extensions_all_probed_witness :
  (getFileExtensions "./utils/helper"
     = [".js"; ".ts"; ".jsx"; ".tsx"; ".py"; ".css"; ".scss"; ".sass"]
   /\ In "/project/src/utils/helper.ts"
        (resolveImportPath "./utils/helper" "/project/src/App.ts"
           [helperJs; helperTs] "/project"))
  /\ resolveImportPath "/src/utils/helper" "/project/src/App.ts" [helperTs]
       "/project"
     = findMatchingFiles (join "/project" "/src/utils/helper") [helperTs]
  /\ getFileExtensions "sass" = [EmptyString].
Proof.
  split; [|split].
  - destruct (proj1 (C1_default_extensions_all_probed "./utils/helper")
                eq_refl eq_refl) as [G H].
    split; [exact G|].
    refine (proj1 (H "/project/src/App.ts" [helperJs; helperTs] "/project"
                     ".ts" "/project/src/utils/helper.ts" eq_refl _) eq_refl _).
    + simpl. tauto.
    + vm_compute. tauto.
  - exact (proj1 (proj2 (C1_default_extensions_all_probed "/src/utils/helper"))
             eq_refl "/project/src/App.ts" [helperTs] "/project").
  - exact (proj2 (proj2 (C1_default_extensions_all_probed "sass")) eq_refl).
Defined.

(** C1 as stated fails: .mjs and .cjs are not among the default
    extensions, so that a .mjs file is not found for an import without
    extension; for an import that starts at the root no extension is
    tried at all; and the import string ts, which has no extension, does
    not get the default list. *)
Lemma C1_counterexample_no_mjs_cjs :
  hasRecognizedExtension "./utils/helper" = false
  /\ getFileExtensions "./utils/helper"
     <> [".js"; ".ts"; ".jsx"; ".tsx"; ".mjs"; ".cjs"; ".py"; ".css"; ".scss";
         ".sass"]
  /\ resolveImportPath "./utils/helper" "/project/src/App.ts" [helperMjs]
       "/project" = []
  /\ resolveImportPath "/src/utils/helper" "/project/src/App.ts" [helperTs]
       "/project" = []
  /\ endsWithRecognizedExtension "ts" = false
  /\ getFileExtensions "ts" = [EmptyString].
Proof. repeat split; vm_compute; discriminate. Qed.

Lemma C7_both_extensions_returned_witness :
  In "/project/src/utils/helper.ts"
     (resolveImportPath "./utils/helper" "/project/src/App.ts"
        [helperTs; helperJs] "/project")
  /\ In "/project/src/utils/helper.js"
       (resolveImportPath "./utils/helper" "/project/src/App.ts"
          [helperTs; helperJs] "/project").
Proof.
  apply (C7_both_extensions_returned "/project/src/App.ts" "/project"
           [helperTs; helperJs] helperTs helperJs).
  - simpl. tauto.
  - simpl. tauto.
  - reflexivity.
  - reflexivity.
Defined.

(** C2 on the source: with the one candidate file
    /project/src/components/index.ts, the relative import ./components
    written in /project/src/App.ts resolves to nothing, while the
    module-style import components resolves to the index file. The index
    rule asks the file path to end with a separator followed by the whole
    resolved path, which a file placed at that very path cannot do. *)
Theorem C2_relative_index_fallback_misses :
  resolveImportPath "./components" "/project/src/App.ts" [componentsIndex]
    "/project" = []
  /\ resolveImportPath "components" "/project/src/App.ts" [componentsIndex]
       "/project" = ["/project/src/components/index.ts"]
  /\ forall target index : string,
       endsWith (target ++ index) ("/" ++ target ++ index) = false.
Proof.
  repeat split; try reflexivity.
  intros target index.
  destruct (endsWith _ _) eqn:E; [|reflexivity].
  apply endsWith_length in E. simpl in E. lia.
Qed.

End ResolverClaims.

(** ** The dependency walker *)

Module WalkerFacts.
Import JsString PathResolver ResolverClaims.

Lemma setHas_In (k : string) (s : list string) :
  setHas k s = true <-> In k s.
Proof.
  unfold setHas. rewrite existsb_exists. split.
  - intros (x & I & E). apply String.eqb_eq in E. now subst.
  - intros I. exists k. split; [assumption | apply String.eqb_refl].
Qed.

Lemma setHas_not_In (k : string) (s : list string) :
  setHas k s = false -> ~ In k s.
Proof. intros H I. apply setHas_In in I. congruence. Qed.

Lemma setAdd_incl (k : string) (s : list string) : incl s (setAdd k s).
Proof.
  unfold setAdd. destruct (setHas k s); [apply incl_refl|].
  now apply incl_appl, incl_refl.
Qed.

Lemma setAdd_In (k : string) (s : list string) : In k (setAdd k s).
Proof.
  unfold setAdd. destruct (setHas k s) eqn:E; [now apply setHas_In|].
  apply in_or_app. right. now left.
Qed.

Lemma mapSet_In k v m k' v' :
  In (k', v') (mapSet k v m) -> (k', v') = (k, v) \/ In (k', v') m.
Proof.
  induction m as [|[k0 v0] m IH]; simpl.
  - intros [E|[]]. now left.
  - destruct (String.eqb k0 k).
    + intros [E|I]; [now left | right; now right].
    + intros [E|I]; [right; now left|].
      destruct (IH I); [now left | right; now right].
Qed.

Lemma mapSet_has k v m : In k (map fst (mapSet k v m)).
Proof.
  induction m as [|[k0 v0] m IH]; simpl; [now left|].
  destruct (String.eqb k0 k); simpl; [now left | now right].
Qed.

Lemma mapSet_keeps k v m k' :
  In k' (map fst m) -> In k' (map fst (mapSet k v m)).
Proof.
  induction m as [|[k0 v0] m IH]; simpl; [tauto|].
  destruct (String.eqb k0 k) eqn:E; simpl.
  - apply String.eqb_eq in E. subst. tauto.
  - intros [H|H]; [now left | right; now apply IH].
Qed.

Lemma filter_length_mono {A} (f g : A -> bool) (l : list A) :
  (forall x, In x l -> g x = true -> f x = true) ->
  List.length (filter g l) <= List.length (filter f l).
Proof.
  induction l as [|a l IH]; intros H; simpl; [lia|].
  assert (IH' : List.length (filter g l) <= List.length (filter f l))
    by (apply IH; intros x I; apply H; now right).
  destruct (g a) eqn:G.
  - rewrite (H a (or_introl eq_refl) G). simpl. lia.
  - destruct (f a); simpl; lia.
Qed.

Lemma filter_length_strict {A} (f g : A -> bool) (l : list A) (a : A) :
  (forall x, In x l -> g x = true -> f x = true) ->
  In a l -> f a = true -> g a = false ->
  List.length (filter g l) < List.length (filter f l).
Proof.
  induction l as [|b l IH]; intros H I F G; simpl; [contradiction|].
  assert (LE : List.length (filter g l) <= List.length (filter f l))
    by (apply filter_length_mono; intros x Ix; apply H; now right).
  destruct I as [->|I].
  - rewrite F, G. simpl. lia.
  - assert (LT : List.length (filter g l) < List.length (filter f l))
      by (apply IH; auto; intros x Ix; apply H; now right).
    destruct (g b) eqn:Gb.
    + rewrite (H b (or_introl eq_refl) Gb). simpl. lia.
    + destruct (f b); simpl; lia.
Qed.

Section Walk.
Context {PU : PathUtils}.

Variable extract : string -> string -> completion (list string).
Variable resolve :
  string -> string -> list FileData -> string -> completion (list string).

Variables (selectedFiles allFiles : list FileData) (projectRoot : string).

Local Abbreviation visit' := (visit selectedFiles allFiles).
Local Abbreviation forResolved' := (forResolved selectedFiles allFiles).
Local Abbreviation forImports' :=
  (forImports resolve selectedFiles allFiles projectRoot).
Local Abbreviation processBody' :=
  (processBody extract resolve selectedFiles allFiles projectRoot).
Local Abbreviation processFile' :=
  (processFile extract resolve selectedFiles allFiles projectRoot).
Local Abbreviation forEach' :=
  (forEach extract resolve selectedFiles allFiles projectRoot).
Local Abbreviation walk' := (walk extract resolve selectedFiles allFiles projectRoot).
Local Abbreviation finalState' :=
  (finalState extract resolve selectedFiles allFiles projectRoot).
Local Abbreviation unprocessed' := (unprocessed selectedFiles allFiles).
Local Abbreviation knownPaths' := (knownPaths selectedFiles allFiles).

(** *** A property kept by every step is kept by the walk *)

Section Invariant.
Variable P : walkState -> Prop.

Hypothesis P_scan :
  forall file st,
    setHas (path file) (processedFiles st) = false ->
    P st -> P (logScan file (markProcessed file st)).
Hypothesis P_warn : forall file st, P st -> P (warn file st).
Hypothesis P_dependency :
  forall dep st,
    In dep allFiles -> isSelected selectedFiles dep = false ->
    P st -> P (setDependency dep st).

Section Body.
Variable rec : FileData -> walkState -> option walkState.
Hypothesis rec_keeps : forall f st st', P st -> rec f st = Some st' -> P st'.

Lemma visit_invariant p st st' :
  P st -> visit' rec p st = Some st' -> P st'.
Proof.
  unfold visit. intros HP H.
  destruct (find _ allFiles) as [dep|] eqn:F.
  - apply find_some in F. destruct F as [I _].
    destruct (isSelected selectedFiles dep) eqn:S; simpl in H.
    + now inversion H; subst.
    + eapply rec_keeps; [|exact H]. now apply P_dependency.
  - now inversion H; subst.
Qed.

Lemma forResolved_invariant l : forall st st',
  P st -> forResolved' rec l st = Some st' -> P st'.
Proof.
  induction l as [|p l IH]; intros st st' HP H; simpl in H.
  - now inversion H; subst.
  - destruct (visit' rec p st) as [st1|] eqn:V; [|discriminate].
    eapply IH; [|exact H]. eapply visit_invariant; eassumption.
Qed.

Lemma forImports_invariant file l : forall st st',
  P st -> forImports' rec file l st = Some st' -> P st'.
Proof.
  induction l as [|i l IH]; intros st st' HP H; simpl in H.
  - now inversion H; subst.
  - destruct (resolve i (path file) allFiles projectRoot) as [r|].
    + destruct (forResolved' rec r st) as [st1|] eqn:R; [|discriminate].
      eapply IH; [|exact H]. eapply forResolved_invariant; eassumption.
    + inversion H; subst. now apply P_warn.
Qed.

Lemma processBody_invariant file st st' :
  P st -> processBody' rec file st = Some st' -> P st'.
Proof.
  unfold processBody. intros HP H.
  destruct (setHas (path file) (processedFiles st)) eqn:E.
  - now inversion H; subst.
  - pose proof (P_scan file st E HP) as HP1.
    destruct (extract (content file) (path file)) as [l|].
    + eapply forImports_invariant; eassumption.
    + inversion H; subst. now apply P_warn.
Qed.

End Body.

Lemma processFile_invariant depth : forall file st st',
  P st -> processFile' depth file st = Some st' -> P st'.
Proof.
  induction depth as [|depth IH]; intros file st st' HP H; simpl in H.
  - discriminate.
  - eapply processBody_invariant; [exact IH | exact HP | exact H].
Qed.

Lemma forEach_invariant depth files : forall st st',
  P st -> forEach' depth files st = Some st' -> P st'.
Proof.
  induction files as [|f files IH]; intros st st' HP H; simpl in H.
  - now inversion H; subst.
  - destruct (processFile' depth f st) as [st1|] eqn:E; [|discriminate].
    eapply IH; [|exact H]. eapply processFile_invariant; eassumption.
Qed.

Lemma finalState_invariant : P emptyState -> P finalState'.
Proof.
  intros H0. unfold finalState, walk.
  destruct (forEach' _ selectedFiles emptyState) as [st|] eqn:E;
    [|assumption].
  eapply forEach_invariant; eassumption.
Qed.

End Invariant.

Lemma processFile_unprocessed depth file st l :
  setHas (path file) (processedFiles st) = false ->
  extract (content file) (path file) = Returned l ->
  processFile' (S depth) file st
  = forImports' (processFile' depth) file l
      (logScan file (markProcessed file st)).
Proof.
  intros H E. simpl. unfold processBody. now rewrite H, E.
Qed.

(** *** Termination *)

Lemma unprocessed_incl st st' :
  incl (processedFiles st) (processedFiles st') ->
  unprocessed' st' <= unprocessed' st.
Proof.
  intros I. unfold unprocessed. apply filter_length_mono.
  intros p _ H. apply Bool.negb_true_iff in H. apply Bool.negb_true_iff.
  destruct (setHas p (processedFiles st)) eqn:E; [|reflexivity].
  apply setHas_In in E. apply I in E. apply setHas_In in E. congruence.
Qed.

Lemma unprocessed_scan file st :
  In (path file) knownPaths' ->
  setHas (path file) (processedFiles st) = false ->
  unprocessed' (logScan file (markProcessed file st)) < unprocessed' st.
Proof.
  intros K E. unfold unprocessed. simpl.
  apply filter_length_strict with (a := path file).
  - intros p _ H. apply Bool.negb_true_iff in H. apply Bool.negb_true_iff.
    destruct (setHas p (processedFiles st)) eqn:E'; [|reflexivity].
    apply setHas_In in E'. apply (setAdd_incl (path file)) in E'.
    apply setHas_In in E'. congruence.
  - exact K.
  - now rewrite E.
  - apply Bool.negb_false_iff, setHas_In, setAdd_In.
Qed.

Lemma unprocessed_bound st :
  unprocessed' st <= List.length selectedFiles + List.length allFiles.
Proof.
  unfold unprocessed, knownPaths.
  etransitivity; [apply List.filter_length_le|].
  rewrite length_app, !length_map. lia.
Qed.

Section Totality.
Variable d : nat.
Variable rec : FileData -> walkState -> option walkState.
Hypothesis rec_total :
  forall file st,
    In (path file) knownPaths' -> unprocessed' st < d ->
    exists st', rec file st = Some st'
                /\ incl (processedFiles st) (processedFiles st').

Lemma visit_total p st :
  unprocessed' st < d ->
  exists st', visit' rec p st = Some st'
              /\ incl (processedFiles st) (processedFiles st').
Proof.
  intros U. unfold visit.
  destruct (find _ allFiles) as [dep|] eqn:F.
  - apply find_some in F. destruct F as [I _].
    destruct (isSelected selectedFiles dep); simpl.
    + exists st. split; [reflexivity | apply incl_refl].
    + apply (rec_total dep (setDependency dep st)); [|exact U].
      unfold knownPaths. apply in_or_app. right. now apply in_map.
  - exists st. split; [reflexivity | apply incl_refl].
Qed.

Lemma forResolved_total l : forall st,
  unprocessed' st < d ->
  exists st', forResolved' rec l st = Some st'
              /\ incl (processedFiles st) (processedFiles st').
Proof.
  induction l as [|p l IH]; intros st U; simpl.
  - exists st. split; [reflexivity | apply incl_refl].
  - destruct (visit_total p st U) as (st1 & -> & I1).
    destruct (IH st1) as (st2 & E2 & I2).
    + pose proof (unprocessed_incl _ _ I1). lia.
    + exists st2. split; [exact E2 | eapply incl_tran; eassumption].
Qed.

Lemma forImports_total file l : forall st,
  unprocessed' st < d ->
  exists st', forImports' rec file l st = Some st'
              /\ incl (processedFiles st) (processedFiles st').
Proof.
  induction l as [|i l IH]; intros st U; simpl.
  - exists st. split; [reflexivity | apply incl_refl].
  - destruct (resolve i (path file) allFiles projectRoot) as [r|].
    + destruct (forResolved_total r st U) as (st1 & -> & I1).
      destruct (IH st1) as (st2 & E2 & I2).
      * pose proof (unprocessed_incl _ _ I1). lia.
      * exists st2. split; [exact E2 | eapply incl_tran; eassumption].
    + exists (warn file st). split; [reflexivity | apply incl_refl].
Qed.

Lemma processBody_total file st :
  In (path file) knownPaths' -> unprocessed' st < S d ->
  exists st', processBody' rec file st = Some st'
              /\ incl (processedFiles st) (processedFiles st').
Proof.
  intros K U. unfold processBody.
  destruct (setHas (path file) (processedFiles st)) eqn:E.
  - exists st. split; [reflexivity | apply incl_refl].
  - pose proof (unprocessed_scan file st K E) as L.
    assert (I : incl (processedFiles st)
                  (processedFiles (logScan file (markProcessed file st))))
      by apply setAdd_incl.
    destruct (extract (content file) (path file)) as [l|].
    + destruct (forImports_total file l (logScan file (markProcessed file st)))
        as (st' & E' & I'); [lia|].
      exists st'. split; [exact E' | eapply incl_tran; eassumption].
    + eexists. split; [reflexivity | exact I].
Qed.

End Totality.

Lemma processFile_total depth : forall file st,
  In (path file) knownPaths' -> unprocessed' st < depth ->
  exists st', processFile' depth file st = Some st'
              /\ incl (processedFiles st) (processedFiles st').
Proof.
  induction depth as [|depth IH]; intros file st K U; [lia|].
  simpl. now apply processBody_total with (d := depth).
Qed.

Lemma forEach_total depth files : forall st,
  incl (map path files) knownPaths' -> unprocessed' st < depth ->
  exists st', forEach' depth files st = Some st'.
Proof.
  induction files as [|f files IH]; intros st K U; simpl.
  - now exists st.
  - destruct (processFile_total depth f st) as (st1 & -> & I1);
      [apply K; now left | exact U |].
    apply IH.
    + intros p Hp. apply K. now right.
    + pose proof (unprocessed_incl _ _ I1). lia.
Qed.

(** The bound on the depth is never reached. *)
Lemma walk_terminates :
  exists st, walk' (depthBound selectedFiles allFiles) = Some st.
Proof.
  unfold walk. apply forEach_total.
  - unfold knownPaths. apply incl_appl, incl_refl.
  - pose proof (unprocessed_bound emptyState). unfold depthBound. lia.
Qed.

Lemma finalState_walk :
  walk' (depthBound selectedFiles allFiles) = Some finalState'.
Proof.
  unfold finalState. destruct walk_terminates as [st ->]. reflexivity.
Qed.

(** *** A deeper bound changes nothing *)

Section Refinement.
Variables rec rec' : FileData -> walkState -> option walkState.
Hypothesis rec_refines :
  forall f st st', rec f st = Some st' -> rec' f st = Some st'.

Lemma visit_deeper p st st' :
  visit' rec p st = Some st' -> visit' rec' p st = Some st'.
Proof.
  unfold visit. destruct (find _ allFiles) as [dep|]; [|auto].
  destruct (negb (isSelected selectedFiles dep)); auto.
Qed.

Lemma forResolved_deeper l : forall st st',
  forResolved' rec l st = Some st' -> forResolved' rec' l st = Some st'.
Proof.
  induction l as [|p l IH]; intros st st' H; simpl in *; [assumption|].
  destruct (visit' rec p st) as [st1|] eqn:V; [|discriminate].
  rewrite (visit_deeper _ _ _ V). now apply IH.
Qed.

Lemma forImports_deeper file l : forall st st',
  forImports' rec file l st = Some st' ->
  forImports' rec' file l st = Some st'.
Proof.
  induction l as [|i l IH]; intros st st' H; simpl in *; [assumption|].
  destruct (resolve i (path file) allFiles projectRoot) as [r|]; [|assumption].
  destruct (forResolved' rec r st) as [st1|] eqn:R; [|discriminate].
  rewrite (forResolved_deeper _ _ _ R). now apply IH.
Qed.

Lemma processBody_deeper file st st' :
  processBody' rec file st = Some st' ->
  processBody' rec' file st = Some st'.
Proof.
  unfold processBody.
  destruct (setHas (path file) (processedFiles st)); [auto|].
  destruct (extract (content file) (path file)); [|auto].
  apply forImports_deeper.
Qed.

End Refinement.

Lemma processFile_deeper depth : forall depth' file st st',
  depth <= depth' ->
  processFile' depth file st = Some st' ->
  processFile' depth' file st = Some st'.
Proof.
  induction depth as [|depth IH]; intros depth' file st st' L H;
    [discriminate|].
  destruct depth' as [|depth']; [lia|]. simpl in *.
  eapply processBody_deeper; [|exact H].
  intros f s1 s2. apply IH. lia.
Qed.

Lemma forEach_deeper depth depth' files : forall st st',
  depth <= depth' ->
  forEach' depth files st = Some st' -> forEach' depth' files st = Some st'.
Proof.
  induction files as [|f files IH]; intros st st' L H; simpl in *;
    [assumption|].
  destruct (processFile' depth f st) as [st1|] eqn:E; [|discriminate].
  rewrite (processFile_deeper _ _ _ _ _ L E). now apply IH.
Qed.

Lemma walk_deeper depth :
  depthBound selectedFiles allFiles <= depth ->
  walk' depth = walk' (depthBound selectedFiles allFiles).
Proof.
  intros L. rewrite finalState_walk.
  eapply forEach_deeper; [exact L | apply finalState_walk].
Qed.

(** *** What the containers hold *)

Lemma dependencies_not_selected :
  forall k f, In (k, f) (dependencyFiles finalState') ->
              In f allFiles /\ isSelected selectedFiles f = false
              /\ k = path f.
Proof.
  apply (finalState_invariant
           (fun st => forall k f, In (k, f) (dependencyFiles st) ->
                                  In f allFiles
                                  /\ isSelected selectedFiles f = false
                                  /\ k = path f)).
  - intros file st _ H. exact H.
  - intros file st H. exact H.
  - intros dep st I S H k f HI. simpl in HI.
    apply mapSet_In in HI. destruct HI as [E|HI]; [|now apply H].
    inversion E; subst. auto.
  - intros k f [].
Qed.

Lemma scanned_once : NoDup (scanned finalState').
Proof.
  cut (scanned finalState' = processedFiles finalState'
       /\ NoDup (processedFiles finalState')); [now intros [-> ?]|].
  apply (finalState_invariant
           (fun st => scanned st = processedFiles st
                      /\ NoDup (processedFiles st))).
  - intros file st E [S N]. simpl. unfold setAdd. rewrite E, S.
    split; [reflexivity|].
    apply NoDup_app; [exact N | repeat constructor; intros [] |].
    intros x Ix [<-|[]]. now apply setHas_not_In in E.
  - intros file st H. exact H.
  - intros dep st _ _ H. exact H.
  - split; [reflexivity | constructor].
Qed.

Lemma mapSet_NoDup k v m :
  NoDup (map fst m) -> NoDup (map fst (mapSet k v m)).
Proof.
  induction m as [|[k0 v0] m IH]; simpl; intros N.
  - repeat constructor. intros [].
  - inversion N as [|? ? NI N']; subst.
    destruct (String.eqb k0 k) eqn:E; simpl.
    + apply String.eqb_eq in E. subst. now constructor.
    + constructor; [|now apply IH].
      intros I. apply NI. clear -I E.
      induction m as [|[k1 v1] m IHm]; simpl in *.
      * destruct I as [I|[]]. subst. now rewrite String.eqb_refl in E.
      * destruct (String.eqb k1 k) eqn:E1; simpl in I.
        -- apply String.eqb_eq in E1. subst. destruct I as [I|I]; [|tauto].
           subst. now rewrite String.eqb_refl in E.
        -- destruct I as [I|I]; [now left | right; now apply IHm].
Qed.

Lemma dependency_keys_once : NoDup (map fst (dependencyFiles finalState')).
Proof.
  apply (finalState_invariant
           (fun st => NoDup (map fst (dependencyFiles st)))).
  - intros file st _ H. exact H.
  - intros file st H. exact H.
  - intros dep st _ _ H. simpl. now apply mapSet_NoDup.
  - constructor.
Qed.

(** *** A dependency that is met is kept *)

Section Kept.
Variable k : string.

Local Abbreviation hasKey := (fun st => In k (map fst (dependencyFiles st))).

Lemma processFile_keeps_key depth file st st' :
  hasKey st -> processFile' depth file st = Some st' -> hasKey st'.
Proof.
  apply (processFile_invariant hasKey); auto.
  intros dep s _ _ H. simpl. now apply mapSet_keeps.
Qed.

Lemma forResolved_keeps_key depth l st st' :
  hasKey st -> forResolved' (processFile' depth) l st = Some st' -> hasKey st'.
Proof.
  apply (forResolved_invariant hasKey).
  - intros dep s _ _ H. simpl. now apply mapSet_keeps.
  - intros f s s'. apply processFile_keeps_key.
Qed.

Lemma forImports_keeps_key depth file l st st' :
  hasKey st ->
  forImports' (processFile' depth) file l st = Some st' -> hasKey st'.
Proof.
  apply (forImports_invariant hasKey); auto.
  - intros dep s _ _ H. simpl. now apply mapSet_keeps.
  - intros f s s'. apply processFile_keeps_key.
Qed.

Lemma forEach_keeps_key depth files st st' :
  hasKey st -> forEach' depth files st = Some st' -> hasKey st'.
Proof.
  apply (forEach_invariant hasKey); auto.
  intros dep s _ _ H. simpl. now apply mapSet_keeps.
Qed.

End Kept.

Lemma forResolved_adds depth dep p l : forall st st',
  In p l ->
  find (fun f => arePathsEquivalent (path f) p) allFiles = Some dep ->
  isSelected selectedFiles dep = false ->
  forResolved' (processFile' depth) l st = Some st' ->
  In (path dep) (map fst (dependencyFiles st')).
Proof.
  induction l as [|q l IH]; intros st st' I F S H; [contradiction|].
  simpl in H.
  destruct (visit' (processFile' depth) q st) as [st1|] eqn:V; [|discriminate].
  destruct I as [->|I]; [|eapply IH; eassumption].
  eapply forResolved_keeps_key; [|exact H].
  unfold visit in V. rewrite F, S in V. simpl in V.
  eapply processFile_keeps_key; [|exact V].
  simpl. apply mapSet_has.
Qed.

Lemma forImports_adds depth file dep i r p l : forall st st',
  (forall j, In j l ->
             resolve j (path file) allFiles projectRoot <> Thrown) ->
  In i l -> resolve i (path file) allFiles projectRoot = Returned r ->
  In p r ->
  find (fun f => arePathsEquivalent (path f) p) allFiles = Some dep ->
  isSelected selectedFiles dep = false ->
  forImports' (processFile' depth) file l st = Some st' ->
  In (path dep) (map fst (dependencyFiles st')).
Proof.
  induction l as [|j l IH]; intros st st' NT I R Ip F S H; [contradiction|].
  simpl in H.
  destruct (resolve j (path file) allFiles projectRoot) as [rj|] eqn:Rj;
    [|exfalso; apply (NT j); [now left | assumption]].
  destruct (forResolved' (processFile' depth) rj st) as [st1|] eqn:V;
    [|discriminate].
  destruct I as [->|I].
  - rewrite R in Rj. inversion Rj; subst.
    eapply forImports_keeps_key; [|exact H].
    eapply forResolved_adds; eassumption.
  - eapply IH; try eassumption. intros j' Hj'. apply NT. now right.
Qed.

End Walk.
End WalkerFacts.

(** ** The walker on a call stack of a given size *)

Module StackFacts.
Import JsString PathResolver ResolverClaims WalkerFacts.

Section OnStack.
Context {PU : PathUtils}.

Variable extract : string -> string -> completion (list string).
Variable resolve :
  string -> string -> list FileData -> string -> completion (list string).

Variables (selectedFiles allFiles : list FileData) (projectRoot : string).

Local Abbreviation visitS := (visitOnStack selectedFiles allFiles).
Local Abbreviation forResolvedS := (forResolvedOnStack selectedFiles allFiles).
Local Abbreviation forImportsS :=
  (forImportsOnStack resolve selectedFiles allFiles projectRoot).
Local Abbreviation processBodyS :=
  (processBodyOnStack extract resolve selectedFiles allFiles projectRoot).
Local Abbreviation processFileS :=
  (processFileOnStack extract resolve selectedFiles allFiles projectRoot).
Local Abbreviation forEachS :=
  (forEachOnStack extract resolve selectedFiles allFiles projectRoot).
Local Abbreviation walkS :=
  (walkOnStack extract resolve selectedFiles allFiles projectRoot).

Lemma processFileS_step stack file st :
  processFileS (S stack) file st
  = Finished (processBodyS (processFileS stack) file st).
Proof. reflexivity. Qed.

(** *** With room for the longest chain of calls the stack is not felt *)

Section Agreement.
Variable rec : FileData -> walkState -> option walkState.
Variable recS : FileData -> walkState -> stackOutcome.
Hypothesis rec_agrees :
  forall f st st', rec f st = Some st' -> recS f st = Finished st'.

Lemma visit_agrees p st st' :
  visit selectedFiles allFiles rec p st = Some st' ->
  visitS recS p st = Finished st'.
Proof.
  unfold visit, visitOnStack.
  destruct (find _ allFiles) as [dep|]; [|intros H; now inversion H].
  destruct (negb (isSelected selectedFiles dep));
    [apply rec_agrees | intros H; now inversion H].
Qed.

Lemma forResolved_agrees l : forall st st',
  forResolved selectedFiles allFiles rec l st = Some st' ->
  forResolvedS recS l st = Finished st'.
Proof.
  induction l as [|p l IH]; intros st st' H; simpl in *.
  - now inversion H.
  - destruct (visit selectedFiles allFiles rec p st) as [st1|] eqn:V;
      [|discriminate].
    rewrite (visit_agrees _ _ _ V). now apply IH.
Qed.

Lemma forImports_agrees file l : forall st st',
  forImports resolve selectedFiles allFiles projectRoot rec file l st
  = Some st' ->
  forImportsS recS file l st = st'.
Proof.
  induction l as [|i l IH]; intros st st' H; simpl in *.
  - now inversion H.
  - destruct (resolve i (path file) allFiles projectRoot) as [r|];
      [|now inversion H].
    destruct (forResolved selectedFiles allFiles rec r st) as [st1|] eqn:R;
      [|discriminate].
    rewrite (forResolved_agrees _ _ _ R). now apply IH.
Qed.

Lemma processBody_agrees file st st' :
  processBody extract resolve selectedFiles allFiles projectRoot rec file st
  = Some st' ->
  processBodyS recS file st = st'.
Proof.
  unfold processBody, processBodyOnStack.
  destruct (setHas (path file) (processedFiles st)); [intros H; now inversion H|].
  destruct (extract (content file) (path file)); [|intros H; now inversion H].
  apply forImports_agrees.
Qed.

End Agreement.

Lemma processFile_agrees depth : forall stack file st st',
  depth <= stack ->
  processFile extract resolve selectedFiles allFiles projectRoot depth file st
  = Some st' ->
  processFileS stack file st = Finished st'.
Proof.
  induction depth as [|depth IH]; intros stack file st st' L H;
    [discriminate|].
  destruct stack as [|stack]; [lia|].
  rewrite processFileS_step. f_equal.
  simpl in H. eapply processBody_agrees; [|exact H].
  intros f s1 s2. apply IH. lia.
Qed.

Lemma forEach_agrees depth stack files : forall st st',
  depth <= stack ->
  forEach extract resolve selectedFiles allFiles projectRoot depth files st
  = Some st' ->
  forEachS stack files st = Finished st'.
Proof.
  induction files as [|f files IH]; intros st st' L H; simpl in *.
  - now inversion H.
  - destruct (processFile extract resolve selectedFiles allFiles projectRoot
                depth f st) as [st1|] eqn:E; [|discriminate].
    rewrite (processFile_agrees _ _ _ _ _ L E). now apply IH.
Qed.

Lemma walkOnStack_agrees stack :
  depthBound selectedFiles allFiles <= stack ->
  walkS stack
  = Finished (finalState extract resolve selectedFiles allFiles projectRoot).
Proof.
  intros L. unfold walkOnStack.
  eapply forEach_agrees; [exact L|].
  apply (finalState_walk extract resolve selectedFiles allFiles projectRoot).
Qed.

Lemma getDependencyFilesOnStackWith_agrees stack :
  depthBound selectedFiles allFiles <= stack ->
  getDependencyFilesOnStackWith extract resolve selectedFiles allFiles
    projectRoot stack
  = Returned (getDependencyFilesWith extract resolve selectedFiles allFiles
                projectRoot).
Proof.
  intros L. unfold getDependencyFilesOnStackWith.
  now rewrite (walkOnStack_agrees stack L).
Qed.

(** *** A property kept by every step is kept on every stack *)

Section InvariantOnStack.
Variable P : walkState -> Prop.

Hypothesis P_scan :
  forall file st,
    setHas (path file) (processedFiles st) = false ->
    P st -> P (logScan file (markProcessed file st)).
Hypothesis P_warn : forall file st, P st -> P (warn file st).
Hypothesis P_dependency :
  forall dep st,
    In dep allFiles -> isSelected selectedFiles dep = false ->
    P st -> P (setDependency dep st).

Section Body.
Variable recS : FileData -> walkState -> stackOutcome.
Hypothesis recS_keeps : forall f st, P st -> P (stateOf (recS f st)).

Lemma onStack_visit p st : P st -> P (stateOf (visitS recS p st)).
Proof.
  unfold visitOnStack. intros HP.
  destruct (find _ allFiles) as [dep|] eqn:F; [|exact HP].
  apply find_some in F. destruct F as [I _].
  destruct (isSelected selectedFiles dep) eqn:S; simpl; [exact HP|].
  apply recS_keeps. now apply P_dependency.
Qed.

Lemma onStack_forResolved l : forall st,
  P st -> P (stateOf (forResolvedS recS l st)).
Proof.
  induction l as [|p l IH]; intros st HP; simpl; [exact HP|].
  pose proof (onStack_visit p st HP) as V.
  destruct (visitS recS p st) as [st1|st1]; simpl in V; [now apply IH|exact V].
Qed.

Lemma onStack_forImports file l : forall st,
  P st -> P (forImportsS recS file l st).
Proof.
  induction l as [|i l IH]; intros st HP; simpl; [exact HP|].
  destruct (resolve i (path file) allFiles projectRoot) as [r|];
    [|now apply P_warn].
  pose proof (onStack_forResolved r st HP) as R.
  destruct (forResolvedS recS r st) as [st1|st1]; simpl in R;
    [now apply IH | now apply P_warn].
Qed.

Lemma onStack_processBody file st : P st -> P (processBodyS recS file st).
Proof.
  unfold processBodyOnStack. intros HP.
  destruct (setHas (path file) (processedFiles st)) eqn:E; [exact HP|].
  pose proof (P_scan file st E HP) as HP1.
  destruct (extract (content file) (path file)) as [l|];
    [now apply onStack_forImports | now apply P_warn].
Qed.

End Body.

Lemma onStack_processFile stack : forall file st,
  P st -> P (stateOf (processFileS stack file st)).
Proof.
  induction stack as [|stack IH]; intros file st HP; [exact HP|].
  rewrite processFileS_step. simpl. now apply onStack_processBody.
Qed.

Lemma onStack_forEach stack files : forall st,
  P st -> P (stateOf (forEachS stack files st)).
Proof.
  induction files as [|f files IH]; intros st HP; simpl; [exact HP|].
  pose proof (onStack_processFile stack f st HP) as V.
  destruct (processFileS stack f st) as [st1|st1]; simpl in V;
    [now apply IH | exact V].
Qed.

Lemma onStack_walk stack : P emptyState -> P (stateOf (walkS stack)).
Proof. apply onStack_forEach. Qed.

End InvariantOnStack.

Lemma onStack_processed_grows stack file st :
  incl (processedFiles st)
       (processedFiles (stateOf (processFileS stack file st))).
Proof.
  apply (onStack_processFile
           (fun s => incl (processedFiles st) (processedFiles s))).
  - intros f s _ H p Hp. simpl. apply setAdd_incl. now apply H.
  - intros f s H. exact H.
  - intros dep s _ _ H. exact H.
  - apply incl_refl.
Qed.

Lemma onStack_processFile_marks stack file st :
  In (path file)
     (processedFiles (stateOf (processFileS (S stack) file st))).
Proof.
  rewrite processFileS_step. simpl. unfold processBodyOnStack.
  destruct (setHas (path file) (processedFiles st)) eqn:E;
    [now apply setHas_In|].
  destruct (extract (content file) (path file)) as [l|].
  - apply (onStack_forImports
             (fun s => In (path file) (processedFiles s))).
    + intros f s H. exact H.
    + intros dep s _ _ H. exact H.
    + intros f s H.
      now apply (onStack_processed_grows stack f s).
    + simpl. apply setAdd_In.
  - simpl. apply setAdd_In.
Qed.

(** With room for one call at least, the calls made for the selected
    files all return, and each of them marks its file. *)
Lemma forEachOnStack_finishes stack files : forall st,
  exists st',
    forEachS (S stack) files st = Finished st'
    /\ incl (processedFiles st) (processedFiles st')
    /\ forall s, In s files -> In (path s) (processedFiles st').
Proof.
  induction files as [|f files IH]; intros st.
  - exists st. split; [reflexivity|]. split; [apply incl_refl|]. intros s [].
  - pose proof (onStack_processFile_marks stack f st) as M.
    pose proof (onStack_processed_grows (S stack) f st) as G.
    cbn [forEachOnStack]. rewrite processFileS_step in *. simpl in M, G.
    destruct (IH (processBodyS (processFileS stack) f st))
      as (st' & E & I & A).
    exists st'. split; [exact E|]. split; [eapply incl_tran; eassumption|].
    intros s [<-|Hs]; [now apply I | now apply A].
Qed.

Lemma onStack_scanned_are_processed stack :
  scanned (stateOf (walkS stack)) = processedFiles (stateOf (walkS stack)).
Proof.
  apply (onStack_walk (fun st => scanned st = processedFiles st)).
  - intros file st E S. simpl. unfold setAdd. now rewrite E, S.
  - intros file st H. exact H.
  - intros dep st _ _ H. exact H.
  - reflexivity.
Qed.

Lemma onStack_dependencies stack :
  forall k f, In (k, f) (dependencyFiles (stateOf (walkS stack))) ->
              In f allFiles /\ isSelected selectedFiles f = false
              /\ k = path f.
Proof.
  apply (onStack_walk
           (fun st => forall k f, In (k, f) (dependencyFiles st) ->
                                  In f allFiles
                                  /\ isSelected selectedFiles f = false
                                  /\ k = path f)).
  - intros file st _ H. exact H.
  - intros file st H. exact H.
  - intros dep st I S H k f HI. simpl in HI.
    apply mapSet_In in HI. destruct HI as [E|HI]; [|now apply H].
    inversion E; subst. auto.
  - intros k f [].
Qed.

Lemma onStack_keys_once stack :
  NoDup (map fst (dependencyFiles (stateOf (walkS stack)))).
Proof.
  apply (onStack_walk (fun st => NoDup (map fst (dependencyFiles st)))).
  - intros file st _ H. exact H.
  - intros file st H. exact H.
  - intros dep st _ _ H. simpl. now apply mapSet_NoDup.
  - constructor.
Qed.

End OnStack.
End StackFacts.

(** ** Claims on the dependency walker *)

Module WalkerClaims.
Import JsString PathResolver ResolverClaims WalkerFacts.

Lemma single_entry (m : list (string * FileData)) (x : string * FileData) :
  NoDup (map fst m) -> (forall e, In e m -> e = x) ->
  In (fst x) (map fst m) -> m = [x].
Proof.
  intros N A I. destruct m as [|e1 [|e2 m]].
  - contradiction.
  - now rewrite (A e1 (or_introl eq_refl)).
  - exfalso. rewrite (A e1), (A e2) in N by (simpl; tauto).
    simpl in N. inversion N as [|? ? NI _]. apply NI. now left.
Qed.

Section AnyPathUtils.
Context {PU : PathUtils}.

(** C3: no file of the result of getDependencyFiles has a path equivalent
    to the path of a selected file. *)
Theorem C3_no_selected_file_in_result
    (selectedFiles allFiles : list FileData) (projectRoot : string)
    (f s : FileData) :
  In f (getDependencyFiles selectedFiles allFiles projectRoot) ->
  In s selectedFiles ->
  arePathsEquivalent (path s) (path f) = false
  /\ arePathsEquivalent (path f) (path s) = false.
Proof.
  unfold getDependencyFiles, getDependencyFilesWith. intros I Is.
  apply in_map_iff in I. destruct I as ([k f'] & E & I). simpl in E. subst f'.
  apply dependencies_not_selected in I. destruct I as (_ & S & _).
  assert (N : arePathsEquivalent (path s) (path f) = false).
  { destruct (arePathsEquivalent (path s) (path f)) eqn:E; [|reflexivity].
    unfold isSelected in S.
    assert (T : existsb (fun f0 => arePathsEquivalent (path f0) (path f))
                  selectedFiles = true)
      by (apply existsb_exists; now exists s).
    congruence. }
  split; [exact N | now rewrite arePathsEquivalent_sym].
Qed.

(** C4: for every input the walk ends before the bound on its depth, no
    path is handed to the extractor twice, and for two files that import
    each other the selection of the first gives exactly the second. *)
Theorem C4_terminates_and_cycle_gives_other_file :
  (forall selectedFiles allFiles projectRoot,
     (exists st,
        walk extractCall resolveCall selectedFiles allFiles projectRoot
          (depthBound selectedFiles allFiles) = Some st)
     /\ NoDup (scanned (finalState extractCall resolveCall selectedFiles
                          allFiles projectRoot)))
  /\ (forall (a b : FileData) (projectRoot : string),
        arePathsEquivalent (path a) (path b) = false ->
        importsFile a b [a; b] projectRoot ->
        importsFile b a [a; b] projectRoot ->
        getDependencyFiles [a] [a; b] projectRoot = [b]).
Proof.
  split.
  - intros selectedFiles allFiles projectRoot. split.
    + apply walk_terminates.
    + apply scanned_once.
  - intros a b projectRoot NE (i & Ii & Ip) _.
    unfold getDependencyFiles, getDependencyFilesWith.
    set (final := finalState extractCall resolveCall [a] [a; b] projectRoot).
    assert (F : find (fun f => arePathsEquivalent (path f) (path b)) [a; b]
                = Some b)
      by (simpl; now rewrite NE, arePathsEquivalent_refl).
    assert (NS : isSelected [a] b = false)
      by (unfold isSelected; simpl; now rewrite NE).
    assert (K : In (path b) (map fst (dependencyFiles final))).
    { pose proof (finalState_walk extractCall resolveCall [a] [a; b]
                    projectRoot) as W.
      fold final in W. unfold walk in W.
      change (depthBound [a] [a; b]) with (S 3) in W. cbn [forEach] in W.
      destruct (processFile extractCall resolveCall [a] [a; b] projectRoot
                  (S 3) a emptyState) as [st|] eqn:E; [|discriminate].
      inversion W; subst st.
      rewrite (processFile_unprocessed extractCall resolveCall [a] [a; b]
                 projectRoot 3 a emptyState _ eq_refl eq_refl) in E.
      assert (NT : forall j,
                 In j (ImportParser.extractLocalImportPaths (content a)
                         (path a)) ->
                 resolveCall j (path a) [a; b] projectRoot <> Thrown)
        by (intros j _; discriminate).
      exact (forImports_adds extractCall resolveCall [a] [a; b] projectRoot
               3 a b i (resolveImportPath i (path a) [a; b] projectRoot)
               (path b) _ _ _ NT Ii eq_refl Ip F NS E). }
    rewrite (single_entry (dependencyFiles final) (path b, b)).
    + reflexivity.
    + apply dependency_keys_once.
    + intros [k f] I. apply dependencies_not_selected in I.
      destruct I as (I & Sf & ->).
      destruct I as [<-|[<-|[]]]; [|reflexivity].
      unfold isSelected in Sf. simpl in Sf.
      now rewrite arePathsEquivalent_refl in Sf.
    + exact K.
Qed.


End AnyPathUtils.

Import SpecPathUtils Fixtures.

Lemma C3_no_selected_file_in_result_witness :
  arePathsEquivalent (path leafB) (path leafC) = false
  /\ arePathsEquivalent (path leafC) (path leafB) = false.
Proof.
  apply (C3_no_selected_file_in_result [app; leafB] [app; leafB; leafC] "/p"
           leafC leafB).
  - vm_compute. tauto.
  - simpl. tauto.
Defined.

Lemma C4_terminates_and_cycle_gives_other_file_witness :
  getDependencyFiles [cycleA] [cycleA; cycleB] "/p" = [cycleB].
Proof.
  apply (proj2 C4_terminates_and_cycle_gives_other_file cycleA cycleB "/p").
  - reflexivity.
  - exists "./b". split; vm_compute; tauto.
  - exists "./a". split; vm_compute; tauto.
Defined.


(** The repository's own test of getDependencyFiles, with forward
    slashes. *)
Example repository_test :
  map path
    (getDependencyFiles
       [file "C:/project/src/components/App.ts"
          ("import helper from './utils/helper';"
           ++ String ImportParser.newline
              "import constants from '../shared/constants';")%string]
       [file "C:/project/src/components/App.ts"
          ("import helper from './utils/helper';"
           ++ String ImportParser.newline
              "import constants from '../shared/constants';")%string;
        file "C:/project/src/components/utils/helper.ts"
          "export const value = 42;";
        file "C:/project/src/shared/constants.ts"
          "export const CONST = 'value';";
        file "C:/project/src/index.ts" "import App from './components/App';"]
       "C:/project")
  = ["C:/project/src/components/utils/helper.ts";
     "C:/project/src/shared/constants.ts"].
Proof. vm_compute. reflexivity. Qed.

(** A walk in which the extraction of /p/b.ts throws: the file is found
    and warned about, its own import is lost, and the walk goes on to
    /p/c.ts. Without the throw the import of /p/b.ts is found too. *)
Example throwing_file_is_skipped :
  getDependencyFilesWith throwingExtract resolveCall
    [app] [app; leafB; leafC; leafD] "/p" = [leafB; leafC]
  /\ warnings (finalState throwingExtract resolveCall
                 [app] [app; leafB; leafC; leafD] "/p") = ["/p/b.ts"]
  /\ getDependencyFiles [app] [app; leafB; leafC; leafD] "/p"
     = [leafB; leafD; leafC].
Proof. vm_compute. repeat split. Qed.

End WalkerClaims.

(** ** What the walker finds *)

Module WalkerReach.
Import JsString PathResolver ResolverClaims WalkerFacts WalkerSpec.

Lemma setAdd_In_inv (k p : string) (s : list string) :
  In p (setAdd k s) -> p = k \/ In p s.
Proof.
  unfold setAdd. destruct (setHas k s); [now right|].
  intros H. apply in_app_or in H. destruct H as [H|[H|[]]]; auto.
Qed.

Lemma mapSet_keys_inv k v m k' :
  In k' (map fst (mapSet k v m)) -> k' = k \/ In k' (map fst m).
Proof.
  induction m as [|[k0 v0] m IH]; simpl.
  - intros [H|[]]; auto.
  - destruct (String.eqb k0 k) eqn:E; simpl.
    + intros [H|H]; auto.
    + intros [H|H]; [auto|]. destruct (IH H); auto.
Qed.

Lemma find_same_test {A} (f g : A -> bool) (l : list A) :
  (forall x, f x = g x) -> find f l = find g l.
Proof.
  intros E. induction l as [|a l IH]; simpl; [reflexivity|].
  now rewrite E, IH.
Qed.

Section RealWalk.
Context {PU : PathUtils}.

Variables (selectedFiles allFiles : list FileData) (projectRoot : string).

Local Abbreviation visitR := (visit selectedFiles allFiles).
Local Abbreviation forResolvedR := (forResolved selectedFiles allFiles).
Local Abbreviation forImportsR :=
  (forImports resolveCall selectedFiles allFiles projectRoot).
Local Abbreviation processFileR :=
  (processFile extractCall resolveCall selectedFiles allFiles projectRoot).
Local Abbreviation forEachR :=
  (forEach extractCall resolveCall selectedFiles allFiles projectRoot).
Local Abbreviation finalR :=
  (finalState extractCall resolveCall selectedFiles allFiles projectRoot).
Local Abbreviation dependsOnR := (dependsOn selectedFiles allFiles projectRoot).
Local Abbreviation ReachableR := (Reachable selectedFiles allFiles projectRoot).
Local Abbreviation closedInR := (closedIn selectedFiles allFiles projectRoot).
Local Abbreviation mayOwnR := (mayOwn selectedFiles allFiles).
Local Abbreviation extendsR := (extends selectedFiles allFiles projectRoot).
Local Abbreviation importsOf g :=
  (ImportParser.extractLocalImportPaths (content g) (path g)).
Local Abbreviation resolvedOf g i :=
  (resolveImportPath i (path g) allFiles projectRoot).

Lemma processFileR_step depth g st :
  processFileR (S depth) g st
  = if setHas (path g) (processedFiles st) then Some st
    else forImportsR (processFileR depth) g (importsOf g)
           (logScan g (markProcessed g st)).
Proof. reflexivity. Qed.

Lemma forImportsR_cons rec g i l st :
  forImportsR rec g (i :: l) st
  = match forResolvedR rec (resolvedOf g i) st with
    | Some st' => forImportsR rec g l st'
    | None => None
    end.
Proof. reflexivity. Qed.

(** The candidate file found for a path is the one found for its own
    path. *)
Lemma lookupFile_own p dep :
  lookupFile allFiles p = Some dep -> lookupFile allFiles (path dep) = Some dep.
Proof.
  unfold lookupFile. intros F. rewrite <- F.
  apply find_some in F. destruct F as [_ E].
  apply find_same_test. intros x. unfold arePathsEquivalent in *.
  apply String.eqb_eq in E. now rewrite E.
Qed.

Lemma lookupFile_equivalent f1 f2 :
  lookupFile allFiles (path f1) = Some f1 ->
  lookupFile allFiles (path f2) = Some f2 ->
  arePathsEquivalent (path f1) (path f2) = true -> f1 = f2.
Proof.
  unfold lookupFile. intros F1 F2 E.
  assert (X : find (fun f => arePathsEquivalent (path f) (path f1)) allFiles
              = find (fun f => arePathsEquivalent (path f) (path f2)) allFiles).
  { apply find_same_test. intros x. unfold arePathsEquivalent in *.
    apply String.eqb_eq in E. now rewrite E. }
  congruence.
Qed.

(** *** A property of the state, with the file at hand *)

Section WithFile.
Variable P : walkState -> Prop.
Variable Good : FileData -> Prop.

Hypothesis P_scan : forall g st, P st -> P (logScan g (markProcessed g st)).
Hypothesis P_dep :
  forall g dep st,
    Good g -> dependsOnR g dep -> P st ->
    P (setDependency dep st) /\ Good dep.

Section Loops.
Variable rec : FileData -> walkState -> option walkState.
Hypothesis rec_keeps :
  forall f st st', Good f -> P st -> rec f st = Some st' -> P st'.

Lemma withFile_visit g i p st st' :
  Good g -> In i (importsOf g) -> In p (resolvedOf g i) ->
  P st -> visitR rec p st = Some st' -> P st'.
Proof.
  intros G Ii Ip HP H. unfold visit in H.
  destruct (find _ allFiles) as [dep|] eqn:F; [|now inversion H; subst].
  destruct (isSelected selectedFiles dep) eqn:S; simpl in H;
    [now inversion H; subst|].
  destruct (P_dep g dep st G) as [HP' G']; [|exact HP|].
  - exists i, p. repeat split; assumption.
  - eapply rec_keeps; eassumption.
Qed.

Lemma withFile_forResolved g i l : forall st st',
  Good g -> In i (importsOf g) -> incl l (resolvedOf g i) ->
  P st -> forResolvedR rec l st = Some st' -> P st'.
Proof.
  induction l as [|p l IH]; intros st st' G Ii Il HP H; simpl in H.
  - now inversion H; subst.
  - destruct (visitR rec p st) as [st1|] eqn:V; [|discriminate].
    eapply IH; [exact G | exact Ii | | | exact H].
    + intros x Hx. apply Il. now right.
    + eapply withFile_visit; [exact G | exact Ii | | exact HP | exact V].
      apply Il. now left.
Qed.

Lemma withFile_forImports g l : forall st st',
  Good g -> incl l (importsOf g) ->
  P st -> forImportsR rec g l st = Some st' -> P st'.
Proof.
  induction l as [|i l IH]; intros st st' G Il HP H.
  - simpl in H. now inversion H; subst.
  - rewrite forImportsR_cons in H.
    destruct (forResolvedR rec (resolvedOf g i) st) as [st1|] eqn:R;
      [|discriminate].
    eapply IH; [exact G | | | exact H].
    + intros x Hx. apply Il. now right.
    + eapply withFile_forResolved;
        [exact G | apply Il; now left | apply incl_refl | exact HP | exact R].
Qed.

End Loops.

Lemma withFile_processFile depth : forall g st st',
  Good g -> P st -> processFileR depth g st = Some st' -> P st'.
Proof.
  induction depth as [|depth IH]; intros g st st' G HP H; [discriminate|].
  rewrite processFileR_step in H.
  destruct (setHas (path g) (processedFiles st)); [now inversion H; subst|].
  eapply withFile_forImports;
    [exact IH | exact G | apply incl_refl | apply P_scan; exact HP | exact H].
Qed.

Lemma withFile_forEach depth files : forall st st',
  (forall s, In s files -> Good s) ->
  P st -> forEachR depth files st = Some st' -> P st'.
Proof.
  induction files as [|f files IH]; intros st st' G HP H; simpl in H.
  - now inversion H; subst.
  - destruct (processFileR depth f st) as [st1|] eqn:E; [|discriminate].
    eapply IH; [| |exact H].
    + intros s Hs. apply G. now right.
    + eapply withFile_processFile; [apply G; now left | exact HP | exact E].
Qed.

Lemma withFile_finalState :
  (forall s, In s selectedFiles -> Good s) -> P emptyState -> P finalR.
Proof.
  intros G H0.
  pose proof (finalState_walk extractCall resolveCall selectedFiles allFiles
                projectRoot) as W.
  unfold walk in W. eapply withFile_forEach; eassumption.
Qed.

End WithFile.

(** Every entry of the map is a candidate file under its own path, found
    by the lookup of that path, and reached from the selection. *)
Lemma entries_reached k f :
  In (k, f) (dependencyFiles finalR) ->
  k = path f /\ lookupFile allFiles (path f) = Some f /\ ReachableR f.
Proof.
  revert k f.
  apply (withFile_finalState
           (fun st => forall k f, In (k, f) (dependencyFiles st) ->
                                  k = path f
                                  /\ lookupFile allFiles (path f) = Some f
                                  /\ ReachableR f)
           (fun g => In g selectedFiles \/ ReachableR g)).
  - intros g st H. exact H.
  - intros g dep st G D H.
    assert (R : ReachableR dep).
    { destruct G as [G|G]; [eapply reach_selected | eapply reach_dependency];
        eassumption. }
    split; [|now right].
    intros k f I. simpl in I. apply mapSet_In in I.
    destruct I as [E|I]; [|now apply H].
    inversion E; subst. split; [reflexivity|]. split; [|exact R].
    destruct D as (i & p & _ & _ & F & _). eapply lookupFile_own; exact F.
  - intros s Hs. now left.
  - intros k f [].
Qed.

(** *** What a call adds to the state *)

Lemma closedIn_more h st st' :
  closedInR h st -> incl (keys st) (keys st') -> closedInR h st'.
Proof. intros C I dep D. apply I. now apply C. Qed.

Lemma extends_refl st : extendsR st st.
Proof.
  unfold extends. repeat split; try apply incl_refl; intros x H; auto.
Qed.

Lemma extends_trans st1 st2 st3 :
  extendsR st1 st2 -> extendsR st2 st3 -> extendsR st1 st3.
Proof.
  intros (A1 & B1 & C1 & D1 & E1) (A2 & B2 & C2 & D2 & E2).
  unfold extends. repeat split.
  - eapply incl_tran; eassumption.
  - eapply incl_tran; eassumption.
  - intros k H. destruct (C2 k H) as [H2|H2]; [|now right].
    destruct (C1 k H2) as [H1|H1]; [now left | right; now apply B2].
  - intros p H. destruct (D2 p H) as [H2|H2]; [|now right].
    destruct (D1 p H2) as [H1|(h & Hp & O & C)]; [now left|].
    right. exists h. repeat split; try assumption.
    eapply closedIn_more; eassumption.
  - intros p H. destruct (E2 p H) as [H2|H2]; [|now right].
    destruct (E1 p H2) as [H1|[H1|H1]]; auto.
Qed.

Section Calls.
Variable rec : FileData -> walkState -> option walkState.
Hypothesis rec_extends :
  forall dep st st',
    mayOwnR dep ->
    In dep selectedFiles \/ In (path dep) (keys st) ->
    rec dep st = Some st' ->
    extendsR st st' /\ In (path dep) (processedFiles st').

Lemma extends_visit p st st' :
  visitR rec p st = Some st' ->
  extendsR st st'
  /\ forall dep, lookupFile allFiles p = Some dep ->
                 isSelected selectedFiles dep = false ->
                 In (path dep) (keys st').
Proof.
  unfold visit, lookupFile. intros H.
  destruct (find _ allFiles) as [dep|] eqn:F.
  - destruct (isSelected selectedFiles dep) eqn:S; simpl in H.
    + inversion H; subst. split; [apply extends_refl|].
      intros dep0 E. inversion E; subst. congruence.
    + destruct (rec_extends dep (setDependency dep st) st')
        as ((A & B & C & D & E) & Ip).
      * right. split; [eapply lookupFile_own; exact F | exact S].
      * right. unfold keys. simpl. apply mapSet_has.
      * exact H.
      * assert (K : incl (keys st) (keys (setDependency dep st)))
          by (intros k Hk; unfold keys; simpl; now apply mapSet_keeps).
        split.
        -- unfold extends. repeat split.
           ++ eapply incl_tran; eassumption.
           ++ exact B.
           ++ intros k Hk. destruct (C k Hk) as [Hk'|Hk']; [|now right].
              unfold keys in Hk'. simpl in Hk'.
              apply mapSet_keys_inv in Hk'.
              destruct Hk' as [->|Hk']; [now right | now left].
           ++ exact D.
           ++ exact E.
        -- intros dep0 E0 _. inversion E0; subst. apply A.
           unfold keys. simpl. apply mapSet_has.
  - inversion H; subst. split; [apply extends_refl|]. intros dep0 E. discriminate.
Qed.

Lemma extends_forResolved l : forall st st',
  forResolvedR rec l st = Some st' ->
  extendsR st st'
  /\ forall p dep, In p l -> lookupFile allFiles p = Some dep ->
                   isSelected selectedFiles dep = false ->
                   In (path dep) (keys st').
Proof.
  induction l as [|q l IH]; intros st st' H; simpl in H.
  - inversion H; subst. split; [apply extends_refl|]. intros p dep [].
  - destruct (visitR rec q st) as [st1|] eqn:V; [|discriminate].
    destruct (extends_visit _ _ _ V) as [E1 K1].
    destruct (IH _ _ H) as [E2 K2].
    split; [eapply extends_trans; eassumption|].
    intros p dep [<-|I] F S.
    + destruct E2 as (A & _). apply A. now apply K1.
    + eapply K2; eassumption.
Qed.

Lemma extends_forImports g l : forall st st',
  forImportsR rec g l st = Some st' ->
  extendsR st st'
  /\ forall i p dep, In i l -> In p (resolvedOf g i) ->
                     lookupFile allFiles p = Some dep ->
                     isSelected selectedFiles dep = false ->
                     In (path dep) (keys st').
Proof.
  induction l as [|j l IH]; intros st st' H.
  - simpl in H. inversion H; subst. split; [apply extends_refl|].
    intros i p dep [].
  - rewrite forImportsR_cons in H.
    destruct (forResolvedR rec (resolvedOf g j) st) as [st1|] eqn:R;
      [|discriminate].
    destruct (extends_forResolved _ _ _ R) as [E1 K1].
    destruct (IH _ _ H) as [E2 K2].
    split; [eapply extends_trans; eassumption|].
    intros i p dep [<-|I] Ip F S.
    + destruct E2 as (A & _). apply A. eapply K1; eassumption.
    + eapply K2; eassumption.
Qed.

End Calls.

Lemma extends_processFile depth : forall g st st',
  mayOwnR g ->
  In g selectedFiles \/ In (path g) (keys st) ->
  processFileR depth g st = Some st' ->
  extendsR st st' /\ In (path g) (processedFiles st').
Proof.
  induction depth as [|depth IH]; intros g st st' O W H; [discriminate|].
  rewrite processFileR_step in H.
  destruct (setHas (path g) (processedFiles st)) eqn:Hs.
  - inversion H; subst. split; [apply extends_refl | now apply setHas_In].
  - destruct (extends_forImports _ IH _ _ _ _ H)
      as ((A & B & C & D & E) & K).
    assert (Ig : In (path g) (processedFiles st'))
      by (apply B; simpl; apply setAdd_In).
    split; [|exact Ig].
    unfold extends. repeat split.
    + exact A.
    + intros p Hp. apply B. simpl. now apply setAdd_incl.
    + exact C.
    + intros p Hp. destruct (D p Hp) as [H1|H1]; [|now right].
      simpl in H1. apply setAdd_In_inv in H1. destruct H1 as [->|H1]; [|now left].
      right. exists g. repeat split; [exact O|].
      intros dep (i & q & Ii & Iq & F & S). eapply K; eassumption.
    + intros p Hp. destruct (E p Hp) as [H1|H1]; [|now right].
      simpl in H1. apply setAdd_In_inv in H1. destruct H1 as [->|H1]; [|now left].
      right. destruct W as [W|W].
      * right. now apply in_map.
      * left. now apply A.
Qed.

Lemma extends_forEach depth files : forall st st',
  incl files selectedFiles ->
  forEachR depth files st = Some st' ->
  extendsR st st'
  /\ forall s, In s files -> In (path s) (processedFiles st').
Proof.
  induction files as [|f files IH]; intros st st' I H; simpl in H.
  - inversion H; subst. split; [apply extends_refl|]. intros s [].
  - destruct (processFileR depth f st) as [st1|] eqn:E; [|discriminate].
    assert (If : In f selectedFiles) by (apply I; now left).
    destruct (extends_processFile _ _ _ _ (or_introl If) (or_introl If) E)
      as [E1 P1].
    destruct (IH _ _ (fun x Hx => I x (or_intror Hx)) H) as [E2 P2].
    split; [eapply extends_trans; eassumption|].
    intros s [<-|Hs]; [|now apply P2].
    destruct E2 as (_ & B & _). now apply B.
Qed.

Lemma extends_finalState :
  extendsR emptyState finalR
  /\ forall s, In s selectedFiles -> In (path s) (processedFiles finalR).
Proof.
  pose proof (finalState_walk extractCall resolveCall selectedFiles allFiles
                projectRoot) as W.
  unfold walk in W. eapply extends_forEach; [apply incl_refl | exact W].
Qed.

Lemma selected_by_path s h :
  In s selectedFiles -> path h = path s -> isSelected selectedFiles h = true.
Proof.
  intros I E. unfold isSelected. apply existsb_exists. exists s.
  split; [exact I|]. rewrite E. apply arePathsEquivalent_refl.
Qed.

Lemma dependsOn_same_text g h dep :
  path g = path h -> content g = content h ->
  dependsOnR g dep -> dependsOnR h dep.
Proof. unfold dependsOn. intros -> ->. auto. Qed.

(** A key of the final map whose path looks itself up is an entry. *)
Lemma key_is_entry dep :
  In (path dep) (keys finalR) -> lookupFile allFiles (path dep) = Some dep ->
  In dep (getDependencyFiles selectedFiles allFiles projectRoot).
Proof.
  unfold keys. intros K F. apply in_map_iff in K.
  destruct K as ([k f] & Ek & I). simpl in Ek. subst k.
  unfold getDependencyFiles, getDependencyFilesWith.
  apply in_map_iff. exists (path dep, f). split; [|exact I]. simpl.
  destruct (entries_reached _ _ I) as (Ep & Ff & _).
  rewrite <- Ep in Ff. congruence.
Qed.

Lemma result_is_closed f :
  In f (getDependencyFiles selectedFiles allFiles projectRoot) ->
  closedInR f finalR.
Proof.
  unfold getDependencyFiles, getDependencyFilesWith. intros I.
  apply in_map_iff in I. destruct I as ([k f'] & E & I). simpl in E. subst f'.
  destruct (entries_reached _ _ I) as (-> & F & _).
  destruct (dependencies_not_selected _ _ _ _ _ _ _ I) as (_ & NS & _).
  destruct extends_finalState as ((_ & _ & C & D & _) & _).
  assert (K : In (path f) (keys finalR))
    by (unfold keys; apply in_map_iff; now exists (path f, f)).
  destruct (C _ K) as [[]|Pf].
  destruct (D _ Pf) as [[]|(h & Eh & O & Ch)].
  destruct O as [O|[Fh _]].
  - rewrite (selected_by_path h f O (eq_sym Eh)) in NS. discriminate.
  - rewrite Eh in Fh. assert (h = f) by congruence. now subst.
Qed.

Lemma selection_is_closed s :
  coherent selectedFiles -> In s selectedFiles -> closedInR s finalR.
Proof.
  intros U I.
  destruct extends_finalState as ((_ & _ & _ & D & _) & Ps).
  destruct (D _ (Ps s I)) as [[]|(h & Eh & O & Ch)].
  destruct O as [O|[_ NS]].
  - intros dep Dd. apply Ch.
    eapply dependsOn_same_text; [symmetry; exact Eh | | exact Dd].
    symmetry. now apply U.
  - rewrite (selected_by_path s h I Eh) in NS. discriminate.
Qed.

Lemma dependsOn_found g dep :
  dependsOnR g dep -> lookupFile allFiles (path dep) = Some dep.
Proof. intros (i & p & _ & _ & F & _). eapply lookupFile_own; exact F. Qed.

Lemma scanned_are_processed : scanned finalR = processedFiles finalR.
Proof.
  apply (finalState_invariant extractCall resolveCall selectedFiles allFiles
           projectRoot (fun st => scanned st = processedFiles st)).
  - intros file st E S. simpl. unfold setAdd. now rewrite E, S.
  - intros file st H. exact H.
  - intros dep st _ _ H. exact H.
  - reflexivity.
Qed.

Lemma result_paths_are_keys :
  map path (getDependencyFiles selectedFiles allFiles projectRoot)
  = keys finalR.
Proof.
  unfold getDependencyFiles, getDependencyFilesWith, keys.
  rewrite map_map. apply map_ext_in. intros [k f] I.
  destruct (entries_reached _ _ I) as (-> & _). reflexivity.
Qed.

Lemma result_reached f :
  In f (getDependencyFiles selectedFiles allFiles projectRoot) ->
  In f allFiles
  /\ lookupFile allFiles (path f) = Some f
  /\ ReachableR f.
Proof.
  unfold getDependencyFiles, getDependencyFilesWith. intros I.
  apply in_map_iff in I. destruct I as ([k f'] & E & I). simpl in E. subst f'.
  destruct (entries_reached _ _ I) as (_ & F & R).
  repeat split; [|exact F | exact R].
  unfold lookupFile in F. apply find_some in F. tauto.
Qed.

Lemma reachable_found f :
  coherent selectedFiles -> ReachableR f ->
  In f (getDependencyFiles selectedFiles allFiles projectRoot).
Proof.
  intros U R. induction R as [s dep I D | g dep R IH D].
  - apply key_is_entry; [|eapply dependsOn_found; exact D].
    now apply (selection_is_closed s U I).
  - apply key_is_entry; [|eapply dependsOn_found; exact D].
    now apply (result_is_closed g IH).
Qed.

End RealWalk.

Lemma isSelected_same_members {PU : PathUtils} sel sel' dep :
  (forall x, In x sel <-> In x sel') ->
  isSelected sel dep = isSelected sel' dep.
Proof.
  intros M. unfold isSelected. apply Bool.eq_iff_eq_true.
  rewrite !existsb_exists. split; intros (x & I & E); exists x;
    (split; [now apply M | exact E]).
Qed.

Lemma Reachable_same_members {PU : PathUtils} sel sel' all root f :
  (forall x, In x sel <-> In x sel') ->
  Reachable sel all root f -> Reachable sel' all root f.
Proof.
  intros M R.
  assert (D : forall g dep, dependsOn sel all root g dep ->
                            dependsOn sel' all root g dep).
  { intros g dep (i & p & Ii & Ip & F & S). exists i, p.
    repeat split; try assumption.
    now rewrite <- (isSelected_same_members sel sel' dep M). }
  induction R as [s dep I Dd | g dep R IH Dd].
  - eapply reach_selected; [apply M; exact I | now apply D].
  - eapply reach_dependency; [exact IH | now apply D].
Qed.

End WalkerReach.

(** ** What the walker finds when its calls may throw *)

Module WalkerThrows.
Import JsString PathResolver ResolverClaims WalkerFacts WalkerSpec WalkerReach.

Section AnyCalls.
Context {PU : PathUtils}.

Variable extract : string -> string -> completion (list string).
Variable resolve :
  string -> string -> list FileData -> string -> completion (list string).

Variables (selectedFiles allFiles : list FileData) (projectRoot : string).

Local Abbreviation visitT := (visit selectedFiles allFiles).
Local Abbreviation forResolvedT := (forResolved selectedFiles allFiles).
Local Abbreviation forImportsT :=
  (forImports resolve selectedFiles allFiles projectRoot).
Local Abbreviation processFileT :=
  (processFile extract resolve selectedFiles allFiles projectRoot).
Local Abbreviation forEachT :=
  (forEach extract resolve selectedFiles allFiles projectRoot).
Local Abbreviation finalT :=
  (finalState extract resolve selectedFiles allFiles projectRoot).
Local Abbreviation resultT :=
  (getDependencyFilesWith extract resolve selectedFiles allFiles projectRoot).
Local Abbreviation dependsOnT :=
  (dependsOnWith extract resolve selectedFiles allFiles projectRoot).
Local Abbreviation ReachableT :=
  (ReachableWith extract resolve selectedFiles allFiles projectRoot).
Local Abbreviation closedInT :=
  (closedInWith extract resolve selectedFiles allFiles projectRoot).
Local Abbreviation extendsT :=
  (extendsWith extract resolve selectedFiles allFiles projectRoot).
Local Abbreviation throwsInT := (throwsIn extract resolve allFiles projectRoot).
Local Abbreviation mayOwnT := (mayOwn selectedFiles allFiles).
Local Abbreviation beforeThrowT g l :=
  (beforeThrow resolve allFiles projectRoot (path g) l).
Local Abbreviation resolveT g i := (resolve i (path g) allFiles projectRoot).

Lemma processFileT_step depth g st :
  processFileT (S depth) g st
  = if setHas (path g) (processedFiles st) then Some st
    else match extract (content g) (path g) with
         | Thrown => Some (warn g (logScan g (markProcessed g st)))
         | Returned l =>
             forImportsT (processFileT depth) g l
               (logScan g (markProcessed g st))
         end.
Proof. reflexivity. Qed.

Lemma forImportsT_cons rec g i l st :
  forImportsT rec g (i :: l) st
  = match resolveT g i with
    | Thrown => Some (warn g st)
    | Returned r =>
        match forResolvedT rec r st with
        | Some st' => forImportsT rec g l st'
        | None => None
        end
    end.
Proof. reflexivity. Qed.

Lemma beforeThrow_returned g i r l :
  resolveT g i = Returned r -> beforeThrowT g (i :: l) = i :: beforeThrowT g l.
Proof. intros R. simpl. now rewrite R. Qed.

Lemma beforeThrow_thrown g i l :
  resolveT g i = Thrown -> beforeThrowT g (i :: l) = [].
Proof. intros R. simpl. now rewrite R. Qed.

(** *** A property of the state, with the file at hand *)

Section WithFile.
Variable P : walkState -> Prop.
Variable Good : FileData -> Prop.

Hypothesis P_scan : forall g st, P st -> P (logScan g (markProcessed g st)).
Hypothesis P_warn : forall g st, P st -> P (warn g st).
Hypothesis P_dep :
  forall g dep st,
    Good g -> dependsOnT g dep -> P st ->
    P (setDependency dep st) /\ Good dep.

Section Loops.
Variable rec : FileData -> walkState -> option walkState.
Hypothesis rec_keeps :
  forall f st st', Good f -> P st -> rec f st = Some st' -> P st'.

Lemma withCalls_visit g l i r p st st' :
  Good g -> extract (content g) (path g) = Returned l ->
  In i (beforeThrowT g l) -> resolveT g i = Returned r -> In p r ->
  P st -> visitT rec p st = Some st' -> P st'.
Proof.
  intros G X Ii R Ip HP H. unfold visit in H.
  destruct (find _ allFiles) as [dep|] eqn:F; [|now inversion H; subst].
  destruct (isSelected selectedFiles dep) eqn:S; simpl in H;
    [now inversion H; subst|].
  destruct (P_dep g dep st G) as [HP' G']; [|exact HP|].
  - exists l, i, r, p. repeat split; assumption.
  - eapply rec_keeps; eassumption.
Qed.

Lemma withCalls_forResolved g l i r ps : forall st st',
  Good g -> extract (content g) (path g) = Returned l ->
  In i (beforeThrowT g l) -> resolveT g i = Returned r -> incl ps r ->
  P st -> forResolvedT rec ps st = Some st' -> P st'.
Proof.
  induction ps as [|p ps IH]; intros st st' G X Ii R Il HP H; simpl in H.
  - now inversion H; subst.
  - destruct (visitT rec p st) as [st1|] eqn:V; [|discriminate].
    eapply IH; [exact G | exact X | exact Ii | exact R | | | exact H].
    + intros x Hx. apply Il. now right.
    + eapply withCalls_visit;
        [exact G | exact X | exact Ii | exact R | | exact HP | exact V].
      apply Il. now left.
Qed.

Lemma withCalls_forImports g l l' : forall st st',
  Good g -> extract (content g) (path g) = Returned l ->
  incl (beforeThrowT g l') (beforeThrowT g l) ->
  P st -> forImportsT rec g l' st = Some st' -> P st'.
Proof.
  induction l' as [|i l' IH]; intros st st' G X Il HP H.
  - simpl in H. now inversion H; subst.
  - rewrite forImportsT_cons in H.
    destruct (resolveT g i) as [r|] eqn:R.
    + destruct (forResolvedT rec r st) as [st1|] eqn:V; [|discriminate].
      rewrite (beforeThrow_returned g i r l' R) in Il.
      eapply IH; [exact G | exact X | | | exact H].
      * intros x Hx. apply Il. now right.
      * eapply withCalls_forResolved;
          [exact G | exact X | apply Il; now left | exact R | apply incl_refl
          | exact HP | exact V].
    + inversion H; subst. now apply P_warn.
Qed.

End Loops.

Lemma withCalls_processFile depth : forall g st st',
  Good g -> P st -> processFileT depth g st = Some st' -> P st'.
Proof.
  induction depth as [|depth IH]; intros g st st' G HP H; [discriminate|].
  rewrite processFileT_step in H.
  destruct (setHas (path g) (processedFiles st)); [now inversion H; subst|].
  destruct (extract (content g) (path g)) as [l|] eqn:X.
  - eapply withCalls_forImports;
      [exact IH | exact G | exact X | apply incl_refl | apply P_scan; exact HP
      | exact H].
  - inversion H; subst. now apply P_warn, P_scan.
Qed.

Lemma withCalls_forEach depth files : forall st st',
  (forall s, In s files -> Good s) ->
  P st -> forEachT depth files st = Some st' -> P st'.
Proof.
  induction files as [|f files IH]; intros st st' G HP H; simpl in H.
  - now inversion H; subst.
  - destruct (processFileT depth f st) as [st1|] eqn:E; [|discriminate].
    eapply IH; [| |exact H].
    + intros s Hs. apply G. now right.
    + eapply withCalls_processFile; [apply G; now left | exact HP | exact E].
Qed.

Lemma withCalls_finalState :
  (forall s, In s selectedFiles -> Good s) -> P emptyState -> P finalT.
Proof.
  intros G H0.
  pose proof (finalState_walk extract resolve selectedFiles allFiles
                projectRoot) as W.
  unfold walk in W. eapply withCalls_forEach; eassumption.
Qed.

End WithFile.

(** Every entry of the map is a candidate file under its own path, found
    by the lookup of that path, and reached from the selection. *)
Lemma entries_reached_with k f :
  In (k, f) (dependencyFiles finalT) ->
  k = path f /\ lookupFile allFiles (path f) = Some f /\ ReachableT f.
Proof.
  revert k f.
  apply (withCalls_finalState
           (fun st => forall k f, In (k, f) (dependencyFiles st) ->
                                  k = path f
                                  /\ lookupFile allFiles (path f) = Some f
                                  /\ ReachableT f)
           (fun g => In g selectedFiles \/ ReachableT g)).
  - intros g st H. exact H.
  - intros g st H. exact H.
  - intros g dep st G D H.
    assert (R : ReachableT dep).
    { destruct G as [G|G];
        [eapply reachWith_selected | eapply reachWith_dependency];
        eassumption. }
    split; [|now right].
    intros k f I. simpl in I. apply mapSet_In in I.
    destruct I as [E|I]; [|now apply H].
    inversion E; subst. split; [reflexivity|]. split; [|exact R].
    destruct D as (l & i & r & p & _ & _ & _ & _ & F & _).
    eapply lookupFile_own; exact F.
  - intros s Hs. now left.
  - intros k f [].
Qed.

(** *** What a call adds to the state *)

Lemma closedInWith_more h st st' :
  closedInT h st -> incl (keys st) (keys st') -> closedInT h st'.
Proof. intros C I dep D. apply I. now apply C. Qed.

Lemma extendsWith_refl st : extendsT st st.
Proof.
  unfold extendsWith. repeat split; try apply incl_refl; intros x H; auto.
Qed.

Lemma extendsWith_warn g st : extendsT st (warn g st).
Proof.
  unfold extendsWith. repeat split; try apply incl_refl;
    try (intros x H; auto; fail).
  intros p Hp. simpl. apply in_or_app. now left.
Qed.

Lemma extendsWith_trans st1 st2 st3 :
  extendsT st1 st2 -> extendsT st2 st3 -> extendsT st1 st3.
Proof.
  intros (A1 & B1 & W1 & C1 & D1 & E1) (A2 & B2 & W2 & C2 & D2 & E2).
  unfold extendsWith. repeat split.
  - eapply incl_tran; eassumption.
  - eapply incl_tran; eassumption.
  - eapply incl_tran; eassumption.
  - intros k H. destruct (C2 k H) as [H2|H2]; [|now right].
    destruct (C1 k H2) as [H1|H1]; [now left | right; now apply B2].
  - intros p H. destruct (D2 p H) as [H2|H2]; [|now right].
    destruct (D1 p H2) as [H1|(h & Hp & O & C & T)]; [now left|].
    right. exists h. split; [exact Hp|]. split; [exact O|]. split.
    + eapply closedInWith_more; eassumption.
    + intros Th. apply W2. now apply T.
  - intros p H. destruct (E2 p H) as [H2|H2]; [|now right].
    destruct (E1 p H2) as [H1|[H1|H1]]; auto.
Qed.

Section Calls.
Variable rec : FileData -> walkState -> option walkState.
Hypothesis rec_extends :
  forall dep st st',
    mayOwnT dep ->
    In dep selectedFiles \/ In (path dep) (keys st) ->
    rec dep st = Some st' ->
    extendsT st st' /\ In (path dep) (processedFiles st').

Lemma extendsWith_visit p st st' :
  visitT rec p st = Some st' ->
  extendsT st st'
  /\ forall dep, lookupFile allFiles p = Some dep ->
                 isSelected selectedFiles dep = false ->
                 In (path dep) (keys st').
Proof.
  unfold visit, lookupFile. intros H.
  destruct (find _ allFiles) as [dep|] eqn:F.
  - destruct (isSelected selectedFiles dep) eqn:S; simpl in H.
    + inversion H; subst. split; [apply extendsWith_refl|].
      intros dep0 E. inversion E; subst. congruence.
    + destruct (rec_extends dep (setDependency dep st) st')
        as ((A & B & W & C & D & E) & Ip).
      * right. split; [eapply lookupFile_own; exact F | exact S].
      * right. unfold keys. simpl. apply mapSet_has.
      * exact H.
      * assert (K : incl (keys st) (keys (setDependency dep st)))
          by (intros k Hk; unfold keys; simpl; now apply mapSet_keeps).
        split.
        -- unfold extendsWith. repeat split.
           ++ eapply incl_tran; eassumption.
           ++ exact B.
           ++ exact W.
           ++ intros k Hk. destruct (C k Hk) as [Hk'|Hk']; [|now right].
              unfold keys in Hk'. simpl in Hk'.
              apply mapSet_keys_inv in Hk'.
              destruct Hk' as [->|Hk']; [now right | now left].
           ++ exact D.
           ++ exact E.
        -- intros dep0 E0 _. inversion E0; subst. apply A.
           unfold keys. simpl. apply mapSet_has.
  - inversion H; subst. split; [apply extendsWith_refl|].
    intros dep0 E. discriminate.
Qed.

Lemma extendsWith_forResolved l : forall st st',
  forResolvedT rec l st = Some st' ->
  extendsT st st'
  /\ forall p dep, In p l -> lookupFile allFiles p = Some dep ->
                   isSelected selectedFiles dep = false ->
                   In (path dep) (keys st').
Proof.
  induction l as [|q l IH]; intros st st' H; simpl in H.
  - inversion H; subst. split; [apply extendsWith_refl|]. intros p dep [].
  - destruct (visitT rec q st) as [st1|] eqn:V; [|discriminate].
    destruct (extendsWith_visit _ _ _ V) as [E1 K1].
    destruct (IH _ _ H) as [E2 K2].
    split; [eapply extendsWith_trans; eassumption|].
    intros p dep [<-|I] F S.
    + destruct E2 as (A & _). apply A. now apply K1.
    + eapply K2; eassumption.
Qed.

Lemma extendsWith_forImports g l : forall st st',
  forImportsT rec g l st = Some st' ->
  extendsT st st'
  /\ (forall i r p dep,
        In i (beforeThrowT g l) -> resolveT g i = Returned r -> In p r ->
        lookupFile allFiles p = Some dep ->
        isSelected selectedFiles dep = false ->
        In (path dep) (keys st'))
  /\ ((exists i, In i l /\ resolveT g i = Thrown) ->
      In (path g) (warnings st')).
Proof.
  induction l as [|j l IH]; intros st st' H.
  - simpl in H. inversion H; subst. split; [apply extendsWith_refl|]. split.
    + intros i r p dep [].
    + intros (i & [] & _).
  - rewrite forImportsT_cons in H.
    destruct (resolveT g j) as [rj|] eqn:Rj.
    + destruct (forResolvedT rec rj st) as [st1|] eqn:R; [|discriminate].
      destruct (extendsWith_forResolved _ _ _ R) as [E1 K1].
      destruct (IH _ _ H) as (E2 & K2 & T2).
      split; [eapply extendsWith_trans; eassumption|]. split.
      * intros i r p dep Ii Ri Ip F S.
        rewrite (beforeThrow_returned g j rj l Rj) in Ii.
        destruct Ii as [<-|Ii].
        -- rewrite Rj in Ri. inversion Ri; subst r.
           destruct E2 as (A & _). apply A. eapply K1; eassumption.
        -- eapply K2; eassumption.
      * intros (i & [<-|Ii] & Ti); [congruence|]. apply T2. now exists i.
    + inversion H; subst. split; [apply extendsWith_warn|]. split.
      * intros i r p dep Ii.
        rewrite (beforeThrow_thrown g j l Rj) in Ii. destruct Ii.
      * intros _. simpl. apply in_or_app. right. now left.
Qed.

End Calls.

Lemma extendsWith_processFile depth : forall g st st',
  mayOwnT g ->
  In g selectedFiles \/ In (path g) (keys st) ->
  processFileT depth g st = Some st' ->
  extendsT st st' /\ In (path g) (processedFiles st').
Proof.
  induction depth as [|depth IH]; intros g st st' O W H; [discriminate|].
  rewrite processFileT_step in H.
  destruct (setHas (path g) (processedFiles st)) eqn:Hs.
  - inversion H; subst. split; [apply extendsWith_refl | now apply setHas_In].
  - destruct (extract (content g) (path g)) as [l|] eqn:X.
    + destruct (extendsWith_forImports _ IH _ _ _ _ H)
        as ((A & B & Wn & C & D & E) & K & T).
      assert (Ig : In (path g) (processedFiles st'))
        by (apply B; simpl; apply setAdd_In).
      split; [|exact Ig].
      unfold extendsWith. repeat split.
      * exact A.
      * intros p Hp. apply B. simpl. now apply setAdd_incl.
      * exact Wn.
      * exact C.
      * intros p Hp. destruct (D p Hp) as [H1|H1]; [|now right].
        simpl in H1. apply setAdd_In_inv in H1.
        destruct H1 as [->|H1]; [|now left].
        right. exists g. split; [reflexivity|]. split; [exact O|]. split.
        -- intros dep (l' & i & r & q & X' & Ii & Ri & Iq & F & S).
           rewrite X in X'. inversion X'; subst l'. eapply K; eassumption.
        -- intros [Tx|(l' & i & X' & Ii & Ti)]; [congruence|].
           rewrite X in X'. inversion X'; subst l'.
           apply T. exists i. now split.
      * intros p Hp. destruct (E p Hp) as [H1|H1]; [|now right].
        simpl in H1. apply setAdd_In_inv in H1.
        destruct H1 as [->|H1]; [|now left].
        right. destruct W as [W|W].
        -- right. now apply in_map.
        -- left. now apply A.
    + inversion H; subst st'. split; [|simpl; apply setAdd_In].
      unfold extendsWith. repeat split.
      * apply incl_refl.
      * intros p Hp. simpl. now apply setAdd_incl.
      * intros p Hp. simpl. apply in_or_app. now left.
      * intros k Hk. left. exact Hk.
      * intros p Hp. simpl in Hp. apply setAdd_In_inv in Hp.
        destruct Hp as [->|Hp]; [|now left].
        right. exists g. split; [reflexivity|]. split; [exact O|]. split.
        -- intros dep (l' & i & r & q & X' & _). congruence.
        -- intros _. simpl. apply in_or_app. right. now left.
      * intros p Hp. simpl in Hp. apply setAdd_In_inv in Hp.
        destruct Hp as [->|Hp]; [|now left].
        right. destruct W as [W|W]; [right; now apply in_map | left; exact W].
Qed.

Lemma extendsWith_forEach depth files : forall st st',
  incl files selectedFiles ->
  forEachT depth files st = Some st' ->
  extendsT st st'
  /\ forall s, In s files -> In (path s) (processedFiles st').
Proof.
  induction files as [|f files IH]; intros st st' I H; simpl in H.
  - inversion H; subst. split; [apply extendsWith_refl|]. intros s [].
  - destruct (processFileT depth f st) as [st1|] eqn:E; [|discriminate].
    assert (If : In f selectedFiles) by (apply I; now left).
    destruct (extendsWith_processFile _ _ _ _ (or_introl If) (or_introl If) E)
      as [E1 P1].
    destruct (IH _ _ (fun x Hx => I x (or_intror Hx)) H) as [E2 P2].
    split; [eapply extendsWith_trans; eassumption|].
    intros s [<-|Hs]; [|now apply P2].
    destruct E2 as (_ & B & _). now apply B.
Qed.

Lemma extendsWith_finalState :
  extendsT emptyState finalT
  /\ forall s, In s selectedFiles -> In (path s) (processedFiles finalT).
Proof.
  pose proof (finalState_walk extract resolve selectedFiles allFiles
                projectRoot) as W.
  unfold walk in W. eapply extendsWith_forEach; [apply incl_refl | exact W].
Qed.

Lemma dependsOnWith_same_text g h dep :
  path g = path h -> content g = content h ->
  dependsOnT g dep -> dependsOnT h dep.
Proof. unfold dependsOnWith. intros -> ->. auto. Qed.

Lemma throwsIn_same_text g h :
  path g = path h -> content g = content h -> throwsInT g -> throwsInT h.
Proof. unfold throwsIn. intros -> ->. auto. Qed.

Lemma dependsOnWith_found g dep :
  dependsOnT g dep -> lookupFile allFiles (path dep) = Some dep.
Proof.
  intros (l & i & r & p & _ & _ & _ & _ & F & _).
  eapply lookupFile_own; exact F.
Qed.

(** A key of the final map whose path looks itself up is an entry. *)
Lemma key_is_entry_with dep :
  In (path dep) (keys finalT) -> lookupFile allFiles (path dep) = Some dep ->
  In dep resultT.
Proof.
  unfold keys. intros K F. apply in_map_iff in K.
  destruct K as ([k f] & Ek & I). simpl in Ek. subst k.
  unfold getDependencyFilesWith.
  apply in_map_iff. exists (path dep, f). split; [|exact I]. simpl.
  destruct (entries_reached_with _ _ I) as (Ep & Ff & _).
  rewrite <- Ep in Ff. congruence.
Qed.

(** The file processed under the path of a returned file is that file. *)
Lemma result_is_closed_with f :
  In f resultT ->
  In (path f) (processedFiles finalT)
  /\ closedInT f finalT
  /\ (throwsInT f -> In (path f) (warnings finalT)).
Proof.
  unfold getDependencyFilesWith. intros I.
  apply in_map_iff in I. destruct I as ([k f'] & E & I). simpl in E. subst f'.
  destruct (entries_reached_with _ _ I) as (-> & F & _).
  destruct (dependencies_not_selected _ _ _ _ _ _ _ I) as (_ & NS & _).
  destruct extendsWith_finalState as ((_ & _ & _ & C & D & _) & _).
  assert (K : In (path f) (keys finalT))
    by (unfold keys; apply in_map_iff; now exists (path f, f)).
  destruct (C _ K) as [[]|Pf]. split; [exact Pf|].
  destruct (D _ Pf) as [[]|(h & Eh & O & Ch & Th)].
  destruct O as [O|[Fh _]].
  - rewrite (selected_by_path selectedFiles h f O (eq_sym Eh)) in NS.
    discriminate.
  - rewrite Eh in Fh. assert (h = f) by congruence. subst h. now split.
Qed.

Lemma selection_is_closed_with s :
  coherent selectedFiles -> In s selectedFiles ->
  closedInT s finalT /\ (throwsInT s -> In (path s) (warnings finalT)).
Proof.
  intros U I.
  destruct extendsWith_finalState as ((_ & _ & _ & _ & D & _) & Ps).
  destruct (D _ (Ps s I)) as [[]|(h & Eh & O & Ch & Th)].
  destruct O as [O|[_ NS]].
  - assert (Ec : content h = content s) by now apply U.
    split.
    + intros dep Dd. apply Ch.
      eapply dependsOnWith_same_text; [symmetry; exact Eh | | exact Dd].
      now symmetry.
    + intros T. apply Th.
      eapply throwsIn_same_text; [symmetry; exact Eh | | exact T].
      now symmetry.
  - rewrite (selected_by_path selectedFiles s h I Eh) in NS. discriminate.
Qed.

Lemma scanned_are_processed_with : scanned finalT = processedFiles finalT.
Proof.
  apply (finalState_invariant extract resolve selectedFiles allFiles
           projectRoot (fun st => scanned st = processedFiles st)).
  - intros file st E S. simpl. unfold setAdd. now rewrite E, S.
  - intros file st H. exact H.
  - intros dep st _ _ H. exact H.
  - reflexivity.
Qed.

Lemma result_reached_with f :
  In f resultT ->
  In f allFiles /\ lookupFile allFiles (path f) = Some f /\ ReachableT f.
Proof.
  unfold getDependencyFilesWith. intros I.
  apply in_map_iff in I. destruct I as ([k f'] & E & I). simpl in E. subst f'.
  destruct (entries_reached_with _ _ I) as (_ & F & R).
  repeat split; [|exact F | exact R].
  unfold lookupFile in F. apply find_some in F. tauto.
Qed.

Lemma reachable_found_with f :
  coherent selectedFiles -> ReachableT f -> In f resultT.
Proof.
  intros U R. induction R as [s dep I D | g dep R IH D].
  - apply key_is_entry_with; [|eapply dependsOnWith_found; exact D].
    now apply (proj1 (selection_is_closed_with s U I)).
  - apply key_is_entry_with; [|eapply dependsOnWith_found; exact D].
    now apply (proj1 (proj2 (result_is_closed_with g IH))).
Qed.

End AnyCalls.
End WalkerThrows.

(** ** The claim on exceptions *)

Module ThrowClaims.
Import JsString PathResolver ResolverClaims WalkerFacts StackFacts WalkerSpec
  WalkerReach WalkerThrows.

Section AnyPathUtils.
Context {PU : PathUtils}.


End AnyPathUtils.

Import SpecPathUtils Fixtures.


End ThrowClaims.

(** ** More on the dependency walker *)

Module WalkerExtras.
Import JsString PathResolver ResolverClaims WalkerFacts StackFacts WalkerSpec
  WalkerReach.

Section AnyPathUtils.
Context {PU : PathUtils}.

(** X1: every file that getDependencyFiles returns is a candidate file,
    the first one whose path is equivalent to its own, and it is reached
    from a selected file by a chain of imports that resolve to files
    outside the selection. *)
Theorem X1_result_is_reached_from_selection
    (selectedFiles allFiles : list FileData) (projectRoot : string)
    (f : FileData) :
  In f (getDependencyFiles selectedFiles allFiles projectRoot) ->
  In f allFiles
  /\ lookupFile allFiles (path f) = Some f
  /\ Reachable selectedFiles allFiles projectRoot f.
Proof.
  unfold getDependencyFiles, getDependencyFilesWith. intros I.
  apply in_map_iff in I. destruct I as ([k f'] & E & I). simpl in E. subst f'.
  destruct (entries_reached _ _ _ _ _ I) as (_ & F & R).
  repeat split; [|exact F | exact R].
  unfold lookupFile in F. apply find_some in F. tauto.
Qed.

(** X2: the result of getDependencyFiles has no two files with the same
    path, and two of its files with equivalent paths are the same file. *)
Theorem X2_result_has_one_file_per_path
    (selectedFiles allFiles : list FileData) (projectRoot : string) :
  NoDup (map path (getDependencyFiles selectedFiles allFiles projectRoot))
  /\ forall f1 f2,
       In f1 (getDependencyFiles selectedFiles allFiles projectRoot) ->
       In f2 (getDependencyFiles selectedFiles allFiles projectRoot) ->
       arePathsEquivalent (path f1) (path f2) = true -> f1 = f2.
Proof.
  split.
  - rewrite result_paths_are_keys. apply dependency_keys_once.
  - unfold getDependencyFiles, getDependencyFilesWith. intros f1 f2 I1 I2 E.
    apply in_map_iff in I1. destruct I1 as ([k1 g1] & E1 & I1).
    apply in_map_iff in I2. destruct I2 as ([k2 g2] & E2 & I2).
    simpl in E1, E2. subst g1 g2.
    destruct (entries_reached _ _ _ _ _ I1) as (_ & F1 & _).
    destruct (entries_reached _ _ _ _ _ I2) as (_ & F2 & _).
    eapply lookupFile_equivalent; eassumption.
Qed.

(** X3: when the call stack has room for as many nested calls of
    processFile as there are selected and candidate files and one more,
    and selected files with the same path have the same content,
    getDependencyFiles returns exactly the files reached from the selection
    by the steps of the walker. A step goes from a file to the first
    candidate file whose path is equivalent to a path that one of its
    local imports resolves to, and only if that candidate is not selected:
    what lies behind a selected file, or is another file than the first
    one with an equivalent path, is not reached that way. *)
Theorem X3_result_is_the_reachable_set
    (selectedFiles allFiles : list FileData) (projectRoot : string)
    (stack : nat) :
  coherent selectedFiles ->
  depthBound selectedFiles allFiles <= stack ->
  exists result,
    getDependencyFilesOnStack stack selectedFiles allFiles projectRoot
    = Returned result
    /\ forall f,
         In f result <-> Reachable selectedFiles allFiles projectRoot f.
Proof.
  intros U L. exists (getDependencyFiles selectedFiles allFiles projectRoot).
  split.
  - now apply getDependencyFilesOnStackWith_agrees.
  - intros f. split.
    + intros I. now apply result_reached.
    + intros R. now apply reachable_found.
Qed.

(** X4: under the same two conditions the set of files that
    getDependencyFiles returns does not depend on the order of the selected
    files, nor on repetitions among them. *)
Theorem X4_order_of_selection_is_irrelevant
    (selectedFiles selectedFiles' allFiles : list FileData)
    (projectRoot : string) (stack : nat) :
  coherent selectedFiles ->
  (forall s, In s selectedFiles <-> In s selectedFiles') ->
  depthBound selectedFiles allFiles <= stack ->
  depthBound selectedFiles' allFiles <= stack ->
  exists result result',
    getDependencyFilesOnStack stack selectedFiles allFiles projectRoot
    = Returned result
    /\ getDependencyFilesOnStack stack selectedFiles' allFiles projectRoot
       = Returned result'
    /\ forall f, In f result <-> In f result'.
Proof.
  intros U M L L'.
  assert (U' : coherent selectedFiles').
  { intros s1 s2 I1 I2. apply U; now apply M. }
  assert (M' : forall s, In s selectedFiles' <-> In s selectedFiles)
    by (intros s; symmetry; apply M).
  exists (getDependencyFiles selectedFiles allFiles projectRoot),
         (getDependencyFiles selectedFiles' allFiles projectRoot).
  split; [now apply getDependencyFilesOnStackWith_agrees|].
  split; [now apply getDependencyFilesOnStackWith_agrees|].
  intros f. split; intros I.
  - apply result_reached in I. destruct I as (_ & _ & R).
    apply reachable_found; [exact U'|].
    now apply (Reachable_same_members _ _ _ _ _ M).
  - apply result_reached in I. destruct I as (_ & _ & R).
    apply reachable_found; [exact U|].
    now apply (Reachable_same_members _ _ _ _ _ M').
Qed.

(** X5: when the call stack has room for as many nested calls of
    processFile as there are selected and candidate files and one more,
    the paths handed to the extractor during a call of getDependencyFiles
    are the paths of the selected files and the paths of the files
    returned, and no others. *)
Theorem X5_scanned_paths_are_selection_and_result
    (selectedFiles allFiles : list FileData) (projectRoot : string)
    (stack : nat) :
  depthBound selectedFiles allFiles <= stack ->
  exists st,
    walkOnStack extractCall resolveCall selectedFiles allFiles projectRoot
      stack = Finished st
    /\ getDependencyFilesOnStack stack selectedFiles allFiles projectRoot
       = Returned (map snd (dependencyFiles st))
    /\ forall p,
         In p (scanned st)
         <-> In p (map path selectedFiles)
             \/ In p (map path (map snd (dependencyFiles st))).
Proof.
  intros L.
  exists (finalState extractCall resolveCall selectedFiles allFiles
            projectRoot).
  split; [now apply walkOnStack_agrees|].
  split; [now apply getDependencyFilesOnStackWith_agrees|].
  intros p.
  fold (getDependencyFilesWith extractCall resolveCall selectedFiles allFiles
          projectRoot).
  fold (getDependencyFiles selectedFiles allFiles projectRoot).
  rewrite scanned_are_processed, result_paths_are_keys.
  destruct (extends_finalState selectedFiles allFiles projectRoot)
    as ((_ & _ & C & _ & E) & Ps).
  split.
  - intros I. destruct (E p I) as [[]|[H|H]]; auto.
  - intros [I|I].
    + apply in_map_iff in I. destruct I as (s & <- & I). now apply Ps.
    + destruct (C p I) as [[]|H]. exact H.
Qed.


End AnyPathUtils.

Import SpecPathUtils Fixtures.

Lemma X1_result_is_reached_from_selection_witness :
  In leafD [app; leafB; leafC; leafD]
  /\ lookupFile [app; leafB; leafC; leafD] (path leafD) = Some leafD
  /\ Reachable [app] [app; leafB; leafC; leafD] "/p" leafD.
Proof.
  apply (X1_result_is_reached_from_selection [app]
           [app; leafB; leafC; leafD] "/p" leafD).
  vm_compute. tauto.
Defined.

Lemma X3_result_is_the_reachable_set_witness :
  exists result,
    getDependencyFilesOnStack 6 [app] [app; leafB; leafC; leafD] "/p"
    = Returned result
    /\ forall f,
         In f result <-> Reachable [app] [app; leafB; leafC; leafD] "/p" f.
Proof.
  apply (X3_result_is_the_reachable_set [app] [app; leafB; leafC; leafD]
           "/p" 6).
  - intros s1 s2 [<-|[]] [<-|[]] _. reflexivity.
  - vm_compute. lia.
Defined.

Lemma X4_order_of_selection_is_irrelevant_witness :
  exists result result',
    getDependencyFilesOnStack 8 [app; leafC] [app; leafB; leafC; leafD] "/p"
    = Returned result
    /\ getDependencyFilesOnStack 8 [leafC; app; leafC]
         [app; leafB; leafC; leafD] "/p"
       = Returned result'
    /\ forall f, In f result <-> In f result'.
Proof.
  apply (X4_order_of_selection_is_irrelevant [app; leafC] [leafC; app; leafC]
           [app; leafB; leafC; leafD] "/p" 8).
  - intros s1 s2 [<-|[<-|[]]] [<-|[<-|[]]] E;
      first [reflexivity | discriminate E].
  - intros s. simpl. tauto.
  - vm_compute. lia.
  - vm_compute. lia.
Defined.


Lemma X5_scanned_paths_are_selection_and_result_witness :
  exists st,
    walkOnStack extractCall resolveCall [app] [app; leafB; leafC; leafD] "/p"
      6 = Finished st
    /\ getDependencyFilesOnStack 6 [app] [app; leafB; leafC; leafD] "/p"
       = Returned (map snd (dependencyFiles st))
    /\ forall p,
         In p (scanned st)
         <-> In p (map path [app])
             \/ In p (map path (map snd (dependencyFiles st))).
Proof.
  apply (X5_scanned_paths_are_selection_and_result [app]
           [app; leafB; leafC; leafD] "/p" 6).
  vm_compute. lia.
Defined.

(** On a stack too small for the chain of imports the walk still returns,
    with fewer files: with room for one call only, the first import of
    /p/app.ts is recorded, the call made for it throws, and the second
    import is not looked at. *)
Example small_stack_loses_files :
  getDependencyFilesOnStack 1 [app] [app; leafB; leafC; leafD] "/p"
  = Returned [leafB]
  /\ getDependencyFilesOnStack 3 [app] [app; leafB; leafC; leafD] "/p"
     = Returned [leafB; leafD; leafC].
Proof. vm_compute. split; reflexivity. Qed.

(** On that stack the file returned was never handed to the extractor, and
    the warning names the file whose try block took the RangeError. *)
Example small_stack_returns_unscanned_file :
  walkOnStack extractCall resolveCall [app] [app; leafB; leafC; leafD] "/p" 1
  = Finished (mkWalkState ["/p/app.ts"] [("/p/b.ts", leafB)] ["/p/app.ts"]
                ["/p/app.ts"]).
Proof. vm_compute. reflexivity. Qed.

(** On such a stack the order of the selection matters: the chain b, c, d,
    e entered at b first is cut after d, and c is then known as processed;
    entered at c first it is cut after e. *)
Example order_matters_on_small_stack :
  getDependencyFilesOnStack 3 [chainX; chainY] chainFiles "/q"
  = Returned [chainB; chainC; chainD]
  /\ getDependencyFilesOnStack 3 [chainY; chainX] chainFiles "/q"
     = Returned [chainC; chainD; chainE; chainB]
  /\ getDependencyFilesOnStack 9 [chainX; chainY] chainFiles "/q"
     = Returned [chainB; chainC; chainD; chainE].
Proof. vm_compute. repeat split. Qed.

End WalkerExtras.

(** ** More on the path resolver *)

Module ResolverExtras.
Import JsString JsStringFacts PathResolver PathResolverRest ResolverClaims.

Lemma append_empty (a : string) : (a ++ "")%string = a.
Proof. induction a as [|x a IH]; simpl; [reflexivity | now rewrite IH]. Qed.

Lemma includesPath_In (resolvedPaths : list string) (file : FileData) :
  includesPath resolvedPaths file = true <-> In (path file) resolvedPaths.
Proof.
  unfold includesPath. rewrite existsb_exists. split.
  - intros (x & I & E). apply String.eqb_eq in E. now subst.
  - intros I. exists (path file). split; [exact I | apply String.eqb_refl].
Qed.

Section AnyPathUtils.
Context {PU : PathUtils}.

Lemma probe_as_written base allFiles :
  probe base [EmptyString] allFiles = findMatchingFiles base allFiles.
Proof.
  unfold probe. simpl. rewrite append_empty, app_nil_r.
  destruct (findMatchingFiles base allFiles) eqn:E; reflexivity.
Qed.

(** X6: resolveImportPath only returns paths of candidate files, in
    particular nothing when there is no candidate file. *)
Theorem X6_resolved_paths_are_candidate_paths
    (importPath currentFilePath projectRoot : string)
    (allFiles : list FileData) :
  incl (resolveImportPath importPath currentFilePath allFiles projectRoot)
       (map path allFiles)
  /\ resolveImportPath importPath currentFilePath [] projectRoot = [].
Proof.
  split.
  - intros p I. apply resolveImportPath_paths in I.
    destruct I as (file & If & <-). now apply in_map.
  - destruct (resolveImportPath importPath currentFilePath [] projectRoot)
      as [|p l] eqn:E; [reflexivity|].
    assert (I : In p (resolveImportPath importPath currentFilePath []
                        projectRoot)) by (rewrite E; now left).
    apply resolveImportPath_paths in I. destruct I as (file & [] & _).
Qed.

(** X7: an import string that ends with one of the extensions of the
    switch is looked up as it is written, without any other extension: a
    relative one at the path resolved from the directory of the current
    file, a module-style one as the string itself. *)
Theorem X7_import_with_extension_is_looked_up_as_written
    (importPath currentFilePath projectRoot : string)
    (allFiles : list FileData) :
  hasRecognizedExtension importPath = true ->
  startsWith importPath "/" = false ->
  resolveImportPath importPath currentFilePath allFiles projectRoot
  = if startsWith importPath "./" || startsWith importPath "../"
    then findMatchingFiles (resolvePath (dirname currentFilePath) importPath)
           allFiles
    else findMatchingFiles importPath allFiles.
Proof.
  intros R A. unfold resolveImportPath. rewrite A.
  assert (G : getFileExtensions importPath = [EmptyString]).
  { unfold getFileExtensions, hasRecognizedExtension in *.
    destruct (extensionOf importPath) as [e|]; [now rewrite R | discriminate]. }
  rewrite G.
  destruct (startsWith importPath "./" || startsWith importPath "../");
    apply probe_as_written.
Qed.

(** X8: resolveFileImports gives one record for each import path of the
    parser, in the same order; the record holds the paths that
    resolveImportPath finds, and its files are the candidate files that
    have one of these paths, so that the paths of the files and the
    resolved paths are the same set. *)
Theorem X8_resolveFileImports_records
    (content filePath projectRoot : string) (allFiles : list FileData)
    (parser : string -> string -> list string) :
  map importPath
      (resolveFileImports content filePath allFiles projectRoot parser)
  = parser content filePath
  /\ forall r,
       In r (resolveFileImports content filePath allFiles projectRoot parser) ->
       resolvedPaths r
       = resolveImportPath (importPath r) filePath allFiles projectRoot
       /\ incl (foundFiles r) allFiles
       /\ forall p, In p (resolvedPaths r) <-> In p (map path (foundFiles r)).
Proof.
  unfold resolveFileImports. split.
  - rewrite map_map. simpl. apply map_id.
  - intros r I. apply in_map_iff in I. destruct I as (i & <- & _). simpl.
    split; [reflexivity|]. split.
    + intros f If. apply filter_In in If. tauto.
    + intros p. split.
      * intros Ip. pose proof Ip as Ip'.
        apply resolveImportPath_paths in Ip'.
        destruct Ip' as (file & If & <-).
        apply in_map, filter_In. split; [exact If|].
        now apply includesPath_In.
      * intros Ip. apply in_map_iff in Ip. destruct Ip as (file & <- & If).
        apply filter_In in If. destruct If as [_ If].
        now apply includesPath_In.
Qed.

End AnyPathUtils.

Import SpecPathUtils Fixtures.

Lemma X7_import_with_extension_is_looked_up_as_written_witness :
  resolveImportPath "./utils/helper.mjs" "/project/src/App.ts"
    [helperTs; helperMjs] "/project"
  = findMatchingFiles "/project/src/utils/helper.mjs" [helperTs; helperMjs].
Proof.
  exact (X7_import_with_extension_is_looked_up_as_written
           "./utils/helper.mjs" "/project/src/App.ts" "/project"
           [helperTs; helperMjs] eq_refl eq_refl).
Defined.

End ResolverExtras.

(** ** The groups of a match *)

Module CaptureFacts.
Import JsString JsStringFacts Regex RegexSpec RegexFacts CaptureSpec.

Lemma capturedBy_within r r' n v :
  incl (groupsOf n r) (groupsOf n r') -> capturedBy r n v -> capturedBy r' n v.
Proof.
  intros I (g & s1 & s2 & Ig & M & E). exists g, s1, s2. auto.
Qed.

Lemma capturesAfter_refl r caps :
  (forall n, sets n r = false) -> capturesAfter r caps caps.
Proof.
  intros S. repeat split.
  - intros n v H. now left.
  - intros n v H. now exists v.
  - intros n H. rewrite S in H. discriminate.
Qed.

(** Two matches in a row, inside a pattern [r] that holds the groups of
    both. *)
Lemma capturesAfter_then r1 r2 r caps c1 c2 :
  (forall n, incl (groupsOf n r1) (groupsOf n r)) ->
  (forall n, incl (groupsOf n r2) (groupsOf n r)) ->
  (forall n, sets n r = true -> sets n r1 = true \/ sets n r2 = true) ->
  capturesAfter r1 caps c1 -> capturesAfter r2 c1 c2 ->
  capturesAfter r caps c2.
Proof.
  intros I1 I2 S (A1 & B1 & C1) (A2 & B2 & C2). repeat split.
  - intros n v H. destruct (A2 n v H) as [H1|H1].
    + destruct (A1 n v H1) as [H0|H0]; [now left | right].
      eapply capturedBy_within; [apply I1 | exact H0].
    + right. eapply capturedBy_within; [apply I2 | exact H1].
  - intros n v H. destruct (B1 n v H) as [v1 H1]. exact (B2 n v1 H1).
  - intros n H. destruct (S n H) as [H1|H2].
    + destruct (C1 n H1) as (v1 & L1 & K1).
      destruct (B2 n v1 L1) as [v2 L2]. exists v2. split; [exact L2|].
      destruct (A2 n v2 L2) as [L|K].
      * assert (v2 = v1) by congruence. subst.
        eapply capturedBy_within; [apply I1 | exact K1].
      * eapply capturedBy_within; [apply I2 | exact K].
    + destruct (C2 n H2) as (v2 & L2 & K2). exists v2. split; [exact L2|].
      eapply capturedBy_within; [apply I2 | exact K2].
Qed.

(** The matcher, with what it stores in the groups. *)
Lemma matchRe_captures (r : regex) :
  forall s caps k x,
    matchRe r s caps k = Some x ->
    exists s' caps',
      Matches r s s' /\ k s' caps' = Some x /\ capturesAfter r caps caps'.
Proof.
  induction r as [|p|r1 IH1 r2 IH2|r1 IH1 r2 IH2|r1 IH1|n r1 IH1|];
    intros s caps k x H; simpl in H.
  - exists s, caps. split; [constructor|]. split; [assumption|].
    apply capturesAfter_refl; reflexivity.
  - destruct s as [|c s]; [discriminate|].
    destruct (p c) eqn:E; [|discriminate].
    exists s, caps. split; [now constructor|]. split; [assumption|].
    apply capturesAfter_refl; reflexivity.
  - apply IH1 in H. destruct H as (s1 & c1 & M1 & H & R1).
    apply IH2 in H. destruct H as (s2 & c2 & M2 & H & R2).
    exists s2, c2. split; [econstructor; eassumption|]. split; [assumption|].
    eapply capturesAfter_then; [| | |exact R1|exact R2].
    + intros m. simpl. apply incl_appl, incl_refl.
    + intros m. simpl. apply incl_appr, incl_refl.
    + intros m. simpl. apply Bool.orb_true_iff.
  - destruct (matchRe r1 s caps k) eqn:E.
    + inversion H; subst. apply IH1 in E.
      destruct E as (s' & c' & M & E & (A & B & C)).
      exists s', c'. split; [now apply MAltL|]. split; [assumption|].
      repeat split.
      * intros m v L. destruct (A m v L) as [L0|K]; [now left | right].
        eapply capturedBy_within; [|exact K]. simpl. apply incl_appl, incl_refl.
      * exact B.
      * intros m S. simpl in S. apply Bool.andb_true_iff in S.
        destruct (C m (proj1 S)) as (v & L & K). exists v. split; [exact L|].
        eapply capturedBy_within; [|exact K]. simpl. apply incl_appl, incl_refl.
    + apply IH2 in H. destruct H as (s' & c' & M & H & (A & B & C)).
      exists s', c'. split; [now apply MAltR|]. split; [assumption|].
      repeat split.
      * intros m v L. destruct (A m v L) as [L0|K]; [now left | right].
        eapply capturedBy_within; [|exact K]. simpl. apply incl_appr, incl_refl.
      * exact B.
      * intros m S. simpl in S. apply Bool.andb_true_iff in S.
        destruct (C m (proj2 S)) as (v & L & K). exists v. split; [exact L|].
        eapply capturedBy_within; [|exact K]. simpl. apply incl_appr, incl_refl.
  - remember (String.length s) as fuel eqn:F. clear F.
    revert s caps H. induction fuel as [|fuel IHf]; intros s caps H.
    + exists s, caps. split; [constructor|]. split; [assumption|].
      apply capturesAfter_refl; reflexivity.
    + match type of H with
      | match ?m with _ => _ end = _ => destruct m eqn:E
      end.
      * inversion H; subst. apply IH1 in E.
        destruct E as (s1 & c1 & M1 & E & R1).
        destruct (String.length s1 <? String.length s)%nat; [|discriminate].
        apply IHf in E. destruct E as (s2 & c2 & M2 & E & R2).
        exists s2, c2. split; [econstructor; eassumption|].
        split; [assumption|].
        eapply (capturesAfter_then r1 (Star r1)); [| | |exact R1|exact R2].
        -- intros m. simpl. apply incl_refl.
        -- intros m. apply incl_refl.
        -- intros m S. simpl in S. discriminate.
      * exists s, caps. split; [constructor|]. split; [assumption|].
        apply capturesAfter_refl; reflexivity.
  - apply IH1 in H. destruct H as (s' & c' & M & H & (A & B & C)).
    eexists s', _. split; [now constructor|]. split; [eassumption|].
    assert (K0 : capturedBy (Group n r1) n (captured s s')).
    { exists r1, s, s'. simpl. rewrite Nat.eqb_refl. simpl. auto. }
    repeat split.
    + intros m v L. simpl in L. destruct (Nat.eqb n m) eqn:E.
      * inversion L; subst. apply Nat.eqb_eq in E. subst. now right.
      * destruct (A m v L) as [L0|K]; [now left | right].
        eapply capturedBy_within; [|exact K]. simpl. apply incl_appr, incl_refl.
    + intros m v L. simpl. destruct (Nat.eqb n m); [eauto|]. eapply B; exact L.
    + intros m S. simpl in S. simpl. destruct (Nat.eqb n m) eqn:E.
      * apply Nat.eqb_eq in E. subst. eauto.
      * simpl in S. destruct (C m S) as (v & L & K). exists v.
        split; [exact L|].
        eapply capturedBy_within; [|exact K]. simpl. apply incl_appr, incl_refl.
  - destruct s; [|discriminate].
    exists "", caps. split; [constructor|]. split; [assumption|].
    apply capturesAfter_refl; reflexivity.
Qed.

Lemma matchAt_captures (r : regex) (s : string) (len : nat) (caps : captures) :
  matchAt r s = Some (len, caps) ->
  (exists s', Matches r s s' /\ len = String.length s - String.length s')
  /\ (forall n v, lookup n caps = Some v -> capturedBy r n v)
  /\ (forall n, sets n r = true ->
                exists v, lookup n caps = Some v /\ capturedBy r n v).
Proof.
  unfold matchAt. intros H.
  destruct (matchRe r s [] (fun s' c0 => Some (s', c0))) as [[s' c']|] eqn:E;
    [|discriminate].
  inversion H; subst.
  apply matchRe_captures in E. destruct E as (s'' & c'' & M & E & (A & _ & C)).
  inversion E; subst. split; [now exists s'|]. split; [|exact C].
  intros n v L. destruct (A n v L) as [L0|K]; [discriminate | exact K].
Qed.

Lemma captured_append (w s' : string) : captured (w ++ s') s' = w.
Proof.
  unfold captured. rewrite length_append.
  replace (String.length w + String.length s' - String.length s')
    with (String.length w) by lia.
  induction w as [|c w IH]; simpl.
  - destruct s'; reflexivity.
  - now rewrite IH.
Qed.

Lemma classWithin_spec P p c :
  classWithin P p = true -> p c = true -> P c = true.
Proof.
  unfold classWithin. rewrite forallb_forall. intros H E.
  specialize (H c (allChars_complete c)). now rewrite E in H.
Qed.

Lemma forallChars_append P a b :
  forallChars P (a ++ b) = forallChars P a && forallChars P b.
Proof.
  induction a as [|c a IH]; simpl; [reflexivity|].
  now rewrite IH, Bool.andb_assoc.
Qed.

(** What a pattern consumes is made of characters of its classes. *)
Lemma Matches_classes P r s s' :
  classesWithin P r = true -> Matches r s s' ->
  exists w, s = (w ++ s')%string /\ forallChars P w = true.
Proof.
  intros C M. induction M; cbn [classesWithin] in C.
  - now exists "".
  - exists (String c ""). split; [reflexivity|]. simpl.
    now rewrite (classWithin_spec _ _ _ C H).
  - apply Bool.andb_true_iff in C. destruct C as [C1 C2].
    destruct (IHM1 C1) as (w1 & -> & F1). destruct (IHM2 C2) as (w2 & -> & F2).
    exists (w1 ++ w2)%string. rewrite append_assoc, forallChars_append, F1, F2.
    auto.
  - apply Bool.andb_true_iff in C. destruct C as [C1 C2]. auto.
  - apply Bool.andb_true_iff in C. destruct C as [C1 C2]. auto.
  - now exists "".
  - destruct (IHM1 C) as (w1 & -> & F1). destruct (IHM2 C) as (w2 & -> & F2).
    exists (w1 ++ w2)%string. rewrite append_assoc, forallChars_append, F1, F2.
    auto.
  - auto.
  - now exists "".
Qed.

(** The text of a group: its characters and its least length. *)
Lemma capturedBy_one_group P r n g v :
  groupsOf n r = [g] -> classesWithin P g = true -> capturedBy r n v ->
  forallChars P v = true /\ minLen g <= String.length v.
Proof.
  intros G C (g' & s1 & s2 & I & M & ->). rewrite G in I.
  destruct I as [<-|[]].
  destruct (Matches_classes P _ _ _ C M) as (w & -> & F).
  rewrite captured_append. split; [exact F|].
  apply Matches_minLen in M. rewrite length_append in M. lia.
Qed.

End CaptureFacts.

(** ** More on the scanners *)

Module ScannerFacts.
Import JsString JsStringFacts Regex RegexSpec RegexFacts CaptureSpec
  CaptureFacts ImportParser ImportParserFacts.

Lemma length_substring_prefix (n : nat) (s : string) :
  n <= String.length s -> String.length (substring 0 n s) = n.
Proof.
  revert n. induction s as [|c s IH]; intros [|n] L; simpl in *;
    try reflexivity; try lia.
  rewrite IH; [reflexivity | lia].
Qed.

Lemma substring_prefix_split (n : nat) (s : string) :
  exists rest, s = (substring 0 n s ++ rest)%string.
Proof.
  revert n. induction s as [|c s IH]; intros [|n]; simpl.
  - now exists "".
  - now exists "".
  - now exists (String c s).
  - destruct (IH n) as [rest E]. exists rest. now rewrite <- E.
Qed.

Lemma matchAt_length r s len caps :
  matchAt r s = Some (len, caps) -> len <= String.length s.
Proof.
  intros H. apply matchAt_sound in H. destruct H as (s' & _ & ->). lia.
Qed.

(** Where a match of the loop sits in the line. *)
Lemma execAll_In r m : forall s idx skip,
  In m (execAll r idx skip s) ->
  exists pre rest,
    s = (pre ++ text m ++ rest)%string
    /\ index m = idx + String.length pre
    /\ matchAt r (text m ++ rest) = Some (String.length (text m), groups m).
Proof.
  induction s as [|c s IH]; intros idx skip I; [contradiction|].
  assert (Later : forall k,
             In m (execAll r (S idx) k s) ->
             exists pre rest,
               String c s = (pre ++ text m ++ rest)%string
               /\ index m = idx + String.length pre
               /\ matchAt r (text m ++ rest)
                  = Some (String.length (text m), groups m)).
  { intros k Ik. destruct (IH _ _ Ik) as (pre & rest & E & Ei & Em).
    exists (String c pre), rest. simpl. rewrite <- E.
    repeat split; [lia | exact Em]. }
  destruct skip as [|skip]; [|now apply (Later skip)].
  rewrite execAll_cons in I.
  destruct (matchAt r (String c s)) as [[len caps]|] eqn:E;
    [|now apply (Later 0)].
  destruct I as [<-|I]; [|now apply (Later (len - 1))].
  destruct (substring_prefix_split len (String c s)) as [rest Er].
  exists "", rest. cbn [text index groups].
  change ("" ++ substring 0 len (String c s) ++ rest)%string
    with (substring 0 len (String c s) ++ rest)%string.
  rewrite <- Er, (length_substring_prefix _ _ (matchAt_length _ _ _ _ E)).
  repeat split; [simpl; lia | exact E].
Qed.

Lemma forLines_In scan r : forall lines lineIndex,
  In r (forLines scan lineIndex lines) ->
  exists k line, nth_error lines k = Some line /\ In r (scan (lineIndex + k) line).
Proof.
  induction lines as [|l lines IH]; intros lineIndex I; simpl in I;
    [contradiction|].
  apply in_app_or in I. destruct I as [I|I].
  - exists 0, l. rewrite Nat.add_0_r. now split.
  - destruct (IH _ I) as (k & line & N & Ir). exists (S k), line.
    split; [exact N|]. now replace (lineIndex + S k) with (S lineIndex + k) by lia.
Qed.

(** The fields of a record made from a match of one of the patterns of
    the scanners. *)
Lemma record_span r t lineIndex line m rec :
  In r [Js.importRegex; Js.dynamicImportRegex; Js.requireRegex;
        Py.importRegex; Py.fromRegex; Css.importRegex] ->
  In m (execAll r 0 0 line) -> rec = record t lineIndex m ->
  startLine rec = lineIndex + 1 /\ endLine rec = lineIndex + 1
  /\ endColumn rec = startColumn rec + String.length (originalText rec)
  /\ startColumn rec < String.length line
  /\ exists pre rest,
       line = (pre ++ originalText rec ++ rest)%string
       /\ startColumn rec = String.length pre.
Proof.
  intros Ir Im ->. simpl.
  destruct (execAll_In _ _ _ _ _ Im) as (pre & rest & E & Ei & Em).
  pose proof (scanner_patterns_nonempty _ _ _ _ Ir Em) as N.
  repeat split; try reflexivity.
  - rewrite E, !length_append. simpl in Ei. lia.
  - exists pre, rest. now split.
Qed.

Lemma jsScan_span lineIndex line rec :
  In rec (Js.scanLine lineIndex line) ->
  startLine rec = lineIndex + 1 /\ endLine rec = lineIndex + 1
  /\ endColumn rec = startColumn rec + String.length (originalText rec)
  /\ startColumn rec < String.length line
  /\ exists pre rest,
       line = (pre ++ originalText rec ++ rest)%string
       /\ startColumn rec = String.length pre.
Proof.
  unfold Js.scanLine. intros I.
  apply in_app_or in I. destruct I as [I|I];
    [|apply in_app_or in I; destruct I as [I|I]];
    apply in_map_iff in I; destruct I as (m & E & I).
  - apply filter_In in I. destruct I as [I _].
    eapply (record_span Js.importRegex); [now left | exact I | symmetry; exact E].
  - eapply (record_span Js.dynamicImportRegex);
      [right; now left | exact I | symmetry; exact E].
  - eapply (record_span Js.requireRegex);
      [right; right; now left | exact I | symmetry; exact E].
Qed.

Lemma cssScan_span lineIndex line rec :
  In rec (Css.scanLine lineIndex line) ->
  startLine rec = lineIndex + 1 /\ endLine rec = lineIndex + 1
  /\ endColumn rec = startColumn rec + String.length (originalText rec)
  /\ startColumn rec < String.length line.
Proof.
  unfold Css.scanLine. intros I.
  apply in_map_iff in I. destruct I as (m & E & I).
  destruct (record_span Css.importRegex css_import lineIndex line m rec)
    as (A & B & C & D & _);
    [do 5 right; now left | exact I | symmetry; exact E |].
  auto.
Qed.

Lemma pyScan_span lineIndex line rec :
  In rec (Py.scanLine lineIndex line) ->
  startLine rec = lineIndex + 1 /\ endLine rec = lineIndex + 1
  /\ endColumn rec = startColumn rec + String.length (originalText rec)
  /\ startColumn rec < String.length line.
Proof.
  unfold Py.scanLine. intros I.
  apply in_app_or in I. destruct I as [I|I].
  - apply in_flat_map in I. destruct I as (m & Im & I).
    unfold Py.moduleRecords in I. apply in_map_iff in I.
    destruct I as (module & <- & _). simpl.
    destruct (execAll_In _ _ _ _ _ Im) as (pre & rest & E & Ei & Em).
    assert (N : 0 < String.length (text m)).
    { eapply (scanner_patterns_nonempty Py.importRegex);
        [do 3 right; now left | exact Em]. }
    repeat split. rewrite E, !length_append. simpl in Ei. lia.
  - apply in_map_iff in I. destruct I as (m & E & I).
    destruct (record_span Py.fromRegex from_ lineIndex line m rec)
      as (A & B & C & D & _);
      [do 4 right; now left | exact I | symmetry; exact E |].
    auto.
Qed.

Lemma forallChars_no_quote v :
  forallChars (fun c => negb (isQuote c)) v = true -> countQuotes v = 0.
Proof.
  induction v as [|c v IH]; simpl; [reflexivity|].
  intros H. apply Bool.andb_true_iff in H. destruct H as [H1 H2].
  apply Bool.negb_true_iff in H1. rewrite H1, (IH H2). reflexivity.
Qed.

(** The path of a record of the scanner for script files. *)
Lemma js_group_path r m rest :
  In r [Js.importRegex; Js.dynamicImportRegex; Js.requireRegex] ->
  matchAt r (text m ++ rest) = Some (String.length (text m), groups m) ->
  group 1 m <> EmptyString /\ countQuotes (group 1 m) = 0.
Proof.
  intros Ir Em. apply matchAt_captures in Em. destruct Em as (_ & _ & C).
  assert (S1 : sets 1 r = true)
    by (simpl in Ir; repeat (destruct Ir as [<-|Ir]; [reflexivity|]);
        contradiction).
  destruct (C 1 S1) as (v & L & K).
  assert (G : groupsOf 1 r = [plus notQuote])
    by (simpl in Ir; repeat (destruct Ir as [<-|Ir]; [reflexivity|]);
        contradiction).
  destruct (capturedBy_one_group (fun c => negb (isQuote c)) r 1 _ v G)
    as [F Len]; [vm_compute; reflexivity | exact K |].
  unfold group. rewrite L. split.
  - intros ->. simpl in Len. lia.
  - now apply forallChars_no_quote.
Qed.

Lemma jsScan_path lineIndex line rec :
  In rec (Js.scanLine lineIndex line) ->
  path rec <> EmptyString /\ countQuotes (path rec) = 0.
Proof.
  unfold Js.scanLine. intros I.
  apply in_app_or in I. destruct I as [I|I];
    [|apply in_app_or in I; destruct I as [I|I]];
    apply in_map_iff in I; destruct I as (m & <- & I); simpl.
  - apply filter_In in I. destruct I as [I _].
    destruct (execAll_In _ _ _ _ _ I) as (pre & rest & _ & _ & Em).
    eapply (js_group_path Js.importRegex); [now left | exact Em].
  - destruct (execAll_In _ _ _ _ _ I) as (pre & rest & _ & _ & Em).
    eapply (js_group_path Js.dynamicImportRegex); [right; now left | exact Em].
  - destruct (execAll_In _ _ _ _ _ I) as (pre & rest & _ & _ & Em).
    eapply (js_group_path Js.requireRegex); [right; right; now left | exact Em].
Qed.

(** *** Module names of the import statement of Python *)

Lemma forallChars_split P c s :
  forallChars P s = true ->
  forall x, In x (split c s) -> forallChars P x = true.
Proof.
  induction s as [|a s IH]; simpl; intros H x I.
  - destruct I as [<-|[]]. reflexivity.
  - apply Bool.andb_true_iff in H. destruct H as [Ha Hs].
    destruct (Ascii.eqb a c).
    + destruct I as [<-|I]; [reflexivity | now apply IH].
    + destruct (split c s) as [|h t] eqn:E.
      * destruct I as [<-|[]]. simpl. now rewrite Ha.
      * destruct I as [<-|I].
        -- simpl. rewrite Ha. apply (IH Hs). now left.
        -- apply (IH Hs). now right.
Qed.

Lemma forallChars_trimStart P s :
  forallChars P s = true -> forallChars P (trimStart s) = true.
Proof.
  induction s as [|c s IH]; simpl; [auto|].
  intros H. destruct (isSpace c); [|exact H].
  apply Bool.andb_true_iff in H. now apply IH.
Qed.

Lemma forallChars_trimEnd P s :
  forallChars P s = true -> forallChars P (trimEnd s) = true.
Proof.
  induction s as [|c s IH]; simpl; [auto|].
  intros H. apply Bool.andb_true_iff in H. destruct H as [Hc Hs].
  specialize (IH Hs).
  destruct (trimEnd s) as [|d t].
  - destruct (isSpace c); [reflexivity | simpl; now rewrite Hc].
  - simpl. simpl in IH. now rewrite Hc, IH.
Qed.

Lemma forallChars_trim P s :
  forallChars P s = true -> forallChars P (trim s) = true.
Proof.
  intros H. unfold trim. now apply forallChars_trimEnd, forallChars_trimStart.
Qed.

Lemma prefix_needs_first_char P c t x :
  forallChars P x = true -> P c = false -> String.prefix (String c t) x = false.
Proof.
  intros F N. destruct x as [|b x]; simpl; [reflexivity|].
  destruct (ascii_dec c b) as [<-|]; [|reflexivity].
  simpl in F. rewrite N in F. discriminate.
Qed.

Lemma includes_needs_first_char P c t x :
  forallChars P x = true -> P c = false -> includes x (String c t) = false.
Proof.
  intros F N. induction x as [|b x IH].
  - reflexivity.
  - change (includes (String b x) (String c t))
      with (if String.prefix (String c t) (String b x) then true
            else includes x (String c t)).
    rewrite (prefix_needs_first_char P c t _ F N).
    apply IH. simpl in F. apply Bool.andb_true_iff in F. tauto.
Qed.

(** A name without separator and without dot is not a local import. *)
Lemma isLocalImport_plain_name x :
  forallChars notSlashNorDot x = true -> isLocalImport x = false.
Proof.
  intros F. unfold isLocalImport, startsWith.
  destruct (String.eqb x EmptyString); [reflexivity|].
  destruct (String.prefix "http://" x || String.prefix "https://" x);
    [reflexivity|].
  rewrite !(prefix_needs_first_char notSlashNorDot _ _ x F) by reflexivity.
  rewrite !(includes_needs_first_char notSlashNorDot _ _ x F) by reflexivity.
  reflexivity.
Qed.

Lemma py_import_group m rest :
  matchAt Py.importRegex (text m ++ rest)
  = Some (String.length (text m), groups m) ->
  forallChars notSlashNorDot (group 1 m) = true.
Proof.
  intros Em. apply matchAt_captures in Em. destruct Em as (_ & A & _).
  unfold group. destruct (lookup 1 (groups m)) as [v|] eqn:L; [|reflexivity].
  pose proof (A 1 v L) as K.
  eapply (capturedBy_one_group notSlashNorDot Py.importRegex 1);
    [reflexivity | vm_compute; reflexivity | exact K].
Qed.

Lemma pyScan_plain_import lineIndex line rec :
  In rec (Py.scanLine lineIndex line) -> type rec = import_ ->
  isLocalImport (path rec) = false.
Proof.
  unfold Py.scanLine. intros I T.
  apply in_app_or in I. destruct I as [I|I].
  - apply in_flat_map in I. destruct I as (m & Im & I).
    unfold Py.moduleRecords in I. apply in_map_iff in I.
    destruct I as (module & <- & I). simpl.
    apply in_map_iff in I. destruct I as (piece & <- & I).
    destruct (execAll_In _ _ _ _ _ Im) as (pre & rest & _ & _ & Em).
    apply isLocalImport_plain_name, forallChars_trim.
    eapply forallChars_split; [|exact I].
    eapply py_import_group; exact Em.
  - apply in_map_iff in I. destruct I as (m & <- & _). simpl in T.
    discriminate.
Qed.

End ScannerFacts.

Module ScannerExtras.
Import JsString JsStringFacts Regex RegexSpec RegexFacts CaptureSpec
  CaptureFacts ImportParser ImportParserFacts ScannerFacts.

(** X9: every record of parseFileImports, in any of the three languages,
    lies in one line of the content: its two line numbers are the number
    of that line, counted from one, its start column is inside the line,
    and its end column is the start column plus the length of its
    text. *)
Theorem X9_records_lie_in_one_line (content filePath : string)
    (rec : ImportInfo) :
  In rec (parseFileImports content filePath) ->
  exists line,
    nth_error (split newline content) (startLine rec - 1) = Some line
    /\ 1 <= startLine rec /\ endLine rec = startLine rec
    /\ startColumn rec < String.length line
    /\ endColumn rec = startColumn rec + String.length (originalText rec).
Proof.
  unfold parseFileImports. intros I.
  destruct (extensionOf filePath) as [e|]; [|contradiction].
  destruct (isJsExtension e);
    [|destruct (String.eqb e "py");
      [|destruct (isCssExtension e); [|contradiction]]];
    apply forLines_In in I; destruct I as (k & line & N & I); simpl in I;
    exists line.
  - destruct (jsScan_span _ _ _ I) as (A & B & C & D & _).
    rewrite A, B. replace (k + 1 - 1) with k by lia.
    repeat split; try assumption; lia.
  - destruct (pyScan_span _ _ _ I) as (A & B & C & D).
    rewrite A, B. replace (k + 1 - 1) with k by lia.
    repeat split; try assumption; lia.
  - destruct (cssScan_span _ _ _ I) as (A & B & C & D).
    rewrite A, B. replace (k + 1 - 1) with k by lia.
    repeat split; try assumption; lia.
Qed.

(** X10: for a record of the scanner of script files the text of the
    record is the text of its line between the start column and the end
    column, and its path is not empty and holds no quote character. *)
Theorem X10_script_records_text_and_path (content : string)
    (rec : ImportInfo) :
  In rec (parseJavaScriptImports content) ->
  (exists line pre rest,
     nth_error (split newline content) (startLine rec - 1) = Some line
     /\ line = (pre ++ originalText rec ++ rest)%string
     /\ startColumn rec = String.length pre
     /\ endColumn rec = String.length (pre ++ originalText rec))
  /\ path rec <> EmptyString
  /\ countQuotes (path rec) = 0.
Proof.
  unfold parseJavaScriptImports. intros I.
  apply forLines_In in I. destruct I as (k & line & N & I). simpl in I.
  split; [|now apply (jsScan_path k line)].
  destruct (jsScan_span _ _ _ I) as (A & _ & C & _ & (pre & rest & E & Ec)).
  exists line, pre, rest. rewrite A. replace (k + 1 - 1) with k by lia.
  repeat split; try assumption.
  rewrite C, Ec, length_append. reflexivity.
Qed.

(** X11: in a Python file the modules of a statement import a, b, c are
    never local import paths: only statements of the form from m import n
    can contribute to extractLocalImportPaths. *)
Theorem X11_python_plain_imports_are_not_local (content : string)
    (rec : ImportInfo) :
  In rec (parsePythonImports content) -> type rec = import_ ->
  isLocalImport (path rec) = false.
Proof.
  unfold parsePythonImports. intros I T.
  apply forLines_In in I. destruct I as (k & line & _ & I).
  eapply pyScan_plain_import; eassumption.
Qed.

Lemma X9_records_lie_in_one_line_witness :
  exists line,
    nth_error (split newline twoImports) 1 = Some line
    /\ 1 <= 2 /\ 2 = 2 /\ 0 < String.length line
    /\ 25 = 0 + String.length "import React from 'react'".
Proof.
  apply (X9_records_lie_in_one_line twoImports "App.ts"
           (mkImportInfo import_ "react" "import React from 'react'"
              2 0 2 25)).
  vm_compute. tauto.
Defined.

Lemma X10_script_records_text_and_path_witness :
  (exists line pre rest,
     nth_error (split newline twoImports) 1 = Some line
     /\ line = (pre ++ "import React from 'react'" ++ rest)%string
     /\ 0 = String.length pre
     /\ 25 = String.length (pre ++ "import React from 'react'"))
  /\ "react" <> EmptyString
  /\ countQuotes "react" = 0.
Proof.
  apply (X10_script_records_text_and_path twoImports
           (mkImportInfo import_ "react" "import React from 'react'"
              2 0 2 25)).
  vm_compute. tauto.
Defined.

Lemma X11_python_plain_imports_are_not_local_witness :
  isLocalImport "os" = false.
Proof.
  apply (X11_python_plain_imports_are_not_local "import os, sys"
           (mkImportInfo import_ "os" "import os" 1 0 1 9));
    [vm_compute; tauto | reflexivity].
Defined.

End ScannerExtras.

(** ** More on the import extractor *)

Module ExtractorExtras.
Import JsString JsStringFacts ImportParser ImportParserFacts.

Lemma includes_unfold x a :
  includes x a
  = if String.prefix a x then true
    else match x with
         | EmptyString => false
         | String _ x' => includes x' a
         end.
Proof. destruct x; reflexivity. Qed.

Lemma prefix_includes a x : String.prefix a x = true -> includes x a = true.
Proof. intros H. now rewrite includes_unfold, H. Qed.

Lemma includes_later c x a : includes x a = true -> includes (String c x) a = true.
Proof.
  intros H. rewrite includes_unfold. now destruct (String.prefix a (String c x)).
Qed.

Lemma prefix_shorter a b x :
  String.prefix (a ++ b) x = true -> String.prefix a x = true.
Proof.
  revert x. induction a as [|c a IH]; intros x H.
  - now destruct x.
  - destruct x as [|d x]; simpl in *; [discriminate|].
    destruct (ascii_dec c d); [now apply IH | discriminate].
Qed.

Lemma includes_shorter a b x :
  includes x (a ++ b) = true -> includes x a = true.
Proof.
  induction x as [|c x IH]; rewrite (includes_unfold _ (a ++ b)%string).
  - destruct (String.prefix (a ++ b) "") eqn:E; [|discriminate].
    intros _. apply prefix_includes. eapply prefix_shorter; exact E.
  - destruct (String.prefix (a ++ b) (String c x)) eqn:E.
    + intros _. apply prefix_includes. eapply prefix_shorter; exact E.
    + intros H. now apply includes_later, IH.
Qed.

Lemma prefix_tail c a x :
  String.prefix (String c a) x = true ->
  exists x', x = String c x' /\ String.prefix a x' = true.
Proof.
  destruct x as [|d x]; simpl; [discriminate|].
  destruct (ascii_dec c d) as [<-|]; [|discriminate]. eauto.
Qed.

(** A path that starts with ./ or ../ or / holds the separator. *)
Lemma relative_prefix_has_separator p :
  startsWith p "./" || startsWith p "../" || startsWith p "/" = true ->
  includes p "/" = true.
Proof.
  unfold startsWith. intros H.
  apply Bool.orb_true_iff in H. destruct H as [H|H];
    [apply Bool.orb_true_iff in H; destruct H as [H|H]|].
  - apply prefix_tail in H. destruct H as (x1 & -> & H).
    now apply includes_later, prefix_includes.
  - apply prefix_tail in H. destruct H as (x1 & -> & H).
    apply prefix_tail in H. destruct H as (x2 & -> & H).
    now apply includes_later, includes_later, prefix_includes.
  - now apply prefix_includes.
Qed.

(** X12: isLocalImport holds exactly for the strings that do not start
    with http:// or https:// and that hold the separator of paths or one
    of the substrings .js, .ts, .py, .css, .scss, .sass. *)
Theorem X12_isLocalImport_characterised (importPath : string) :
  isLocalImport importPath
  = negb (startsWith importPath "http://" || startsWith importPath "https://")
    && (includes importPath "/" || includes importPath ".js"
        || includes importPath ".ts" || includes importPath ".py"
        || includes importPath ".css" || includes importPath ".scss"
        || includes importPath ".sass").
Proof.
  unfold isLocalImport.
  destruct (String.eqb importPath EmptyString) eqn:E0.
  { apply String.eqb_eq in E0. subst. reflexivity. }
  destruct (startsWith importPath "http://" || startsWith importPath "https://");
    [reflexivity|].
  destruct (startsWith importPath "./" || startsWith importPath "../"
            || startsWith importPath "/") eqn:A.
  { now rewrite (relative_prefix_has_separator _ A). }
  pose proof (includes_shorter ".js" "x" importPath) as J.
  pose proof (includes_shorter ".ts" "x" importPath) as T.
  change (".js" ++ "x")%string with ".jsx" in J.
  change (".ts" ++ "x")%string with ".tsx" in T.
  revert J T.
  destruct (includes importPath "/"), (includes importPath ".js"),
    (includes importPath ".ts"), (includes importPath ".jsx"),
    (includes importPath ".tsx"), (includes importPath ".py"),
    (includes importPath ".css"), (includes importPath ".scss"),
    (includes importPath ".sass"); intros J T; try reflexivity;
    try discriminate (J eq_refl); try discriminate (T eq_refl).
Qed.

Lemma append_same_length_r (w e : string) : w = (w ++ e)%string -> e = "".
Proof.
  intros H. apply (f_equal String.length) in H.
  rewrite length_append in H. destruct e; [reflexivity | simpl in H; lia].
Qed.

(** X13: stripSourceExtension removes at most one final extension, one
    of .js, .ts, .jsx, .tsx and .py, and nothing else of the path; it
    changes the path exactly when the path ends with one of the five. *)
Theorem X13_strip_removes_one_script_extension (p : string) :
  (exists ext,
     In ext [""; ".js"; ".ts"; ".jsx"; ".tsx"; ".py"]
     /\ p = (stripSourceExtension p ++ ext)%string)
  /\ (stripSourceExtension p = p
      <-> endsWith p ".js" || endsWith p ".ts" || endsWith p ".jsx"
          || endsWith p ".tsx" || endsWith p ".py" = false).
Proof.
  assert (Js : forall ext, In ext [".js"; ".ts"; ".jsx"; ".tsx"] ->
                           endsWith p ext = true ->
                           p = (stripSourceExtension p ++ ext)%string
                           /\ stripSourceExtension p <> p).
  { intros ext I E. apply endsWith_spec in E. destruct E as [w ->].
    rewrite (strip_js w ext I). split; [reflexivity|].
    intros H. apply append_same_length_r in H. subst ext.
    simpl in I. intuition discriminate. }
  assert (Py : endsWith p ".py" = true ->
               p = (stripSourceExtension p ++ ".py")%string
               /\ stripSourceExtension p <> p).
  { intros E. apply endsWith_spec in E. destruct E as [w ->].
    rewrite (strip_py w). split; [reflexivity|].
    intros H. apply append_same_length_r in H. discriminate. }
  destruct (endsWith p ".js") eqn:E1.
  { destruct (Js ".js") as [A B]; [simpl; tauto | exact E1 |].
    split; [exists ".js"; split; [simpl; tauto | exact A]|].
    split; [intros H; contradiction | discriminate]. }
  destruct (endsWith p ".ts") eqn:E2.
  { destruct (Js ".ts") as [A B]; [simpl; tauto | exact E2 |].
    split; [exists ".ts"; split; [simpl; tauto | exact A]|].
    split; [intros H; contradiction | discriminate]. }
  destruct (endsWith p ".jsx") eqn:E3.
  { destruct (Js ".jsx") as [A B]; [simpl; tauto | exact E3 |].
    split; [exists ".jsx"; split; [simpl; tauto | exact A]|].
    split; [intros H; contradiction | discriminate]. }
  destruct (endsWith p ".tsx") eqn:E4.
  { destruct (Js ".tsx") as [A B]; [simpl; tauto | exact E4 |].
    split; [exists ".tsx"; split; [simpl; tauto | exact A]|].
    split; [intros H; contradiction | discriminate]. }
  destruct (endsWith p ".py") eqn:E5.
  { destruct (Py eq_refl) as [A B].
    split; [exists ".py"; split; [simpl; tauto | exact A]|].
    split; [intros H; contradiction | discriminate]. }
  assert (S : stripSourceExtension p = p).
  { unfold stripSourceExtension. now rewrite E1, E2, E3, E4, E5. }
  split.
  - exists "". split; [simpl; tauto|]. rewrite S.
    clear. induction p as [|c p IH]; simpl; [reflexivity | now rewrite <- IH].
  - split; [reflexivity | intros _; exact S].
Qed.

Import ImportParserRest.

Lemma setAdd_NoDup k s : NoDup s -> NoDup (PathResolver.setAdd k s).
Proof.
  intros N. unfold PathResolver.setAdd.
  destruct (PathResolver.setHas k s) eqn:E; [exact N|].
  apply NoDup_app; [exact N | repeat constructor; intros [] |].
  intros x Ix [<-|[]].
  unfold PathResolver.setHas in E.
  assert (T : existsb (String.eqb k) s = true)
    by (apply existsb_exists; exists k; split;
        [exact Ix | apply String.eqb_refl]).
  congruence.
Qed.

Lemma setAdd_members k s x :
  In x (PathResolver.setAdd k s) <-> In x s \/ x = k.
Proof.
  unfold PathResolver.setAdd.
  destruct (PathResolver.setHas k s) eqn:E.
  - split; [tauto|]. intros [H| ->]; [exact H|].
    unfold PathResolver.setHas in E. apply existsb_exists in E.
    destruct E as (y & Iy & Ey). apply String.eqb_eq in Ey. now subst.
  - rewrite in_app_iff. simpl. intuition.
Qed.

Lemma setAddAll_spec l : forall s,
  NoDup s ->
  NoDup (setAddAll l s)
  /\ forall x, In x (setAddAll l s) <-> In x s \/ In x l.
Proof.
  induction l as [|a l IH]; intros s N; simpl.
  - split; [exact N | intros x; tauto].
  - destruct (IH _ (setAdd_NoDup a s N)) as [N' M]. split; [exact N'|].
    intros x. rewrite M, setAdd_members. intuition.
Qed.

Lemma collectImports_spec files : forall s,
  NoDup s ->
  NoDup (collectImports files s)
  /\ forall x,
       In x (collectImports files s)
       <-> In x s
           \/ exists file,
                In file files
                /\ In x (extractLocalImportPaths (content file) (path file)).
Proof.
  induction files as [|f files IH]; intros s N; simpl.
  - split; [exact N|]. intros x. split; [tauto|].
    intros [H|(file & [] & _)]. exact H.
  - destruct (setAddAll_spec
                (extractLocalImportPaths (content f) (path f)) s N)
      as [N1 M1].
    destruct (IH _ N1) as [N2 M2]. split; [exact N2|].
    intros x. rewrite M2, M1. split.
    + intros [[H|H]|(file & I & H)]; [now left | right | right].
      * exists f. split; [now left | exact H].
      * exists file. split; [now right | exact H].
    + intros [H|(file & [<-|I] & H)]; [left; now left | left; now right|].
      right. now exists file.
Qed.

(** X14: getAllLocalImports returns every local import path of every
    file exactly once: the result has no duplicate, and a path is in it
    exactly when extractLocalImportPaths gives it for one of the files. *)
Theorem X14_getAllLocalImports_is_the_union (files : list SourceFile) :
  NoDup (getAllLocalImports files)
  /\ forall x,
       In x (getAllLocalImports files)
       <-> exists file,
             In file files
             /\ In x (extractLocalImportPaths (content file) (path file)).
Proof.
  unfold getAllLocalImports.
  destruct (collectImports_spec files [] (NoDup_nil _)) as [N M].
  split; [exact N|]. intros x. rewrite M. split.
  - intros [[]|H]. exact H.
  - intros H. now right.
Qed.

End ExtractorExtras.

(** ** More on the scanners for Python and for style sheets *)

Module ScannerExtras2.
Import JsString JsStringFacts Regex RegexSpec RegexFacts CaptureSpec
  CaptureFacts ImportParser ImportParserFacts ScannerFacts ExtractorExtras.

Lemma forallChars_weaken (P Q : ascii -> bool) s :
  (forall c, P c = true -> Q c = true) ->
  forallChars P s = true -> forallChars Q s = true.
Proof.
  intros W. induction s as [|c s IH]; simpl; [auto|].
  intros H. apply Bool.andb_true_iff in H. destruct H as [H1 H2].
  now rewrite (W c H1), (IH H2).
Qed.

Lemma url_has_separator x :
  startsWith x "http://" || startsWith x "https://" = true ->
  includes x "/" = true.
Proof.
  unfold startsWith. intros H. apply Bool.orb_true_iff in H.
  destruct H as [H|H].
  - do 5 (apply prefix_tail in H; destruct H as (? & -> & H)).
    do 5 apply includes_later. apply prefix_includes.
    now apply (prefix_shorter "/" "/").
  - do 6 (apply prefix_tail in H; destruct H as (? & -> & H)).
    do 6 apply includes_later. apply prefix_includes.
    now apply (prefix_shorter "/" "/").
Qed.

(** Without a separator, only the extension substrings make a string a
    local import. *)
Lemma isLocalImport_without_separator x :
  forallChars notSlash x = true ->
  isLocalImport x
  = includes x ".js" || includes x ".ts" || includes x ".py"
    || includes x ".css" || includes x ".scss" || includes x ".sass".
Proof.
  intros F.
  assert (S : includes x "/" = false)
    by (apply (includes_needs_first_char notSlash); [exact F | reflexivity]).
  unfold isLocalImport.
  destruct (String.eqb x EmptyString) eqn:E0.
  { apply String.eqb_eq in E0. subst. reflexivity. }
  destruct (startsWith x "http://" || startsWith x "https://") eqn:U.
  { apply url_has_separator in U. congruence. }
  destruct (startsWith x "./" || startsWith x "../" || startsWith x "/") eqn:A.
  { apply relative_prefix_has_separator in A. congruence. }
  rewrite S.
  pose proof (includes_shorter ".js" "x" x) as J.
  pose proof (includes_shorter ".ts" "x" x) as T.
  change (".js" ++ "x")%string with ".jsx" in J.
  change (".ts" ++ "x")%string with ".tsx" in T.
  revert J T.
  destruct (includes x ".js"), (includes x ".ts"), (includes x ".jsx"),
    (includes x ".tsx"), (includes x ".py"), (includes x ".css"),
    (includes x ".scss"), (includes x ".sass"); intros J T; try reflexivity;
    try discriminate (J eq_refl); try discriminate (T eq_refl).
Qed.

Lemma py_from_group m rest :
  matchAt Py.fromRegex (text m ++ rest)
  = Some (String.length (text m), groups m) ->
  forallChars notSlash (group 1 m) = true.
Proof.
  intros Em. apply matchAt_captures in Em. destruct Em as (_ & A & _).
  unfold group. destruct (lookup 1 (groups m)) as [v|] eqn:L; [|reflexivity].
  pose proof (A 1 v L) as K.
  eapply (capturedBy_one_group notSlash Py.fromRegex 1);
    [reflexivity | vm_compute; reflexivity | exact K].
Qed.

Lemma pyScan_no_separator lineIndex line rec :
  In rec (Py.scanLine lineIndex line) -> forallChars notSlash (path rec) = true.
Proof.
  unfold Py.scanLine. intros I.
  apply in_app_or in I. destruct I as [I|I].
  - apply in_flat_map in I. destruct I as (m & Im & I).
    unfold Py.moduleRecords in I. apply in_map_iff in I.
    destruct I as (module & <- & I). simpl.
    apply in_map_iff in I. destruct I as (piece & <- & I).
    destruct (execAll_In _ _ _ _ _ Im) as (pre & rest & _ & _ & Em).
    apply forallChars_trim. eapply forallChars_split; [|exact I].
    apply (forallChars_weaken notSlashNorDot).
    + intros c. unfold notSlashNorDot, notSlash.
      destruct (Ascii.eqb c "/"); [discriminate | reflexivity].
    + eapply py_import_group; exact Em.
  - apply in_map_iff in I. destruct I as (m & <- & I). simpl.
    destruct (execAll_In _ _ _ _ _ I) as (pre & rest & _ & _ & Em).
    eapply py_from_group; exact Em.
Qed.

Lemma css_group_path m rest :
  matchAt Css.importRegex (text m ++ rest)
  = Some (String.length (text m), groups m) ->
  group 1 m <> EmptyString /\ forallChars cssPathChar (group 1 m) = true.
Proof.
  intros Em. apply matchAt_captures in Em. destruct Em as (_ & _ & C).
  destruct (C 1 eq_refl) as (v & L & K).
  destruct (capturedBy_one_group cssPathChar Css.importRegex 1 _ v eq_refl)
    as [F Len]; [vm_compute; reflexivity | exact K |].
  unfold group. rewrite L. split; [|exact F].
  intros ->. simpl in Len. lia.
Qed.

(** X15: the path of every record of the scanner for style sheets is not
    empty and holds no quote character, no white space and no closing
    parenthesis. *)
Theorem X15_stylesheet_record_paths (content : string) (rec : ImportInfo) :
  In rec (parseCSSImports content) ->
  path rec <> EmptyString /\ forallChars cssPathChar (path rec) = true.
Proof.
  unfold parseCSSImports. intros I.
  apply forLines_In in I. destruct I as (k & line & _ & I).
  unfold Css.scanLine in I. apply in_map_iff in I.
  destruct I as (m & <- & I). simpl.
  destruct (execAll_In _ _ _ _ _ I) as (pre & rest & _ & _ & Em).
  eapply css_group_path; exact Em.
Qed.

(** X16: the path of a record of the scanner for Python never holds the
    separator of paths, so that it is a local import exactly when it holds
    one of the substrings .js, .ts, .py, .css, .scss, .sass. *)
Theorem X16_python_records_are_local_by_substring_only (content : string)
    (rec : ImportInfo) :
  In rec (parsePythonImports content) ->
  includes (path rec) "/" = false
  /\ isLocalImport (path rec)
     = includes (path rec) ".js" || includes (path rec) ".ts"
       || includes (path rec) ".py" || includes (path rec) ".css"
       || includes (path rec) ".scss" || includes (path rec) ".sass".
Proof.
  unfold parsePythonImports. intros I.
  apply forLines_In in I. destruct I as (k & line & _ & I).
  pose proof (pyScan_no_separator _ _ _ I) as F. split.
  - apply (includes_needs_first_char notSlash); [exact F | reflexivity].
  - now apply isLocalImport_without_separator.
Qed.

Lemma X15_stylesheet_record_paths_witness :
  "./base.css" <> EmptyString /\ forallChars cssPathChar "./base.css" = true.
Proof.
  apply (X15_stylesheet_record_paths "@import url('./base.css');"
           (mkImportInfo css_import "./base.css" "@import url('./base.css')"
              1 0 1 25)).
  vm_compute. tauto.
Defined.

Lemma X16_python_records_are_local_by_substring_only_witness :
  includes "pkg.python_tools" "/" = false
  /\ isLocalImport "pkg.python_tools"
     = includes "pkg.python_tools" ".js" || includes "pkg.python_tools" ".ts"
       || includes "pkg.python_tools" ".py"
       || includes "pkg.python_tools" ".css"
       || includes "pkg.python_tools" ".scss"
       || includes "pkg.python_tools" ".sass".
Proof.
  apply (X16_python_records_are_local_by_substring_only
           "from pkg.python_tools import run"
           (mkImportInfo from_ "pkg.python_tools"
              "from pkg.python_tools import run" 1 0 1 32)).
  vm_compute. tauto.
Defined.

End ScannerExtras2.

(** ** More on matching candidate files *)

Module MatchingExtras.
Import JsString JsStringFacts PathResolver ResolverClaims.

Lemma flat_map_nil {A B} (f : A -> list B) (l : list A) :
  (forall x, In x l -> f x = []) -> flat_map f l = [].
Proof.
  induction l as [|a l IH]; intros H; simpl; [reflexivity|].
  rewrite (H a (or_introl eq_refl)), IH; [reflexivity|].
  intros x Hx. apply H. now right.
Qed.

Section AnyPathUtils.
Context {PU : PathUtils}.

Lemma findMatchingFiles_equivalent file target allFiles :
  In file allFiles -> arePathsEquivalent (path file) target = true ->
  In (path file) (findMatchingFiles target allFiles).
Proof.
  intros I E. unfold findMatchingFiles. apply in_map, filter_In.
  split; [exact I|]. unfold fileMatches. now rewrite E.
Qed.

Lemma index_rule_matches nf nt d idx :
  In idx ["/index.js"; "/index.ts"; "/index.jsx"; "/index.tsx"] ->
  nf = (d ++ "/" ++ nt ++ idx)%string -> partialMatch nf nt = true.
Proof.
  intros I ->. unfold partialMatch. simpl in I.
  repeat (destruct I as [<-|I]; [
    rewrite !(endsWith_append d);
    repeat rewrite Bool.orb_true_r; reflexivity |]).
  contradiction.
Qed.

(** X17: a candidate file whose path is equivalent to the probed path,
    that is the base path followed by one of the extensions tried, is
    returned by resolveImportPath, for a relative import and for a
    module-style import alike. The comparison ignores the case of the
    letters. *)
Theorem X17_equivalent_candidate_is_returned
    (importPath currentFilePath projectRoot ext : string)
    (allFiles : list FileData) (file : FileData) :
  startsWith importPath "/" = false ->
  In file allFiles ->
  In ext (getFileExtensions importPath) ->
  arePathsEquivalent (path file)
    ((if startsWith importPath "./" || startsWith importPath "../"
      then resolvePath (dirname currentFilePath) importPath
      else importPath) ++ ext) = true ->
  In (path file)
     (resolveImportPath importPath currentFilePath allFiles projectRoot).
Proof.
  intros A I Ie E.
  destruct (startsWith importPath "./" || startsWith importPath "../") eqn:R.
  - eapply resolveImportPath_relative_keeps; [exact A | exact R | exact Ie|].
    now apply findMatchingFiles_equivalent.
  - eapply resolveImportPath_module_keeps; [exact A | exact R | exact Ie|].
    now apply findMatchingFiles_equivalent.
Qed.

(** X18: for a module-style import without extension, when no candidate
    file matches the import followed by any of the default extensions, a
    candidate whose path ends with a separator, the import and the name of
    an index file is returned. *)
Theorem X18_module_import_falls_back_to_index_file
    (importPath currentFilePath projectRoot d idx : string)
    (allFiles : list FileData) (file : FileData) :
  startsWith importPath "/" = false ->
  startsWith importPath "./" || startsWith importPath "../" = false ->
  hasRecognizedExtension importPath = false ->
  (forall ext, In ext (default FILE_EXTENSIONS) ->
               findMatchingFiles (importPath ++ ext) allFiles = []) ->
  In file allFiles ->
  In idx ["/index.js"; "/index.ts"; "/index.jsx"; "/index.tsx"] ->
  canonical (path file) = (d ++ "/" ++ canonical importPath ++ idx)%string ->
  In (path file)
     (resolveImportPath importPath currentFilePath allFiles projectRoot).
Proof.
  intros A R H N I Ii E. unfold resolveImportPath. rewrite A, R.
  rewrite (getFileExtensions_default _ H). unfold probe.
  change [".js"; ".ts"; ".jsx"; ".tsx"; ".py"; ".css"; ".scss"; ".sass"]
    with (default FILE_EXTENSIONS).
  rewrite (flat_map_nil _ _ N). simpl.
  unfold findMatchingFiles. apply in_map, filter_In. split; [exact I|].
  unfold fileMatches.
  destruct (arePathsEquivalent (path file) importPath); [reflexivity|].
  eapply index_rule_matches; eassumption.
Qed.

End AnyPathUtils.

Import SpecPathUtils Fixtures.

Lemma X17_equivalent_candidate_is_returned_witness :
  In "/project/src/utils/helper.ts"
     (resolveImportPath "./utils/Helper" "/project/src/App.ts"
        [helperJs; helperTs] "/project").
Proof.
  apply (X17_equivalent_candidate_is_returned "./utils/Helper"
           "/project/src/App.ts" "/project" ".ts" [helperJs; helperTs]
           helperTs).
  - reflexivity.
  - simpl. tauto.
  - simpl. tauto.
  - reflexivity.
Defined.

Lemma X18_module_import_falls_back_to_index_file_witness :
  In "/project/src/components/index.ts"
     (resolveImportPath "components" "/project/src/App.ts"
        [componentsIndex] "/project").
Proof.
  apply (X18_module_import_falls_back_to_index_file "components"
           "/project/src/App.ts" "/project" "/project/src" "/index.ts"
           [componentsIndex] componentsIndex).
  - reflexivity.
  - reflexivity.
  - reflexivity.
  - intros ext I. simpl in I.
    repeat (destruct I as [<-|I]; [reflexivity|]). contradiction.
  - simpl. tauto.
  - simpl. tauto.
  - reflexivity.
Defined.

End MatchingExtras.
